(** * Storyboard production system: scene matching, assembly planning and
      the production job, embedded from the TypeScript sources

    Sources embedded here:
    - [storyboard/src/types.ts]               (schemas, [CONFIG])
    - [storyboard/src/db/schema.ts],
      [storyboard/src/db/index.ts]            (tables and their
                                               constraints)
    - [storyboard/src/services/matcher.ts]    (scoring and matching)
    - [storyboard/src/services/assembler.ts]  (ffmpeg command construction)
    - [storyboard/src/routes/storyboards.ts]  (create, get, match, produce
                                               and override routes,
                                               [processProductionJob])
    - [storyboard/src/routes/jobs.ts]         (get, download and cancel)
    - [storyboard/src/services/generator.ts]  ([hashCode],
                                               [pollUntilComplete],
                                               [checkHealth])
    - [storyboard/src/services/catalog.ts]    ([catalogBatch])

    Modelling conventions.
    - In the modules [Matcher], [Assembler] and [Routes] a JavaScript
      [number] is a real number ([R]): arithmetic is exact, so rounding,
      overflow and [NaN] of IEEE doubles are outside these modules.
      Module [Binary64] has [cosineSimilarity], the composite score, the
      end of the scoring loop, [shouldGenerate] and [getBestMatch] on IEEE
      doubles (primitive floats), where rounding, overflow and [NaN] are
      what the code meets.
    - [string | null | undefined] is [option string]; truthiness tests are
      written out ([JS.truthy], [JS.numOr]).  String functions follow
      JavaScript on ASCII text.
    - A promise that rejects / a [throw] is the [Throw] case of [Result].
    - The strings handed to ffmpeg are kept as structured values (one
      constructor per template literal of the source, one field per
      interpolated expression) instead of being flattened to text.
    - Remote collaborators (embedding, vector search, LTX-2 generation,
      cataloguing, the ffmpeg process, [nanoid]) are the fields of
      [Effects.Services]; the database and the log of the calls made to
      the collaborators form [Effects.World].  Timestamps, console output
      and the file system are left out.
    - The tables are lists in insertion order; a [select ... limit 1] takes
      the first row that fits.  An insert that breaks the primary key of
      [storyboards] or [production_jobs] or the [UNIQUE] constraint on
      [generated_assets.asset_id] rejects and writes nothing.  Every insert
      of the routes carries the id of a storyboard row read just before,
      and no route deletes a storyboard.
    - The 32-bit integers of [hashCode] are integers ([Z]) with the
      wrap-around written out; the clock of [pollUntilComplete] is a
      parameter of the run. *)

From Stdlib Require Import Reals Lra Lia List String Ascii Bool Arith Sorted.
From Stdlib Require PrimFloat.
From Stdlib Require FloatAxioms SpecFloat.
From Stdlib Require Import ZArith.
Import ListNotations.

(* ------------------------------------------------------------------ *)
(** * JavaScript primitives used by the sources *)

Module JS.

Local Open Scope R_scope.

(** [a < b], [a >= b] and [a === b] on numbers, as booleans. *)
Definition ltb (a b : R) : bool := if Rlt_dec a b then true else false.
Definition geb (a b : R) : bool := if Rle_dec b a then true else false.
Definition eqb (a b : R) : bool := if Req_dec_T a b then true else false.

(** [x || d] for [x : number | null | undefined]: [0] is falsy. *)
Definition numOr (x : option R) (d : R) : R :=
  match x with
  | Some v => if eqb v 0 then d else v
  | None => d
  end.

(** Truthiness of [string | null | undefined]: [""] is falsy. *)
Definition truthy (s : option string) : bool :=
  match s with
  | Some v => negb (String.eqb v "")
  | None => false
  end.

(** [String.prototype.toLowerCase], on the ASCII letters. *)
Definition lowerChar (c : ascii) : ascii :=
  let n := nat_of_ascii c in
  if (65 <=? n)%nat && (n <=? 90)%nat then ascii_of_nat (n + 32) else c.

Fixpoint toLowerCase (s : string) : string :=
  match s with
  | EmptyString => EmptyString
  | String c r => String (lowerChar c) (toLowerCase r)
  end.

(** The class [\s], on the ASCII range: TAB, LF, VT, FF, CR, space. *)
Definition isWhitespace (c : ascii) : bool :=
  let n := nat_of_ascii c in
  ((9 <=? n)%nat && (n <=? 13)%nat) || (n =? 32)%nat.

(** [s.split(/\s+/)]: cut at every maximal run of whitespace.  A leading
    or trailing run leaves an empty first or last piece, and the empty
    string splits into one empty piece.  [cur] is the piece being read,
    [inRun] tells that the previous character was whitespace. *)
Fixpoint splitAux (s : string) (cur : string) (inRun : bool) : list string :=
  match s with
  | EmptyString => [cur]
  | String c r =>
      if isWhitespace c
      then if inRun then splitAux r cur true
           else cur :: splitAux r EmptyString true
      else splitAux r (cur ++ String c EmptyString)%string false
  end.

Definition splitWhitespace (s : string) : list string :=
  splitAux s EmptyString false.

(** [hay.includes(needle)]. *)
Fixpoint includes (hay needle : string) : bool :=
  if String.prefix needle hay then true
  else match hay with
       | EmptyString => false
       | String _ r => includes r needle
       end.

(** [arr.join(sep)]. *)
Definition join (sep : string) (l : list string) : string :=
  String.concat sep l.

(** [new Set(arr)]: the distinct elements, in order of first insertion. *)
Definition setHas (s : list string) (x : string) : bool :=
  existsb (String.eqb x) s.

Definition newSet (l : list string) : list string :=
  fold_left (fun acc x => if setHas acc x then acc else acc ++ [x]) l [].

End JS.

(** Outcome of an [async] function or of a block that may [throw]. *)
Inductive Result (A : Type) : Type :=
| Ok (a : A)
| Throw (msg : string).
Arguments Ok {A} a.
Arguments Throw {A} msg.

Definition bindR {A B} (r : Result A) (k : A -> Result B) : Result B :=
  match r with
  | Ok a => k a
  | Throw m => Throw m
  end.

(* ------------------------------------------------------------------ *)
(** * types.ts *)

Inductive TransitionType := cut | fade | dissolve | wipe.
Inductive AssetSource := existing | generated | manual.
Inductive JobStatus :=
  pending | matching | generating | assembling | completed | failed.

Definition TransitionType_eqb (a b : TransitionType) : bool :=
  match a, b with
  | cut, cut | fade, fade | dissolve, dissolve | wipe, wipe => true
  | _, _ => false
  end.

(** [SceneSchema]. *)
Module Scene.
Record t := mk {
  sceneId : string;
  sequence : nat;
  duration : R;
  description : string;
  visualKeywords : list string;
  styleHints : option string;
  transitionIn : TransitionType;
  transitionOut : TransitionType;
  (* populated by the matcher *)
  matchedAssetId : option string;
  matchScore : option R;
  assetSource : option AssetSource;
  needsReview : bool
}.

(** The four fields written together by the match and override routes. *)
Definition setResolution (s : t) (aid : option string) (score : option R)
    (src : option AssetSource) (review : bool) : t :=
  mk (sceneId s) (sequence s) (duration s) (description s)
     (visualKeywords s) (styleHints s) (transitionIn s) (transitionOut s)
     aid score src review.
End Scene.

(** [StoryboardSchema]. *)
Module Storyboard.
Record t := mk {
  storyboardId : string;
  title : string;
  scenes : list Scene.t;
  outputResolution : R * R;
  outputFps : R
}.
End Storyboard.

(** [AssetMatchSchema]. *)
Module AssetMatch.
Record t := mk {
  assetId : string;
  filepath : string;
  semanticScore : R;
  styleScore : R;
  useCaseScore : R;
  qualityScore : R;
  durationScore : R;
  compositeScore : R;
  needsReview : bool
}.
End AssetMatch.

(** [LanceDBAssetSchema]. *)
Module LanceDBAsset.
Record t := mk {
  id : string;
  filename : string;
  filepath : string;
  source : string;
  media_type : string;
  description : option string;
  tags : option (list string);
  style : option string;
  use_case : option string;
  width : option R;
  height : option R;
  duration : option R;
  fps : option R;
  vector : option (list R)
}.
End LanceDBAsset.

(** [interface ResolvedAsset]. *)
Module ResolvedAsset.
Record t := mk {
  sceneId : string;
  assetId : string;
  localPath : string;
  source : AssetSource;
  confidence : R;
  needsReview : bool
}.
End ResolvedAsset.

(** [CONFIG]: the constants the embedded code reads. *)
Module CONFIG.
Local Open Scope R_scope.
Definition OUTPUT_DIR : string := "/Volumes/STUDIO/VIDEO".
Module WEIGHTS.
Definition semanticSimilarity : R := 0.50.
Definition styleMatch : R := 0.20.
Definition useCaseMatch : R := 0.15.
Definition qualityScore : R := 0.10.
Definition durationFit : R := 0.05.
End WEIGHTS.
Module THRESHOLDS.
Definition semanticMinimum : R := 0.72.
Definition compositeMinimum : R := 0.78.
Definition excellentMatch : R := 0.90.
End THRESHOLDS.
End CONFIG.

(* ------------------------------------------------------------------ *)
(** * services/assembler.ts *)

Module Assembler.

Local Open Scope R_scope.

Record AssemblyOptions := mkOptions {
  outputPath : string;
  width : option R;
  height : option R;
  fps : option R
}.

(** The filter chain
    [scale=W:H:force_original_aspect_ratio=decrease,
     pad=W:H:(ow-iw)/2:(oh-ih)/2,setsar=1,fps=F]. *)
Record Normalize := mkNormalize {
  scaleWidth : R;
  scaleHeight : R;
  targetFps : R
}.

(** Stream labels of a filter graph: [[i:v]], [[vi]], [[xfadei]],
    [[concati]], [[outv]] and the empty string. *)
Inductive Label :=
| InputVideo (i : nat)
| Scaled (i : nat)
| XfadeOut (i : nat)
| ConcatOut (i : nat)
| Outv
| NoLabel.

(** One element of [filterParts], by the template literal that built it:
    - [[i:v]scale=...,fps=F[vi]]
    - [IN[vi]xfade=transition=T:duration=D:offset=O OUT]
    - [INPUTS concat=n=N:v=1:a=0 OUT]. *)
Inductive FilterPart :=
| ScaleFilter (input : Label) (norm : Normalize) (out : Label)
| XfadeFilter (in1 in2 : Label) (transition : string)
    (duration offset : R) (out : Label)
| ConcatFilter (inputs : list Label) (n : nat) (out : Label).

Definition isOutv (l : Label) : bool :=
  match l with
  | Outv => true
  | _ => false
  end.

Definition labelsOf (p : FilterPart) : list Label :=
  match p with
  | ScaleFilter i _ o => [i; o]
  | XfadeFilter i1 i2 _ _ _ o => [i1; i2; o]
  | ConcatFilter ins _ o => ins ++ [o]
  end.

Definition outLabel (p : FilterPart) : Label :=
  match p with
  | ScaleFilter _ _ o => o
  | XfadeFilter _ _ _ _ _ o => o
  | ConcatFilter _ _ o => o
  end.

(** [part.includes('[outv]')]: the only bracketed pieces of a part's text
    are its labels. *)
Definition includesOutv (p : FilterPart) : bool :=
  existsb isOutv (labelsOf p).

(** An input of the ffmpeg command: a media file, or the temporary list
    file of [assembleSimple] (one [file '<path>'] line per asset) read
    with [-f concat -safe 0]. *)
Inductive FfmpegInput :=
| InputFile (path : string)
| ConcatListFile (paths : list string).

(** The command handed to ffmpeg.  The encoder options
    ([-c:v libx264 -preset medium -crf 18 -pix_fmt yuv420p
      -movflags +faststart]) are the same on every path and left out. *)
Record FfmpegCommand := mkCommand {
  inputs : list FfmpegInput;
  videoFilter : option Normalize;        (* [-vf ...] *)
  complexFilter : list FilterPart;       (* [filterParts.join(';')] *)
  mapOutput : option Label;              (* [-map [outv]] *)
  output : string
}.

Definition normalizeOf (options : AssemblyOptions) : Normalize :=
  let width := JS.numOr (width options) 1920 in
  let height := JS.numOr (height options) 1080 in
  let fps := JS.numOr (fps options) 30 in
  mkNormalize width height fps.

Definition assembleSimple (assets : list ResolvedAsset.t)
    (options : AssemblyOptions) : FfmpegCommand :=
  mkCommand [ConcatListFile (map ResolvedAsset.localPath assets)]
    (Some (normalizeOf options)) [] None (outputPath options).

Definition transitionDuration : R := 0.5.

(** [transitionType === 'wipe' ? 'wipeleft' : transitionType]. *)
Definition xfadeName (t : TransitionType) : string :=
  match t with
  | wipe => "wipeleft"
  | fade => "fade"
  | dissolve => "dissolve"
  | cut => "cut"
  end.

(** [scenes[k]?.duration || 5]. *)
Definition sceneDuration (scenes : list Scene.t) (k : nat) : R :=
  JS.numOr (option_map Scene.duration (nth_error scenes k)) 5.

(** [scenes[k]?.transitionOut || 'cut']. *)
Definition sceneTransitionOut (scenes : list Scene.t) (k : nat)
  : TransitionType :=
  match nth_error scenes k with
  | Some scene => Scene.transitionOut scene
  | None => cut
  end.

(** The variables of the transition loop. *)
Record ChainState := mkChain {
  currentInput : Label;
  offset : R;
  filterParts : list FilterPart
}.

(** The body of [for (let i = 1; i < assets.length; i++)], with
    [n = assets.length]. *)
Definition chainStep (n : nat) (scenes : list Scene.t) (st : ChainState)
    (i : nat) : ChainState :=
  let transitionType := sceneTransitionOut scenes (i - 1) in
  let offset' :=
    if (i =? 1)%nat then sceneDuration scenes 0
    else offset st + (sceneDuration scenes (i - 1) - transitionDuration) in
  if negb (TransitionType_eqb transitionType cut) then
    let out := if (i =? n - 1)%nat then Outv else XfadeOut i in
    mkChain (if isOutv out then NoLabel else out) offset'
      (filterParts st
       ++ [XfadeFilter (currentInput st) (Scaled i)
             (xfadeName transitionType) transitionDuration
             (offset' - transitionDuration) out])
  else if (i =? n - 1)%nat then
    mkChain (currentInput st) offset'
      (filterParts st
       ++ [ConcatFilter [currentInput st; Scaled i] 2 Outv])
  else
    mkChain (ConcatOut i) offset'
      (filterParts st
       ++ [ConcatFilter [currentInput st; Scaled i] 2 (ConcatOut i)]).

(** "First, scale all inputs". *)
Definition scaleParts (n : nat) (norm : Normalize) : list FilterPart :=
  map (fun i => ScaleFilter (InputVideo i) norm (Scaled i)) (seq 0 n).

(** "Then apply transitions": the state after the loop. *)
Definition applyTransitions (n : nat) (scenes : list Scene.t)
    (norm : Normalize) : ChainState :=
  fold_left (chainStep n scenes) (seq 1 (n - 1))
    (mkChain (Scaled 0) 0 (scaleParts n norm)).

(** The final test on [filterParts[filterParts.length - 1]] and the
    "simple concatenation fallback".  Reading [.includes] of the missing
    last element of an empty array throws.  The truncation
    [filterParts.length = n] is [firstn n]: the list starts with the [n]
    scale filters, so it is never shorter than [n]. *)
Definition finalizeChain (n : nat) (parts : list FilterPart)
  : Result (list FilterPart) :=
  match nth_error parts (List.length parts - 1) with
  | None =>
      Throw "TypeError: Cannot read properties of undefined"
  | Some lastPart =>
      if negb (includesOutv lastPart)
      then Ok (firstn n parts ++ [ConcatFilter (map Scaled (seq 0 n)) n Outv])
      else Ok parts
  end.

Definition assembleWithTransitions (assets : list ResolvedAsset.t)
    (scenes : list Scene.t) (options : AssemblyOptions)
  : Result FfmpegCommand :=
  let norm := normalizeOf options in
  match assets with
  | [only] =>
      Ok (mkCommand [InputFile (ResolvedAsset.localPath only)] (Some norm)
            [] None (outputPath options))
  | _ =>
      let n := List.length assets in
      bindR (finalizeChain n (filterParts (applyTransitions n scenes norm)))
        (fun parts =>
      Ok (mkCommand (map (fun a => InputFile (ResolvedAsset.localPath a))
                       assets)
            None parts (Some Outv) (outputPath options)))
  end.

Definition hasTransitions (storyboard : Storyboard.t) : bool :=
  existsb
    (fun s =>
       negb (TransitionType_eqb (Scene.transitionIn s) cut)
       || negb (TransitionType_eqb (Scene.transitionOut s) cut))
    (Storyboard.scenes storyboard).

(** [assembleStoryboard], up to the launch of ffmpeg: the command it
    builds, or the exception raised while building it. *)
Definition assembleStoryboard (storyboard : Storyboard.t)
    (assets : list ResolvedAsset.t) (outputPath : string)
  : Result FfmpegCommand :=
  let '(width, height) := Storyboard.outputResolution storyboard in
  let options :=
    mkOptions outputPath (Some width) (Some height)
      (Some (Storyboard.outputFps storyboard)) in
  if hasTransitions storyboard
  then assembleWithTransitions assets (Storyboard.scenes storyboard) options
  else Ok (assembleSimple assets options).

(** ** Measures of a command *)

Definition isScale (p : FilterPart) : bool :=
  match p with
  | ScaleFilter _ _ _ => true
  | _ => false
  end.

(** Number of scale/pad/fps steps: the [-vf] chain, if present, and the
    scale filters of the filter graph. *)
Definition normalizeSteps (cmd : FfmpegCommand) : nat :=
  ((match videoFilter cmd with Some _ => 1 | None => 0 end)
   + List.length (filter isScale (complexFilter cmd)))%nat.

(** The junction operations ([xfade] and [concat]) of the filter graph. *)
Definition junctions (parts : list FilterPart) : list FilterPart :=
  filter (fun p => negb (isScale p)) parts.

(** The graph delivers exactly one [[outv]] stream, from its last part. *)
Definition singleFinalOutput (parts : list FilterPart) : bool :=
  match rev parts with
  | [] => false
  | lastPart :: before =>
      isOutv (outLabel lastPart)
      && forallb (fun p => negb (isOutv (outLabel p))) before
  end.

End Assembler.

(* ------------------------------------------------------------------ *)
(** * db/schema.ts *)

(** The four SQLite tables, each a list of rows in insertion order.  The
    [scenes_json] column holds [JSON.stringify(scenes)] and is read back
    with [JSON.parse]: it is kept as the scene list itself.  The
    [created_at] / [updated_at] columns are left out. *)
Module Db.

Record StoryboardRow := mkStoryboardRow {
  sb_storyboardId : string;
  sb_title : string;
  sb_scenesJson : list Scene.t;
  sb_outputWidth : R;
  sb_outputHeight : R;
  sb_outputFps : R
}.

Record ProductionJobRow := mkJobRow {
  job_jobId : string;
  job_storyboardId : string;
  job_status : JobStatus;
  job_progress : R;
  job_outputPath : option string;
  job_error : option string
}.

Record SceneMatchRow := mkSceneMatchRow {
  sm_storyboardId : string;
  sm_sceneId : string;
  sm_assetId : string;
  sm_assetPath : string;
  sm_source : AssetSource;
  sm_compositeScore : R;
  sm_needsReview : bool
}.

Record GeneratedAssetRow := mkGeneratedAssetRow {
  ga_assetId : string;
  ga_jobId : string;
  ga_sceneId : string;
  ga_storyboardId : string;
  ga_prompt : string;
  ga_ltx2JobId : string;
  ga_filepath : string;
  ga_catalogued : bool
}.

Record t := mk {
  storyboards : list StoryboardRow;
  productionJobs : list ProductionJobRow;
  sceneMatches : list SceneMatchRow;
  generatedAssets : list GeneratedAssetRow
}.

End Db.

(* ------------------------------------------------------------------ *)
(** * Effects: the database, the remote collaborators and exceptions *)

Module Effects.

(** What [generateVideoForScene] resolves to. *)
Record Generation := mkGeneration {
  gen_jobId : string;
  gen_filepath : string;
  gen_prompt : string
}.

(** The remote collaborators, as the answers they give.  Submitting,
    polling and downloading inside [generateVideoForScene] are one answer:
    the generation, or the error it rejects with. *)
Record Services := mkServices {
  svc_generateEmbedding : string -> Result (list R);
  svc_searchLanceDB :
    list R -> nat -> option string -> Result (list LanceDBAsset.t);
  svc_generateVideoForScene : Scene.t -> Result Generation;
  svc_catalogGeneratedAsset :
    Scene.t -> string -> string -> string -> Result string;
  svc_ffmpeg : Assembler.FfmpegCommand -> Result unit;
  svc_nanoid : nat -> string
}.

(** The log of calls made to the collaborators, oldest first. *)
Inductive Call :=
| CallEmbedding (text : string)
| CallSearch (limit : nat) (mediaType : option string)
| CallGenerate (sceneId : string)
| CallCatalog (sceneId : string)
| CallFfmpeg (cmd : Assembler.FfmpegCommand).

Record World := mkWorld {
  db : Db.t;
  calls : list Call;
  idsDrawn : nat
}.

(** An [async] computation: it changes the world and resolves or rejects.
    Writes made before a rejection stay. *)
Definition M (A : Type) : Type := World -> Result A * World.

Definition ret {A} (a : A) : M A := fun w => (Ok a, w).

Definition throw {A} (msg : string) : M A := fun w => (Throw msg, w).

Definition bind {A B} (c : M A) (k : A -> M B) : M B :=
  fun w =>
    match c w with
    | (Ok a, w') => k a w'
    | (Throw msg, w') => (Throw msg, w')
    end.

(** [try { c } catch (error) { handler(error.message) }]. *)
Definition tryCatch {A} (c : M A) (handler : string -> M A) : M A :=
  fun w =>
    match c w with
    | (Ok a, w') => (Ok a, w')
    | (Throw msg, w') => handler msg w'
    end.

Definition liftResult {A} (r : Result A) : M A := fun w => (r, w).

Definition logCall (c : Call) : M unit :=
  fun w => (Ok tt, mkWorld (db w) (calls w ++ [c]) (idsDrawn w)).

Definition readDb : M Db.t := fun w => (Ok (db w), w).

Definition writeDb (f : Db.t -> Db.t) : M unit :=
  fun w => (Ok tt, mkWorld (f (db w)) (calls w) (idsDrawn w)).

Declare Scope effects_scope.
Delimit Scope effects_scope with effects.
Notation "x <- c ;; k" := (bind c (fun x => k))
  (at level 61, c at next level, right associativity) : effects_scope.
Notation "c ;;; k" := (bind c (fun _ => k))
  (at level 61, right associativity) : effects_scope.

Section WithServices.

Variable svc : Services.

Local Open Scope effects_scope.

Definition generateEmbedding (text : string) : M (list R) :=
  logCall (CallEmbedding text) ;;;
  liftResult (svc_generateEmbedding svc text).

Definition searchLanceDB (vector : list R) (limit : nat)
    (mediaType : option string) : M (list LanceDBAsset.t) :=
  logCall (CallSearch limit mediaType) ;;;
  liftResult (svc_searchLanceDB svc vector limit mediaType).

Definition generateVideoForScene (scene : Scene.t) : M Generation :=
  logCall (CallGenerate (Scene.sceneId scene)) ;;;
  liftResult (svc_generateVideoForScene svc scene).

Definition catalogGeneratedAsset (scene : Scene.t)
    (prompt filepath storyboardId : string) : M string :=
  logCall (CallCatalog (Scene.sceneId scene)) ;;;
  liftResult (svc_catalogGeneratedAsset svc scene prompt filepath storyboardId).

Definition runFfmpeg (cmd : Assembler.FfmpegCommand) : M unit :=
  logCall (CallFfmpeg cmd) ;;;
  liftResult (svc_ffmpeg svc cmd).

(** [nanoid(8)]: the next identifier of the supply. *)
Definition nanoid : M string :=
  fun w =>
    (Ok (svc_nanoid svc (idsDrawn w)),
     mkWorld (db w) (calls w) (S (idsDrawn w))).

End WithServices.

(** Counting the calls of one kind in a log. *)
Definition isGenerate (c : Call) : bool :=
  match c with
  | CallGenerate _ => true
  | _ => false
  end.

Definition isSearch (c : Call) : bool :=
  match c with
  | CallSearch _ _ => true
  | _ => false
  end.

Definition generations (l : list Call) : nat :=
  List.length (filter isGenerate l).

Definition searches (l : list Call) : nat :=
  List.length (filter isSearch l).

End Effects.

(* ------------------------------------------------------------------ *)
(** * services/matcher.ts *)

Module Matcher.

Local Open Scope R_scope.
Import CONFIG.

(** The [for] loop of [cosineSimilarity], over the paired components
    (the lengths are equal when it runs), threading its three
    accumulators. *)
Fixpoint cosineLoop (ab : list (R * R)) (dotProduct normA normB : R)
  : R * R * R :=
  match ab with
  | [] => (dotProduct, normA, normB)
  | (x, y) :: rest =>
      cosineLoop rest (dotProduct + x * y) (normA + x * x) (normB + y * y)
  end.

Definition cosineSimilarity (a b : list R) : R :=
  if negb (List.length a =? List.length b)%nat then 0
  else
    let '(dotProduct, normA, normB) := cosineLoop (combine a b) 0 0 0 in
    let denominator := sqrt normA * sqrt normB in
    if JS.eqb denominator 0 then 0 else dotProduct / denominator.

Definition calculateStyleScore (scene : Scene.t) (asset : LanceDBAsset.t)
  : R :=
  let sceneTags :=
    JS.newSet
      (map JS.toLowerCase (Scene.visualKeywords scene)
       ++ match Scene.styleHints scene with
          | Some h => JS.splitWhitespace (JS.toLowerCase h)
          | None => []
          end) in
  let assetTags :=
    JS.newSet
      (match LanceDBAsset.tags asset with
       | Some ts => map JS.toLowerCase ts
       | None => []
       end
       ++ match LanceDBAsset.style asset with
          | Some st => JS.splitWhitespace (JS.toLowerCase st)
          | None => []
          end) in
  if (List.length sceneTags =? 0)%nat || (List.length assetTags =? 0)%nat
  then 0.5
  else
    let matches := List.length (filter (JS.setHas assetTags) sceneTags) in
    INR matches / INR (Nat.max (List.length sceneTags) 1).

Definition calculateUseCaseScore (scene : Scene.t) (asset : LanceDBAsset.t)
  : R :=
  match LanceDBAsset.use_case asset with
  | None => 0.5
  | Some use_case =>
      if String.eqb use_case "" then 0.5
      else
        let sceneText :=
          JS.toLowerCase
            (Scene.description scene ++ " "
             ++ JS.join " " (Scene.visualKeywords scene))%string in
        let useCase := JS.toLowerCase use_case in
        let useCaseWords := JS.splitWhitespace useCase in
        let matches :=
          List.length
            (filter
               (fun word =>
                  (3 <? String.length word)%nat
                  && JS.includes sceneText word)
               useCaseWords) in
        Rmin (INR matches / INR (Nat.max (List.length useCaseWords) 1)) 1
  end.

Definition calculateQualityScore (asset : LanceDBAsset.t) : R :=
  let width := JS.numOr (LanceDBAsset.width asset) 0 in
  let height := JS.numOr (LanceDBAsset.height asset) 0 in
  let targetPixels := 1920 * 1080 in
  let assetPixels := width * height in
  if JS.geb assetPixels targetPixels then 1.0
  else if JS.eqb assetPixels 0 then 0.3
  else assetPixels / targetPixels.

Definition calculateDurationScore (scene : Scene.t)
    (asset : LanceDBAsset.t) : R :=
  match LanceDBAsset.duration asset with
  | None => 0.5
  | Some assetDuration =>
      if JS.eqb assetDuration 0
         || negb (String.eqb (LanceDBAsset.media_type asset) "video")
      then 0.5
      else
        let targetDuration := Scene.duration scene in
        if JS.geb assetDuration targetDuration then 1.0
        else
          let ratio := assetDuration / targetDuration in
          Rmax ratio 0.3
  end.

(** The object literal passed to [calculateCompositeScore]. *)
Record Scores := mkScores {
  semantic : R;
  style : R;
  useCase : R;
  quality : R;
  duration : R
}.

Definition calculateCompositeScore (scores : Scores) : R :=
  semantic scores * WEIGHTS.semanticSimilarity
  + style scores * WEIGHTS.styleMatch
  + useCase scores * WEIGHTS.useCaseMatch
  + quality scores * WEIGHTS.qualityScore
  + duration scores * WEIGHTS.durationFit.

(** [asset.vector ? cosineSimilarity(embedding, asset.vector) : 0.7];
    an array, even an empty one, is truthy. *)
Definition semanticScoreOf (embedding : list R) (asset : LanceDBAsset.t)
  : R :=
  match LanceDBAsset.vector asset with
  | Some v => cosineSimilarity embedding v
  | None => 0.7
  end.

(** [needsReview]: between the two composite thresholds. *)
Definition reviewFlag (compositeScore : R) : bool :=
  JS.geb compositeScore THRESHOLDS.compositeMinimum
  && JS.ltb compositeScore THRESHOLDS.excellentMatch.

(** One iteration of the scoring loop of [matchSceneToAssets]: [None] is
    the [continue], [Some m] the record pushed on [matches]. *)
Definition scoreCandidate (scene : Scene.t) (embedding : list R)
    (asset : LanceDBAsset.t) : option AssetMatch.t :=
  let semanticScore := semanticScoreOf embedding asset in
  if JS.ltb semanticScore THRESHOLDS.semanticMinimum then None
  else
    let styleScore := calculateStyleScore scene asset in
    let useCaseScore := calculateUseCaseScore scene asset in
    let qualityScore := calculateQualityScore asset in
    let durationScore := calculateDurationScore scene asset in
    let compositeScore :=
      calculateCompositeScore
        (mkScores semanticScore styleScore useCaseScore qualityScore
           durationScore) in
    let needsReview := reviewFlag compositeScore in
    Some (AssetMatch.mk (LanceDBAsset.id asset)
            (LanceDBAsset.filepath asset) semanticScore styleScore
            useCaseScore qualityScore durationScore compositeScore
            needsReview).

Fixpoint scoreCandidates (scene : Scene.t) (embedding : list R)
    (candidates : list LanceDBAsset.t) : list AssetMatch.t :=
  match candidates with
  | [] => []
  | asset :: rest =>
      match scoreCandidate scene embedding asset with
      | Some m => m :: scoreCandidates scene embedding rest
      | None => scoreCandidates scene embedding rest
      end
  end.

(** [matches.sort((a, b) => b.compositeScore - a.compositeScore)]: the
    stable sort by decreasing composite score, as an insertion sort that
    keeps an element in front of the later ones it ties with. *)
Fixpoint insertByComposite (m : AssetMatch.t) (sorted : list AssetMatch.t)
  : list AssetMatch.t :=
  match sorted with
  | [] => [m]
  | x :: rest =>
      if JS.ltb (AssetMatch.compositeScore m) (AssetMatch.compositeScore x)
      then x :: insertByComposite m rest
      else m :: x :: rest
  end.

Fixpoint sortByComposite (l : list AssetMatch.t) : list AssetMatch.t :=
  match l with
  | [] => []
  | m :: rest => insertByComposite m (sortByComposite rest)
  end.

(** The search text and the media-type filter of the query. *)
Definition searchText (scene : Scene.t) : string :=
  JS.join " "
    (filter (fun s => negb (String.eqb s ""))
       (Scene.description scene
        :: Scene.visualKeywords scene
        ++ match Scene.styleHints scene with
           | Some h => [h]
           | None => []
           end)).

Definition mediaTypeFor (scene : Scene.t) : option string :=
  if JS.ltb 0 (Scene.duration scene) then Some "video"%string else None.

Section WithServices.

Variable svc : Effects.Services.

Import Effects.
Local Open Scope effects_scope.

Definition matchSceneToAssets (scene : Scene.t)
  : Effects.M (list AssetMatch.t) :=
  embedding <- Effects.generateEmbedding svc (searchText scene) ;;
  candidates <-
    Effects.searchLanceDB svc embedding 20%nat (mediaTypeFor scene) ;;
  Effects.ret (sortByComposite (scoreCandidates scene embedding candidates)).

End WithServices.

Definition getBestMatch (matches : list AssetMatch.t)
  : option AssetMatch.t :=
  match matches with
  | [] => None
  | topMatch :: _ =>
      if JS.geb (AssetMatch.compositeScore topMatch)
           THRESHOLDS.compositeMinimum
      then Some topMatch
      else None
  end.

End Matcher.

(* ------------------------------------------------------------------ *)
(** * services/matcher.ts on IEEE doubles *)

(** A JavaScript [number] is an IEEE 754 binary64 value, and so is a
    primitive float, with the same correctly rounded [+], [*], [/] and
    square root and the same comparisons, all false on NaN.  This module
    writes [cosineSimilarity], the composite score and the two decisions
    taken on it over them. *)
Module Binary64.

Import PrimFloat.
Local Open Scope float_scope.

Fixpoint cosineLoop (ab : list (float * float))
    (dotProduct normA normB : float) : float * float * float :=
  match ab with
  | [] => (dotProduct, normA, normB)
  | (x, y) :: rest =>
      cosineLoop rest (dotProduct + x * y) (normA + x * x) (normB + y * y)
  end.

Definition cosineSimilarity (a b : list float) : float :=
  if negb (Nat.eqb (List.length a) (List.length b)) then 0
  else
    let '(dotProduct, normA, normB) := cosineLoop (combine a b) 0 0 0 in
    let denominator := sqrt normA * sqrt normB in
    if denominator =? 0 then 0 else dotProduct / denominator.

(** [normA] and [normB] as the loop leaves them. *)
Definition normA (a b : list float) : float :=
  snd (fst (cosineLoop (combine a b) 0 0 0)).

Definition normB (a b : list float) : float :=
  snd (cosineLoop (combine a b) 0 0 0).

(** [CONFIG.THRESHOLDS] and [CONFIG.WEIGHTS]: the doubles that the decimal
    literals of the source denote. *)
Definition semanticMinimum : float := 0x1.70a3d70a3d70ap-1.  (* 0.72 *)
Definition compositeMinimum : float := 0x1.8f5c28f5c28f6p-1. (* 0.78 *)
Definition excellentMatch : float := 0x1.ccccccccccccdp-1.   (* 0.90 *)
Definition semanticSimilarity : float := 0.5.
Definition styleMatch : float := 0x1.999999999999ap-3.       (* 0.20 *)
Definition useCaseMatch : float := 0x1.3333333333333p-3.     (* 0.15 *)
Definition qualityScoreWeight : float := 0x1.999999999999ap-4. (* 0.10 *)
Definition durationFit : float := 0x1.999999999999ap-5.      (* 0.05 *)

(** [AssetMatch] with its scores as doubles. *)
Record AssetMatch := mkAssetMatch {
  assetId : string;
  filepath : string;
  semanticScore : float;
  styleScore : float;
  useCaseScore : float;
  qualityScore : float;
  durationScore : float;
  compositeScore : float;
  needsReview : bool
}.

Definition calculateCompositeScore
    (semantic style useCase quality duration : float) : float :=
  semantic * semanticSimilarity
  + style * styleMatch
  + useCase * useCaseMatch
  + quality * qualityScoreWeight
  + duration * durationFit.

(** The end of the body of the loop of [matchSceneToAssets] for a
    candidate with these sub-scores: [None] for [continue]. *)
Definition pushed (id path : string)
    (semantic style useCase quality duration : float) : option AssetMatch :=
  if semantic <? semanticMinimum then None
  else
    let composite :=
      calculateCompositeScore semantic style useCase quality duration in
    Some (mkAssetMatch id path semantic style useCase quality duration
            composite
            ((compositeMinimum <=? composite)
             && (composite <? excellentMatch))).

Definition shouldGenerate (matches : list AssetMatch) : bool :=
  match matches with
  | [] => true
  | topMatch :: _ => compositeScore topMatch <? compositeMinimum
  end.

Definition getBestMatch (matches : list AssetMatch) : option AssetMatch :=
  match matches with
  | [] => None
  | topMatch :: _ =>
      if compositeMinimum <=? compositeScore topMatch
      then Some topMatch else None
  end.

End Binary64.

(** Vocabulary and sample values of the statements on doubles. *)
Module Binary64Spec.

Import PrimFloat.
Local Open Scope float_scope.

(** A list in order of decreasing composite score. *)
Definition descending (l : list Binary64.AssetMatch) : Prop :=
  StronglySorted
    (fun m m' =>
       (Binary64.compositeScore m' <=? Binary64.compositeScore m) = true)
    l.

(** The top of the list does not have NaN for composite score. *)
Definition topIsNumber (l : list Binary64.AssetMatch) : Prop :=
  match l with
  | [] => True
  | topMatch :: _ => is_nan (Binary64.compositeScore topMatch) = false
  end.

(** An embedding and the vector of a candidate whose squared norm
    overflows. *)
Definition embeddingOnes : list float := [1; 1].
Definition vectorHuge : list float := [0x1p1023; 0x1p1023].

(** A match with composite score 0.5. *)
Definition matchHalf : Binary64.AssetMatch :=
  Binary64.mkAssetMatch "a50" "/media/a50.mp4" 0.75 0.25 0.25 0.25 0.25
    (Binary64.calculateCompositeScore 0.75 0.25 0.25 0.25 0.25) false.

End Binary64Spec.

(* ------------------------------------------------------------------ *)
(** * routes/storyboards.ts *)

Module Routes.

Import Effects.
Local Open Scope effects_scope.
Local Open Scope R_scope.

(** ** Queries *)

(** [db.select().from(storyboards).where(eq(storyboardId, id)).limit(1)]. *)
Definition selectStoryboard (id : string) : M (option Db.StoryboardRow) :=
  d <- readDb ;;
  ret (find (fun r => String.eqb (Db.sb_storyboardId r) id)
         (Db.storyboards d)).

(** [db.update(storyboards).set({ scenesJson }).where(...)]. *)
Definition updateStoryboardScenes (id : string) (scenes : list Scene.t)
  : M unit :=
  writeDb (fun d =>
    Db.mk
      (map (fun r =>
              if String.eqb (Db.sb_storyboardId r) id
              then Db.mkStoryboardRow (Db.sb_storyboardId r) (Db.sb_title r)
                     scenes (Db.sb_outputWidth r) (Db.sb_outputHeight r)
                     (Db.sb_outputFps r)
              else r)
         (Db.storyboards d))
      (Db.productionJobs d) (Db.sceneMatches d) (Db.generatedAssets d)).

(** [db.insert(sceneMatches).values(row)]. *)
Definition insertSceneMatch (row : Db.SceneMatchRow) : M unit :=
  writeDb (fun d =>
    Db.mk (Db.storyboards d) (Db.productionJobs d)
      (Db.sceneMatches d ++ [row]) (Db.generatedAssets d)).

(** [db.select().from(sceneMatches).where(eq(sceneId, id)).limit(1)]. *)
Definition selectSceneMatch (sceneId : string) : M (option Db.SceneMatchRow) :=
  d <- readDb ;;
  ret (find (fun r => String.eqb (Db.sm_sceneId r) sceneId)
         (Db.sceneMatches d)).

(** [db.insert(generatedAssets).values(row)].  The column [asset_id] is
    [UNIQUE]: SQLite refuses a row whose [asset_id] the table already
    holds, and the insert rejects. *)
Definition uniqueViolation : string :=
  "UNIQUE constraint failed: generated_assets.asset_id".

Definition insertGeneratedAsset (row : Db.GeneratedAssetRow) : M unit :=
  d <- readDb ;;
  if existsb (fun r => String.eqb (Db.ga_assetId r) (Db.ga_assetId row))
       (Db.generatedAssets d)
  then throw uniqueViolation
  else
    writeDb (fun d =>
      Db.mk (Db.storyboards d) (Db.productionJobs d) (Db.sceneMatches d)
        (Db.generatedAssets d ++ [row])).

(** [db.update(generatedAssets).set({ catalogued: true }).where(...)]. *)
Definition markCatalogued (assetId : string) : M unit :=
  writeDb (fun d =>
    Db.mk (Db.storyboards d) (Db.productionJobs d) (Db.sceneMatches d)
      (map (fun r =>
              if String.eqb (Db.ga_assetId r) assetId
              then Db.mkGeneratedAssetRow (Db.ga_assetId r) (Db.ga_jobId r)
                     (Db.ga_sceneId r) (Db.ga_storyboardId r)
                     (Db.ga_prompt r) (Db.ga_ltx2JobId r) (Db.ga_filepath r)
                     true
              else r)
         (Db.generatedAssets d))).

(** [updateJobStatus]: an [undefined] output path leaves the column as it
    is. *)
Definition updateJobStatus (jobId : string) (status : JobStatus)
    (progress : R) (outputPath : option string) : M unit :=
  writeDb (fun d =>
    Db.mk (Db.storyboards d)
      (map (fun r =>
              if String.eqb (Db.job_jobId r) jobId
              then Db.mkJobRow (Db.job_jobId r) (Db.job_storyboardId r)
                     status progress
                     (match outputPath with
                      | Some p => Some p
                      | None => Db.job_outputPath r
                      end)
                     (Db.job_error r)
              else r)
         (Db.productionJobs d))
      (Db.sceneMatches d) (Db.generatedAssets d)).

(** The update of the [catch] block of [processProductionJob]. *)
Definition failJob (jobId : string) (message : string) : M unit :=
  writeDb (fun d =>
    Db.mk (Db.storyboards d)
      (map (fun r =>
              if String.eqb (Db.job_jobId r) jobId
              then Db.mkJobRow (Db.job_jobId r) (Db.job_storyboardId r)
                     failed (Db.job_progress r) (Db.job_outputPath r)
                     (Some message)
              else r)
         (Db.productionJobs d))
      (Db.sceneMatches d) (Db.generatedAssets d)).

Section WithServices.

Variable svc : Services.

(** ** POST /:id/match *)

Inductive MatchAction := matched | generate.

(** The body of the loop over the scenes: the scene after the iteration
    and the action reported for it. *)
Definition matchScene (id : string) (scene : Scene.t)
  : M (Scene.t * MatchAction) :=
  tryCatch
    (matches <- Matcher.matchSceneToAssets svc scene ;;
     match Matcher.getBestMatch matches with
     | Some bestMatch =>
         insertSceneMatch
           (Db.mkSceneMatchRow id (Scene.sceneId scene)
              (AssetMatch.assetId bestMatch) (AssetMatch.filepath bestMatch)
              existing (AssetMatch.compositeScore bestMatch)
              (AssetMatch.needsReview bestMatch)) ;;;
         ret (Scene.setResolution scene
                (Some (AssetMatch.assetId bestMatch))
                (Some (AssetMatch.compositeScore bestMatch))
                (Some existing) (AssetMatch.needsReview bestMatch),
              matched)
     | None =>
         (* mark for generation *)
         ret (Scene.setResolution scene (Scene.matchedAssetId scene)
                (Scene.matchScore scene) (Some generated)
                (Scene.needsReview scene),
              generate)
     end)
    (fun _ => ret (scene, generate)).

Fixpoint matchScenes (id : string) (scenes : list Scene.t)
  : M (list (Scene.t * MatchAction)) :=
  match scenes with
  | [] => ret []
  | scene :: rest =>
      r <- matchScene id scene ;;
      rs <- matchScenes id rest ;;
      ret (r :: rs)
  end.

(** The route answers with an HTTP status (the JSON body is left out). *)
Definition matchRoute (id : string) : M nat :=
  result <- selectStoryboard id ;;
  match result with
  | None => ret 404%nat
  | Some row =>
      results <- matchScenes id (Db.sb_scenesJson row) ;;
      updateStoryboardScenes id (map fst results) ;;;
      ret 200%nat
  end.

(** ** POST /:storyboardId/scenes/:sceneId/override *)

(** [scenes[sceneIndex].x = ...] at
    [sceneIndex = scenes.findIndex(s => s.sceneId === sceneId)];
    [None] when the index is [-1]. *)
Fixpoint overrideScene (scenes : list Scene.t) (sceneId assetId : string)
  : option (list Scene.t) :=
  match scenes with
  | [] => None
  | s :: rest =>
      if String.eqb (Scene.sceneId s) sceneId
      then Some (Scene.setResolution s (Some assetId) (Some 1.0)
                   (Some manual) false :: rest)
      else option_map (cons s) (overrideScene rest sceneId assetId)
  end.

Definition overrideRoute (storyboardId sceneId : string)
    (body_assetId body_assetPath : option string) : M nat :=
  match body_assetId, body_assetPath with
  | Some assetId, Some assetPath =>
      if negb (JS.truthy body_assetId) || negb (JS.truthy body_assetPath)
      then ret 400%nat
      else
        result <- selectStoryboard storyboardId ;;
        match result with
        | None => ret 404%nat
        | Some row =>
            match overrideScene (Db.sb_scenesJson row) sceneId assetId with
            | None => ret 404%nat
            | Some scenes =>
                insertSceneMatch
                  (Db.mkSceneMatchRow storyboardId sceneId assetId assetPath
                     manual 1.0 false) ;;;
                updateStoryboardScenes storyboardId scenes ;;;
                ret 200%nat
            end
        end
  | _, _ => ret 400%nat
  end.

(** ** Background job processor *)

(** [title.replace(/[^a-zA-Z0-9]/g, '_')]. *)
Definition isAlphaNum (c : ascii) : bool :=
  let n := nat_of_ascii c in
  ((48 <=? n)%nat && (n <=? 57)%nat)
  || ((65 <=? n)%nat && (n <=? 90)%nat)
  || ((97 <=? n)%nat && (n <=? 122)%nat).

Fixpoint sanitize (s : string) : string :=
  match s with
  | EmptyString => EmptyString
  | String c r => String (if isAlphaNum c then c else "_"%char) (sanitize r)
  end.

Definition outputPathFor (title jobId : string) : string :=
  (CONFIG.OUTPUT_DIR ++ "/" ++ sanitize title ++ "_" ++ jobId ++ ".mp4")%string.

(** "Check if already matched": the asset reused for the scene, if the
    scene is an [existing] match with a row in [scene_matches]. *)
Definition reuseMatched (scene : Scene.t) : M (option ResolvedAsset.t) :=
  match Scene.matchedAssetId scene, Scene.assetSource scene with
  | Some matchedAssetId, Some existing =>
      if String.eqb matchedAssetId "" then ret None
      else
        matchResult <- selectSceneMatch (Scene.sceneId scene) ;;
        match matchResult with
        | Some row =>
            ret (Some (ResolvedAsset.mk (Scene.sceneId scene) matchedAssetId
                         (Db.sm_assetPath row) existing
                         (JS.numOr (Scene.matchScore scene) 1.0)
                         (Scene.needsReview scene)))
        | None => ret None
        end
  | _, _ => ret None
  end.

(** The body of the loop over the scenes of [processProductionJob]: the
    scene after the iteration and the asset pushed on [resolvedAssets]. *)
Definition resolveScene (jobId storyboardId : string) (totalScenes i : nat)
    (scene : Scene.t) : M (Scene.t * ResolvedAsset.t) :=
  let progress := 0.1 + 0.7 * (INR i / INR totalScenes) in
  reused <- reuseMatched scene ;;
  match reused with
  | Some asset =>
      updateJobStatus jobId matching progress None ;;;
      ret (scene, asset)
  | None =>
      (* need to generate *)
      updateJobStatus jobId generating progress None ;;;
      g <- generateVideoForScene svc scene ;;
      suffix <- nanoid svc ;;
      let assetId := ("gen_" ++ suffix)%string in
      insertGeneratedAsset
        (Db.mkGeneratedAssetRow assetId jobId (Scene.sceneId scene)
           storyboardId (gen_prompt g) (gen_jobId g) (gen_filepath g)
           false) ;;;
      let scene' :=
        Scene.setResolution scene (Some assetId) (Some 1.0) (Some generated)
          (Scene.needsReview scene) in
      tryCatch
        (catalogGeneratedAsset svc scene' (gen_prompt g) (gen_filepath g)
           storyboardId ;;;
         markCatalogued assetId)
        (fun _ => ret tt) ;;;
      ret (scene',
           ResolvedAsset.mk (Scene.sceneId scene) assetId (gen_filepath g)
             generated 1.0 false)
  end.

Fixpoint resolveScenes (jobId storyboardId : string) (totalScenes i : nat)
    (scenes : list Scene.t) : M (list (Scene.t * ResolvedAsset.t)) :=
  match scenes with
  | [] => ret []
  | scene :: rest =>
      r <- resolveScene jobId storyboardId totalScenes i scene ;;
      rs <- resolveScenes jobId storyboardId totalScenes (S i) rest ;;
      ret (r :: rs)
  end.

(** [assembleStoryboard]: build the command, then run ffmpeg on it. *)
Definition assembleStoryboard (storyboard : Storyboard.t)
    (assets : list ResolvedAsset.t) (outputPath : string) : M unit :=
  cmd <-
    liftResult (Assembler.assembleStoryboard storyboard assets outputPath) ;;
  runFfmpeg svc cmd.

Definition processProductionJob (jobId storyboardId : string) : M unit :=
  tryCatch
    (updateJobStatus jobId matching 0.1 None ;;;
     result <- selectStoryboard storyboardId ;;
     match result with
     | None => throw "Storyboard not found"
     | Some row =>
         let scenes := Db.sb_scenesJson row in
         resolved <-
           resolveScenes jobId storyboardId (List.length scenes) 0 scenes ;;
         (* [storyboard.scenes] is the array the loop has updated *)
         let storyboard :=
           Storyboard.mk (Db.sb_storyboardId row) (Db.sb_title row)
             (map fst resolved)
             (Db.sb_outputWidth row, Db.sb_outputHeight row)
             (Db.sb_outputFps row) in
         updateStoryboardScenes storyboardId (map fst resolved) ;;;
         updateJobStatus jobId assembling 0.85 None ;;;
         let outputPath := outputPathFor (Db.sb_title row) jobId in
         assembleStoryboard storyboard (map snd resolved) outputPath ;;;
         updateJobStatus jobId completed 1.0 (Some outputPath)
     end)
    (fun message => failJob jobId message).

End WithServices.

End Routes.

(* ------------------------------------------------------------------ *)
(** * Sample data *)

Module Samples.

Local Open Scope string_scope.
Local Open Scope R_scope.

(** An unresolved scene, as the create route stores it. *)
Definition scene0 : Scene.t :=
  Scene.mk "sc_1" 1 5 "Sunrise over mountains" ["sunrise"; "mountains"]
    None cut cut None None None false.

Definition embedding0 : list R := [1].

(** A full-HD video without tags, style, use case or duration. *)
Definition assetPlain : LanceDBAsset.t :=
  LanceDBAsset.mk "a80" "a80.mp4" "/media/a80.mp4" "LIBRARY" "video" None
    None None None (Some 1920) (Some 1080) None None (Some [1]).

(** A 1440x1080 video whose tags and use case repeat the scene's words. *)
Definition assetClose : LanceDBAsset.t :=
  LanceDBAsset.mk "a95" "a95.mp4" "/media/a95.mp4" "LIBRARY" "video" None
    (Some ["Sunrise"; "Mountains"]) None (Some "sunrise mountains")
    (Some 1440) (Some 1080) None None (Some [1]).

(** The same asset returned without its vector. *)
Definition assetNoVector : LanceDBAsset.t :=
  LanceDBAsset.mk "a95" "a95.mp4" "/media/a95.mp4" "LIBRARY" "video" None
    (Some ["Sunrise"; "Mountains"]) None (Some "sunrise mountains")
    (Some 1440) (Some 1080) None None None.

Definition matchPlain : AssetMatch.t :=
  AssetMatch.mk "a80" "/media/a80.mp4" 1 0.5 0.5 1.0 0.5 0.80 true.

Definition matchClose : AssetMatch.t :=
  AssetMatch.mk "a95" "/media/a95.mp4" 1 1 1 0.75 0.5 0.95 false.

(** Collaborators that always answer: the search returns the three sample
    assets, generation and ffmpeg succeed. *)
Definition services0 : Effects.Services :=
  Effects.mkServices
    (fun _ => Ok embedding0)
    (fun _ _ _ => Ok [assetPlain; assetNoVector; assetClose])
    (fun scene =>
       Ok (Effects.mkGeneration "ltx_1"
             ("/Volumes/STUDIO/VIDEO/gen_" ++ Scene.sceneId scene ++ ".mp4")
             (Scene.description scene)))
    (fun _ _ _ _ => Ok "c0ffee")
    (fun _ => Ok tt)
    (fun _ => "Ab12Cd34").

(** A database with one storyboard of one scene and one pending job. *)
Definition world0 : Effects.World :=
  Effects.mkWorld
    (Db.mk
       [Db.mkStoryboardRow "sb_1" "Morning" [scene0] 1920 1080 30]
       [Db.mkJobRow "job_1" "sb_1" pending 0 None None]
       [] [])
    [] 0.

(** Collaborators that always answer, with a supply of identifiers that
    gives a new one at each of the first draws. *)
Definition servicesFresh : Effects.Services :=
  Effects.mkServices
    (Effects.svc_generateEmbedding services0)
    (Effects.svc_searchLanceDB services0)
    (Effects.svc_generateVideoForScene services0)
    (Effects.svc_catalogGeneratedAsset services0)
    (Effects.svc_ffmpeg services0)
    (fun n =>
       match n with
       | 0%nat => "Ab12Cd34"
       | 1%nat => "Ef56Gh78"
       | 2%nat => "Ij90Kl12"
       | _ => "Zz99Zz99"
       end).

(** Three scenes with [transitionOut] fade, cut, cut and durations 4, 6
    and 5 seconds, and one resolved asset for each. *)
Definition sceneA : Scene.t :=
  Scene.mk "sc_a" 1 4 "Opening" [] None cut fade None None None false.
Definition sceneB : Scene.t :=
  Scene.mk "sc_b" 2 6 "Middle" [] None cut cut None None None false.
Definition sceneC : Scene.t :=
  Scene.mk "sc_c" 3 5 "Ending" [] None cut cut None None None false.

Definition resolvedA : ResolvedAsset.t :=
  ResolvedAsset.mk "sc_a" "a1" "/media/a1.mp4" existing 0.92 false.
Definition resolvedB : ResolvedAsset.t :=
  ResolvedAsset.mk "sc_b" "a2" "/media/a2.mp4" existing 0.85 true.
Definition resolvedC : ResolvedAsset.t :=
  ResolvedAsset.mk "sc_c" "a3" "/media/a3.mp4" manual 1.0 false.

Definition options0 : Assembler.AssemblyOptions :=
  Assembler.mkOptions "/Volumes/STUDIO/VIDEO/out.mp4" (Some 1920)
    (Some 1080) (Some 30).

(** A storyboard of two scenes joined by cuts only. *)
Definition storyboardCuts : Storyboard.t :=
  Storyboard.mk "sb_2" "Cuts" [sceneB; sceneC] (1920, 1080) 30.

(** A storyboard with the transitions fade, cut. *)
Definition storyboardFadeCut : Storyboard.t :=
  Storyboard.mk "sb_3" "Fades" [sceneA; sceneB; sceneC] (1920, 1080) 30.

(** A database with one storyboard of two unresolved scenes joined by a
    cut, one pending job, and one asset generated earlier. *)
Definition rowTwoScenes : Db.StoryboardRow :=
  Db.mkStoryboardRow "sb_2" "Cuts" [sceneB; sceneC] 1920 1080 30.

Definition worldTwoScenes : Effects.World :=
  Effects.mkWorld
    (Db.mk
       [rowTwoScenes]
       [Db.mkJobRow "job_2" "sb_2" pending 0 None None]
       []
       [Db.mkGeneratedAssetRow "gen_Qr34St56" "job_0" "sc_a" "sb_2" "Opening"
          "ltx_0" "/Volumes/STUDIO/VIDEO/gen_sc_a.mp4" true])
    [] 0.

(** [scene0] after the operator has overridden it with asset
    ["asset_42"], and the database after that override. *)
Definition sceneManual : Scene.t :=
  Scene.setResolution scene0 (Some "asset_42") (Some 1.0) (Some manual) false.

Definition worldManual : Effects.World :=
  Effects.mkWorld
    (Db.mk
       [Db.mkStoryboardRow "sb_1" "Morning" [sceneManual] 1920 1080 30]
       [Db.mkJobRow "job_1" "sb_1" pending 0 None None]
       [Db.mkSceneMatchRow "sb_1" "sc_1" "asset_42" "/media/a42.mp4" manual
          1.0 false]
       [])
    [] 0.

(** [scene0] after the match route has accepted [assetClose] for it, and
    the database after that match. *)
Definition sceneMatched : Scene.t :=
  Scene.setResolution scene0 (Some "a95") (Some 0.95) (Some existing) false.

Definition worldMatched : Effects.World :=
  Effects.mkWorld
    (Db.mk
       [Db.mkStoryboardRow "sb_1" "Morning" [sceneMatched] 1920 1080 30]
       [Db.mkJobRow "job_1" "sb_1" pending 0 None None]
       [Db.mkSceneMatchRow "sb_1" "sc_1" "a95" "/media/a95.mp4" existing
          0.95 false]
       [])
    [Effects.CallEmbedding (Matcher.searchText scene0);
     Effects.CallSearch 20 (Matcher.mediaTypeFor scene0)]
    0.

End Samples.

(* ------------------------------------------------------------------ *)
(** * Vocabulary of the statements *)

Module Spec.

Local Open Scope R_scope.

(** Dot product of the paired components and squared Euclidean norm. *)
Fixpoint dot (a b : list R) : R :=
  match a, b with
  | x :: a', y :: b' => x * y + dot a' b'
  | _, _ => 0
  end.

Definition squaredNorm (a : list R) : R :=
  fold_right (fun x s => x * x + s) 0 a.

(** A vector with at least one component different from [0]. *)
Definition nonzero (a : list R) : Prop := Exists (fun x => x <> 0) a.

(** Membership of the closed unit interval. *)
Definition unit_interval (x : R) : Prop := 0 <= x <= 1.

(** A candidate returned with its embedding. *)
Definition hasVector (asset : LanceDBAsset.t) : bool :=
  match LanceDBAsset.vector asset with
  | Some _ => true
  | None => false
  end.

(** The value of the planner's [offset] once the iteration for junction
    [i] (between clips [i - 1] and [i]) has computed it, for [n] assets. *)
Definition offsetAtJunction (n : nat) (scenes : list Scene.t)
    (norm : Assembler.Normalize) (i : nat) : R :=
  Assembler.offset
    (fold_left (Assembler.chainStep n scenes) (seq 1 i)
       (Assembler.mkChain (Assembler.Scaled 0) 0
          (Assembler.scaleParts n norm))).

(** Total of [scenes[k]?.duration || 5] over the first [i] scenes. *)
Fixpoint durationOfFirst (scenes : list Scene.t) (i : nat) : R :=
  match i with
  | O => 0
  | S k => durationOfFirst scenes k + Assembler.sceneDuration scenes k
  end.

(** A list of junction operations none of which delivers [[outv]]. *)
Definition innerJunctions (js : list Assembler.FilterPart) : Prop :=
  Forall
    (fun p =>
       Assembler.isScale p = false
       /\ Assembler.isOutv (Assembler.outLabel p) = false)
    js.

(** A scene the production job reuses: an [existing] match with an asset
    id and at least one row of [scene_matches] for the scene. *)
Definition reusable (table : list Db.SceneMatchRow) (scene : Scene.t) : Prop :=
  exists aid row,
    Scene.matchedAssetId scene = Some aid
    /\ aid <> ""%string
    /\ Scene.assetSource scene = Some existing
    /\ find (fun r => String.eqb (Db.sm_sceneId r) (Scene.sceneId scene))
         table = Some row.

End Spec.

(* ------------------------------------------------------------------ *)
(** * Vocabulary of the further statements: matcher *)

Module MatcherSpec.

Local Open Scope R_scope.


End MatcherSpec.

(* ------------------------------------------------------------------ *)
(** * More sample data *)

Module Cases.

Local Open Scope string_scope.
Local Open Scope R_scope.

(** Collaborators whose embedding service is unreachable. *)
Definition servicesNoEmbedding : Effects.Services :=
  Effects.mkServices
    (fun _ => Throw "fetch failed")
    (Effects.svc_searchLanceDB Samples.services0)
    (Effects.svc_generateVideoForScene Samples.services0)
    (Effects.svc_catalogGeneratedAsset Samples.services0)
    (Effects.svc_ffmpeg Samples.services0)
    (Effects.svc_nanoid Samples.services0).

(** Collaborators whose generator fails every request. *)
Definition servicesNoGenerator : Effects.Services :=
  Effects.mkServices
    (Effects.svc_generateEmbedding Samples.services0)
    (Effects.svc_searchLanceDB Samples.services0)
    (fun _ => Throw "LTX-2 generation failed: out of memory")
    (Effects.svc_catalogGeneratedAsset Samples.services0)
    (Effects.svc_ffmpeg Samples.services0)
    (Effects.svc_nanoid Samples.services0).

End Cases.

(* ------------------------------------------------------------------ *)
(** * Vocabulary of the further statements: assembler *)

Module AssemblerSpec.

Import Assembler.
Local Open Scope R_scope.

(** The label on which junction [i] of [n - 1] delivers its result. *)
Definition junctionOut (n : nat) (scenes : list Scene.t) (i : nat) : Label :=
  if (i =? n - 1)%nat then Outv
  else
    match sceneTransitionOut scenes (i - 1) with
    | cut => ConcatOut i
    | _ => XfadeOut i
    end.

(** The label junction [i] takes its first input from: the first scaled
    clip, or the result of the junction before. *)
Definition junctionIn (n : nat) (scenes : list Scene.t) (i : nat) : Label :=
  if (i =? 1)%nat then Scaled 0 else junctionOut n scenes (i - 1).

(** Junction [i], between clip [i - 1] and clip [i], written without the
    loop: a two-input [concat] after a [cut]; otherwise an [xfade] of the
    fixed duration that starts at the total duration of the clips before
    it less [i] transition durations. *)
Definition junctionPart (n : nat) (scenes : list Scene.t) (i : nat)
  : FilterPart :=
  match sceneTransitionOut scenes (i - 1) with
  | cut =>
      ConcatFilter [junctionIn n scenes i; Scaled i] 2
        (junctionOut n scenes i)
  | t =>
      XfadeFilter (junctionIn n scenes i) (Scaled i) (xfadeName t)
        transitionDuration
        (Spec.durationOfFirst scenes i - INR i * transitionDuration)
        (junctionOut n scenes i)
  end.

Definition Label_eqb (a b : Label) : bool :=
  match a, b with
  | InputVideo i, InputVideo j => (i =? j)%nat
  | Scaled i, Scaled j => (i =? j)%nat
  | XfadeOut i, XfadeOut j => (i =? j)%nat
  | ConcatOut i, ConcatOut j => (i =? j)%nat
  | Outv, Outv => true
  | NoLabel, NoLabel => true
  | _, _ => false
  end.

(** The streams a part reads. *)
Definition inputsOf (p : FilterPart) : list Label :=
  match p with
  | ScaleFilter i _ _ => [i]
  | XfadeFilter i1 i2 _ _ _ _ => [i1; i2]
  | ConcatFilter ins _ _ => ins
  end.

(** Take one stream out of the streams available; [None] when it is not
    there. *)
Fixpoint consume (l : Label) (available : list Label) : option (list Label) :=
  match available with
  | [] => None
  | x :: rest =>
      if Label_eqb l x then Some rest
      else option_map (cons x) (consume l rest)
  end.

Fixpoint consumeAll (ls : list Label) (available : list Label)
  : option (list Label) :=
  match ls with
  | [] => Some available
  | l :: rest =>
      match consume l available with
      | Some available' => consumeAll rest available'
      | None => None
      end
  end.

(** Connect the parts of a filter graph in order: each part takes its
    inputs out of the streams available and adds its output to them.  The
    result is the streams left unconnected, or [None] when a part reads a
    stream that is not available (not yet produced, or already taken). *)
Fixpoint connect (available : list Label) (parts : list FilterPart)
  : option (list Label) :=
  match parts with
  | [] => Some available
  | p :: rest =>
      match consumeAll (inputsOf p) available with
      | Some available' => connect (available' ++ [outLabel p]) rest
      | None => None
      end
  end.

End AssemblerSpec.

(* ------------------------------------------------------------------ *)
(** * Vocabulary of the further statements: routes *)

Module RoutesSpec.

Local Open Scope R_scope.

(** Two versions of a scene that differ at most in the four resolution
    fields. *)
Definition sameShot (s s' : Scene.t) : Prop :=
  Scene.sceneId s' = Scene.sceneId s
  /\ Scene.sequence s' = Scene.sequence s
  /\ Scene.duration s' = Scene.duration s
  /\ Scene.description s' = Scene.description s
  /\ Scene.visualKeywords s' = Scene.visualKeywords s
  /\ Scene.styleHints s' = Scene.styleHints s
  /\ Scene.transitionIn s' = Scene.transitionIn s
  /\ Scene.transitionOut s' = Scene.transitionOut s.

(** The job table after some updates of job [jobId]: the same rows in the
    same order with the same keys, and the rows of other jobs as they
    were. *)
Definition onlyJobTouched (jobId : string)
    (before after : list Db.ProductionJobRow) : Prop :=
  Forall2
    (fun r r' =>
       Db.job_jobId r' = Db.job_jobId r
       /\ Db.job_storyboardId r' = Db.job_storyboardId r
       /\ (Db.job_jobId r <> jobId -> r' = r))
    before after.

(** The storyboard table after some updates of storyboard [id]: rows of
    other storyboards as they were, and of the rows of [id] at most the
    scenes replaced. *)
Definition onlyStoryboardTouched (id : string)
    (before after : list Db.StoryboardRow) : Prop :=
  Forall2
    (fun r r' =>
       Db.sb_storyboardId r' = Db.sb_storyboardId r
       /\ Db.sb_title r' = Db.sb_title r
       /\ Db.sb_outputWidth r' = Db.sb_outputWidth r
       /\ Db.sb_outputHeight r' = Db.sb_outputHeight r
       /\ Db.sb_outputFps r' = Db.sb_outputFps r
       /\ (Db.sb_storyboardId r <> id -> r' = r))
    before after.


(** A scene that carries a resolution the assembler can use. *)
Definition resolved (s : Scene.t) : Prop :=
  (Scene.assetSource s = Some existing
   \/ Scene.assetSource s = Some generated)
  /\ exists aid, Scene.matchedAssetId s = Some aid.

(** The launches of ffmpeg in a log of calls. *)
Definition isFfmpeg (c : Effects.Call) : bool :=
  match c with
  | Effects.CallFfmpeg _ => true
  | _ => false
  end.

Definition ffmpegRuns (l : list Effects.Call) : nat :=
  List.length (filter isFfmpeg l).

(** The stages of [processProductionJob] for a storyboard row that was
    found: the loop over the scenes run after the first status update, the
    storyboard handed to the assembler, and the state in which ffmpeg is
    launched. *)
Definition afterLoop (svc : Effects.Services) (jobId storyboardId : string)
    (row : Db.StoryboardRow) (w : Effects.World)
  : Result (list (Scene.t * ResolvedAsset.t)) * Effects.World :=
  Routes.resolveScenes svc jobId storyboardId
    (List.length (Db.sb_scenesJson row)) 0 (Db.sb_scenesJson row)
    (snd (Routes.updateJobStatus jobId matching 0.1 None w)).

Definition storyboardOf (row : Db.StoryboardRow)
    (resolved : list (Scene.t * ResolvedAsset.t)) : Storyboard.t :=
  Storyboard.mk (Db.sb_storyboardId row) (Db.sb_title row)
    (map fst resolved)
    (Db.sb_outputWidth row, Db.sb_outputHeight row)
    (Db.sb_outputFps row).

Definition beforeAssembly (jobId storyboardId : string)
    (resolved : list (Scene.t * ResolvedAsset.t)) (w : Effects.World)
  : Effects.World :=
  snd (Routes.updateJobStatus jobId assembling 0.85 None
         (snd (Routes.updateStoryboardScenes storyboardId (map fst resolved)
                 w))).

Definition ffmpegLaunched (jobId storyboardId : string)
    (resolved : list (Scene.t * ResolvedAsset.t))
    (cmd : Assembler.FfmpegCommand) (w : Effects.World) : Effects.World :=
  snd (Effects.logCall (Effects.CallFfmpeg cmd)
         (beforeAssembly jobId storyboardId resolved w)).

(** What the loop of the job guarantees about a scene and the pair it
    produced for it. *)
Definition resolvedFrom (scene : Scene.t) (r : Scene.t * ResolvedAsset.t)
  : Prop :=
  sameShot scene (fst r)
  /\ resolved (fst r)
  /\ ResolvedAsset.sceneId (snd r) = Scene.sceneId scene
  /\ Scene.matchedAssetId (fst r) = Some (ResolvedAsset.assetId (snd r))
  /\ Scene.assetSource (fst r) = Some (ResolvedAsset.source (snd r)).

(** The row the match route records for a scene and its best match, and
    the scene as it stores it. *)
Definition matchRow (id : string) (scene : Scene.t) (best : AssetMatch.t)
  : Db.SceneMatchRow :=
  Db.mkSceneMatchRow id (Scene.sceneId scene) (AssetMatch.assetId best)
    (AssetMatch.filepath best) existing (AssetMatch.compositeScore best)
    (AssetMatch.needsReview best).

Definition matchedWith (scene : Scene.t) (best : AssetMatch.t) : Scene.t :=
  Scene.setResolution scene (Some (AssetMatch.assetId best))
    (Some (AssetMatch.compositeScore best)) (Some existing)
    (AssetMatch.needsReview best).

Definition markedForGeneration (scene : Scene.t) : Scene.t :=
  Scene.setResolution scene (Scene.matchedAssetId scene)
    (Scene.matchScore scene) (Some generated) (Scene.needsReview scene).

(** A row of [scene_matches] written by a match of storyboard [id] for one
    of [scenes]. *)
Definition acceptedRow (id : string) (scenes : list Scene.t)
    (row : Db.SceneMatchRow) : Prop :=
  exists scene best,
    In scene scenes
    /\ row = matchRow id scene best
    /\ CONFIG.THRESHOLDS.compositeMinimum <= AssetMatch.compositeScore best
    /\ CONFIG.THRESHOLDS.semanticMinimum <= AssetMatch.semanticScore best
    /\ AssetMatch.needsReview best
       = Matcher.reviewFlag (AssetMatch.compositeScore best).

(** The asset id the production job builds from the [n]-th identifier of
    the supply, and the asset ids the [generated_assets] table holds. *)
Definition genId (svc : Effects.Services) (n : nat) : string :=
  ("gen_" ++ Effects.svc_nanoid svc n)%string.

Definition takenIds (w : Effects.World) : list string :=
  map Db.ga_assetId (Db.generatedAssets (Effects.db w)).

(** The ids are new: none of them is in [taken] and no two of them are
    equal. *)
Fixpoint freshb (taken ids : list string) : bool :=
  match ids with
  | [] => true
  | id :: rest =>
      negb (existsb (fun t => String.eqb t id) taken)
      && freshb (taken ++ [id]) rest
  end.

(** The next [n] asset ids a job would draw in [w] are new. *)
Definition idsFresh (svc : Effects.Services) (w : Effects.World) (n : nat)
  : bool :=
  freshb (takenIds w) (map (genId svc) (seq (Effects.idsDrawn w) n)).

(** The scene ids of the requests made to the generator, oldest first. *)
Definition generateCalls (l : list Effects.Call) : list string :=
  flat_map
    (fun c =>
       match c with
       | Effects.CallGenerate sceneId => [sceneId]
       | _ => []
       end)
    l.

(** The "Check if already matched" of the job finds an asset to reuse for
    the scene. *)
Definition reused (w : Effects.World) (scene : Scene.t) : bool :=
  match fst (Routes.reuseMatched scene w) with
  | Ok (Some _) => true
  | _ => false
  end.

(** The scenes a job has to ask the generator for. *)
Definition toGenerate (w : Effects.World) (scenes : list Scene.t)
  : list Scene.t :=
  filter (fun scene => negb (reused w scene)) scenes.

(** What the match route stores and reports for a scene. *)
Definition matchOutcome (scene : Scene.t)
    (r : Scene.t * Routes.MatchAction) : Prop :=
  (snd r = Routes.matched
   /\ exists best,
        fst r = matchedWith scene best
        /\ CONFIG.THRESHOLDS.compositeMinimum
           <= AssetMatch.compositeScore best)
  \/ (snd r = Routes.generate
      /\ (fst r = scene \/ fst r = markedForGeneration scene)).

End RoutesSpec.

(* ------------------------------------------------------------------ *)
(** * services/generator.ts *)

Module Generator.

Local Open Scope Z_scope.

(** [ToInt32]: the value of a number as a 32-bit signed integer, as the
    bitwise operators of JavaScript take and return it. *)
Definition toInt32 (z : Z) : Z := (z + 2 ^ 31) mod 2 ^ 32 - 2 ^ 31.

(** The body of the loop of [hashCode]:
    [hash = ((hash << 5) - hash) + char; hash = hash & hash]. *)
Definition hashStep (hash : Z) (c : ascii) : Z :=
  let char := Z.of_nat (nat_of_ascii c) in
  let hash1 := toInt32 (Z.shiftl (toInt32 hash) 5) - hash + char in
  Z.land (toInt32 hash1) (toInt32 hash1).

Fixpoint hashLoop (hash : Z) (str : string) : Z :=
  match str with
  | EmptyString => hash
  | String c rest => hashLoop (hashStep hash c) rest
  end.

Definition hashCode (str : string) : Z := Z.abs (hashLoop 0 str).

(** [LTX2StatusResponse]. *)
Inductive LTX2Status :=
| ltx_pending | ltx_processing | ltx_completed | ltx_failed.

Record LTX2StatusResponse := mkStatusResponse {
  status : LTX2Status;
  output_url : option string;
  error : option string
}.

(** The errors [pollUntilComplete] ends with: the two it throws itself and
    a rejection of the status request. *)
Inductive PollError :=
| GenerationFailed (message : string)
| TimedOut (timeoutMs : Z)
| RequestRejected (message : string).

(** What one run of [pollUntilComplete] meets: the clock when it reads
    [startTime], the milliseconds that pass until the first test of the
    loop, the outcome of the k-th status request, the milliseconds that
    request took, and the milliseconds by which the k-th timer fired
    late. *)
Record PollEnv := mkPollEnv {
  startClock : Z;
  startDelay : Z;
  answer : nat -> Result LTX2StatusResponse;
  latency : nat -> Z;
  overshoot : nat -> Z
}.

Definition isCompleted (s : LTX2Status) : bool :=
  match s with ltx_completed => true | _ => false end.

Definition isFailed (s : LTX2Status) : bool :=
  match s with ltx_failed => true | _ => false end.

(** [status.status === 'completed' && status.output_url]: the URL when the
    test holds. *)
Definition completedUrl (st : LTX2StatusResponse) : option string :=
  if isCompleted (status st) && JS.truthy (output_url st)
  then output_url st else None.

(** [`LTX-2 generation failed: ${status.error || 'Unknown error'}`]. *)
Definition failureMessage (st : LTX2StatusResponse) : string :=
  ("LTX-2 generation failed: "
   ++ (if JS.truthy (error st)
       then match error st with Some e => e | None => "" end
       else "Unknown error"))%string.

(** The [while] loop of [pollUntilComplete] from the k-th status request
    on, [now] being the clock at the test of the loop; the result carries
    the number of status requests made.  [None]: [fuel] iterations did not
    finish the loop. *)
Fixpoint pollLoop (fuel : nat) (env : PollEnv) (timeoutMs pollIntervalMs : Z)
    (startTime now : Z) (k : nat) : option ((PollError + string) * nat) :=
  match fuel with
  | O => None
  | S fuel' =>
      if now - startTime <? timeoutMs then
        match answer env k with
        | Throw msg => Some (inl (RequestRejected msg), S k)
        | Ok st =>
            match completedUrl st with
            | Some url => Some (inr url, S k)
            | None =>
                if isFailed (status st) then
                  Some (inl (GenerationFailed (failureMessage st)), S k)
                else
                  pollLoop fuel' env timeoutMs pollIntervalMs startTime
                    (now + latency env k + (pollIntervalMs + overshoot env k))
                    (S k)
            end
        end
      else Some (inl (TimedOut timeoutMs), k)
  end.

Definition pollUntilComplete (fuel : nat) (env : PollEnv)
    (timeoutMs pollIntervalMs : Z) : option ((PollError + string) * nat) :=
  pollLoop fuel env timeoutMs pollIntervalMs (startClock env)
    (startClock env + startDelay env) 0.

(** The default arguments of [pollUntilComplete]. *)
Definition defaultTimeoutMs : Z := 600000.
Definition defaultPollIntervalMs : Z := 5000.

End Generator.

(** Vocabulary of the statements about the generator. *)
Module GeneratorSpec.

Local Open Scope Z_scope.

(** The polynomial in 31 of the character codes of a string, started from
    [acc]. *)
Fixpoint poly31 (acc : Z) (str : string) : Z :=
  match str with
  | EmptyString => acc
  | String c rest => poly31 (31 * acc + Z.of_nat (nat_of_ascii c)) rest
  end.

(** A clock that does not run backwards: the first test of the loop is
    not before [startTime] was read, requests take no negative time, and
    timers do not fire early (each wait lasts at least [pollIntervalMs]). *)
Definition clockAdvances (env : Generator.PollEnv) : Prop :=
  0 <= Generator.startDelay env
  /\ forall k, 0 <= Generator.latency env k /\ 0 <= Generator.overshoot env k.

(** The number of status requests after which the time limit is reached
    whatever the answers. *)
Definition maxChecks (timeoutMs pollIntervalMs : Z) : nat :=
  Z.to_nat ((timeoutMs + pollIntervalMs - 1) / pollIntervalMs).

(** An answer after which the loop goes on polling. *)
Definition keepsPolling (r : Result Generator.LTX2StatusResponse) : Prop :=
  exists st,
    r = Ok st
    /\ Generator.isFailed (Generator.status st) = false
    /\ (Generator.isCompleted (Generator.status st)
        && JS.truthy (Generator.output_url st) = false)%bool.

(** How a run that made [n] status requests ended, given the answers. *)
Definition endedBy (env : Generator.PollEnv) (timeoutMs : Z)
    (outcome : Generator.PollError + string) (n : nat) : Prop :=
  match outcome with
  | inr url =>
      exists m st,
        n = S m
        /\ Generator.answer env m = Ok st
        /\ Generator.status st = Generator.ltx_completed
        /\ Generator.output_url st = Some url
        /\ url <> ""%string
  | inl (Generator.GenerationFailed message) =>
      exists m st,
        n = S m
        /\ Generator.answer env m = Ok st
        /\ Generator.status st = Generator.ltx_failed
        /\ message = Generator.failureMessage st
  | inl (Generator.RequestRejected message) =>
      exists m, n = S m /\ Generator.answer env m = Throw message
  | inl (Generator.TimedOut t) =>
      t = timeoutMs
      /\ (n = 0%nat \/ keepsPolling (Generator.answer env (Nat.pred n)))
  end.

(** A service that answers processing twice and then completed with a
    URL. *)
Definition completesAtThird : Generator.PollEnv :=
  Generator.mkPollEnv 1000 0
    (fun k =>
       if (k <? 2)%nat
       then Ok (Generator.mkStatusResponse Generator.ltx_processing None None)
       else Ok (Generator.mkStatusResponse Generator.ltx_completed
                  (Some "/outputs/ltx_1.mp4"%string) None))
    (fun _ => 20) (fun _ => 1).

(** A service that reports every job completed but never gives a URL. *)
Definition completedWithoutUrl (start : Z) : Generator.PollEnv :=
  Generator.mkPollEnv start 0
    (fun _ => Ok (Generator.mkStatusResponse Generator.ltx_completed None
                    None))
    (fun _ => 20) (fun _ => 1).

End GeneratorSpec.

(* ------------------------------------------------------------------ *)
(** * routes/jobs.ts *)

Module Jobs.

Import Effects.
Local Open Scope effects_scope.
Local Open Scope string_scope.

(** [db.select().from(productionJobs).where(eq(jobId, id)).limit(1)]. *)
Definition selectJob (jobId : string) : M (option Db.ProductionJobRow) :=
  d <- readDb ;;
  ret (find (fun r => String.eqb (Db.job_jobId r) jobId)
         (Db.productionJobs d)).

(** The body of the answer of GET /:jobId (timestamps left out). *)
Record JobView := mkJobView {
  view_jobId : string;
  view_storyboardId : string;
  view_status : JobStatus;
  view_progress : R;
  view_outputUrl : option string;
  view_error : option string
}.

Definition getRoute (jobId : string) : M (nat * option JobView) :=
  result <- selectJob jobId ;;
  match result with
  | None => ret (404%nat, None)
  | Some job =>
      ret (200%nat,
           Some (mkJobView (Db.job_jobId job) (Db.job_storyboardId job)
                   (Db.job_status job) (Db.job_progress job)
                   (if JS.truthy (Db.job_outputPath job)
                    then Some ("/api/v1/jobs/" ++ jobId ++ "/download")
                    else None)
                   (Db.job_error job)))
  end.




Definition isFinished (s : JobStatus) : bool :=
  match s with completed | failed => true | _ => false end.

(** DELETE /:jobId. *)
Definition cancelRoute (jobId : string) : M nat :=
  result <- selectJob jobId ;;
  match result with
  | None => ret 404%nat
  | Some job =>
      if isFinished (Db.job_status job) then ret 400%nat
      else
        writeDb (fun d =>
          Db.mk (Db.storyboards d)
            (map (fun r =>
                    if String.eqb (Db.job_jobId r) jobId
                    then Db.mkJobRow (Db.job_jobId r) (Db.job_storyboardId r)
                           failed (Db.job_progress r) (Db.job_outputPath r)
                           (Some "Cancelled by user")
                    else r)
               (Db.productionJobs d))
            (Db.sceneMatches d) (Db.generatedAssets d)) ;;;
        ret 200%nat
  end.

End Jobs.

(* ------------------------------------------------------------------ *)
(** * routes/storyboards.ts: create, get and produce *)

Module StoryboardRoutes.

Import Effects.
Local Open Scope effects_scope.
Local Open Scope string_scope.
Local Open Scope R_scope.

(** A request body that has the JSON types of [CreateStoryboardSchema];
    [sequence] is an integer. *)
Record SceneInput := mkSceneInput {
  in_sequence : Z;
  in_duration : R;
  in_description : string;
  in_visualKeywords : option (list string);
  in_styleHints : option string;
  in_transitionIn : option TransitionType;
  in_transitionOut : option TransitionType
}.

Record CreateRequest := mkCreateRequest {
  req_title : string;
  req_scenes : list SceneInput;
  req_outputResolution : option (R * R);
  req_outputFps : option R
}.

(** The checks of [CreateStoryboardSchema] on such a body. *)
Definition validScene (s : SceneInput) : bool :=
  (0 <? in_sequence s)%Z
  && JS.ltb 0 (in_duration s)
  && negb (String.eqb (in_description s) "").

Definition validRequest (body : CreateRequest) : bool :=
  negb (String.eqb (req_title body) "")
  && forallb validScene (req_scenes body).

Definition orElse {A} (x : option A) (d : A) : A :=
  match x with Some v => v | None => d end.

Section WithServices.

Variable svc : Services.

(** [parsed.data.scenes.map(s => ({ sceneId: `sc_${nanoid(8)}`, ... }))]. *)
Definition newScene (s : SceneInput) : M Scene.t :=
  suffix <- nanoid svc ;;
  ret (Scene.mk ("sc_" ++ suffix) (Z.to_nat (in_sequence s))
         (in_duration s) (in_description s)
         (orElse (in_visualKeywords s) []) (in_styleHints s)
         (orElse (in_transitionIn s) cut) (orElse (in_transitionOut s) cut)
         None None None false).

Fixpoint newScenes (inputs : list SceneInput) : M (list Scene.t) :=
  match inputs with
  | [] => ret []
  | s :: rest =>
      scene <- newScene s ;;
      scenes <- newScenes rest ;;
      ret (scene :: scenes)
  end.

(** [db.insert(storyboards).values(row)]: [storyboard_id] is the primary
    key of the table. *)
Definition insertStoryboard (row : Db.StoryboardRow) : M unit :=
  fun w =>
    if existsb
         (fun r => String.eqb (Db.sb_storyboardId r) (Db.sb_storyboardId row))
         (Db.storyboards (db w))
    then (Throw "UNIQUE constraint failed: storyboards.storyboard_id", w)
    else
      (Ok tt,
       mkWorld
         (Db.mk (Db.storyboards (db w) ++ [row]) (Db.productionJobs (db w))
            (Db.sceneMatches (db w)) (Db.generatedAssets (db w)))
         (calls w) (idsDrawn w)).

(** POST /: the status and, for 201, the storyboard of the answer. *)
Definition createRoute (body : CreateRequest)
  : M (nat * option Storyboard.t) :=
  if negb (validRequest body) then ret (400%nat, None)
  else
    suffix <- nanoid svc ;;
    let storyboardId := "sb_" ++ suffix in
    scenes <- newScenes (req_scenes body) ;;
    let resolution := orElse (req_outputResolution body) (1920, 1080) in
    let fps := JS.numOr (req_outputFps body) 30 in
    insertStoryboard
      (Db.mkStoryboardRow storyboardId (req_title body) scenes
         (fst resolution) (snd resolution) fps) ;;;
    ret (201%nat,
         Some (Storyboard.mk storyboardId (req_title body) scenes resolution
                 fps)).

(** GET /:id. *)
Definition getRoute (id : string) : M (nat * option Storyboard.t) :=
  result <- Routes.selectStoryboard id ;;
  match result with
  | None => ret (404%nat, None)
  | Some row =>
      ret (200%nat,
           Some (Storyboard.mk (Db.sb_storyboardId row) (Db.sb_title row)
                   (Db.sb_scenesJson row)
                   (Db.sb_outputWidth row, Db.sb_outputHeight row)
                   (Db.sb_outputFps row)))
  end.





End WithServices.

End StoryboardRoutes.

(* ------------------------------------------------------------------ *)
(** * services/catalog.ts: [catalogBatch] *)

Module Catalog.

Import Effects.
Local Open Scope effects_scope.

Record BatchItem := mkBatchItem {
  item_scene : Scene.t;
  item_prompt : string;
  item_filepath : string;
  item_storyboardId : string
}.

Section WithServices.

Variable svc : Services.

(** The [try]/[catch] of one iteration: the id on success. *)
Definition catalogItem (item : BatchItem) : M (option string) :=
  tryCatch
    (id <- catalogGeneratedAsset svc (item_scene item) (item_prompt item)
             (item_filepath item) (item_storyboardId item) ;;
     ret (Some id))
    (fun _ => ret None).

Fixpoint catalogBatch (assets : list BatchItem) : M (list string) :=
  match assets with
  | [] => ret []
  | item :: rest =>
      r <- catalogItem item ;;
      ids <- catalogBatch rest ;;
      ret (match r with
           | Some id => id :: ids
           | None => ids
           end)
  end.

End WithServices.

End Catalog.

(** Vocabulary of the statements about these routes. *)
Module RoutesSpec2.

Import Effects.

(** The ids a batch returns: those of the items the cataloguing service
    accepted, in the order of the items. *)
Fixpoint acceptedIds (svc : Services) (assets : list Catalog.BatchItem)
  : list string :=
  match assets with
  | [] => []
  | item :: rest =>
      match svc_catalogGeneratedAsset svc (Catalog.item_scene item)
              (Catalog.item_prompt item) (Catalog.item_filepath item)
              (Catalog.item_storyboardId item) with
      | Ok id => id :: acceptedIds svc rest
      | Throw _ => acceptedIds svc rest
      end
  end.

(** A scene as the create route stores it: nothing resolved yet. *)
Definition unresolved (s : Scene.t) : Prop :=
  Scene.matchedAssetId s = None
  /\ Scene.matchScore s = None
  /\ Scene.assetSource s = None
  /\ Scene.needsReview s = false.

(** The scene stored for an input of the create route, identifier apart. *)
Definition storedFor (input : StoryboardRoutes.SceneInput) (s : Scene.t)
  : Prop :=
  Scene.sequence s = Z.to_nat (StoryboardRoutes.in_sequence input)
  /\ Scene.duration s = StoryboardRoutes.in_duration input
  /\ Scene.description s = StoryboardRoutes.in_description input
  /\ Scene.visualKeywords s
     = StoryboardRoutes.orElse (StoryboardRoutes.in_visualKeywords input) []
  /\ Scene.styleHints s = StoryboardRoutes.in_styleHints input
  /\ Scene.transitionIn s
     = StoryboardRoutes.orElse (StoryboardRoutes.in_transitionIn input) cut
  /\ Scene.transitionOut s
     = StoryboardRoutes.orElse (StoryboardRoutes.in_transitionOut input) cut
  /\ unresolved s.

(** A valid request for one scene, and a file system that holds every
    file. *)
Definition sampleRequest : StoryboardRoutes.CreateRequest :=
  StoryboardRoutes.mkCreateRequest "Morning"
    [StoryboardRoutes.mkSceneInput 1 5 "Sunrise over mountains" None None
       None (Some fade)]
    None None.


End RoutesSpec2.

(* ------------------------------------------------------------------ *)
(** * Number comparisons *)

Section Comparisons.

Local Open Scope R_scope.

Lemma ltb_true_iff (a b : R) : JS.ltb a b = true <-> a < b.
Proof.
  unfold JS.ltb. destruct (Rlt_dec a b); split; intros; auto; discriminate.
Qed.

Lemma ltb_false_iff (a b : R) : JS.ltb a b = false <-> b <= a.
Proof.
  unfold JS.ltb. destruct (Rlt_dec a b); split; intros; auto;
    try discriminate; lra.
Qed.

Lemma geb_true_iff (a b : R) : JS.geb a b = true <-> b <= a.
Proof.
  unfold JS.geb. destruct (Rle_dec b a); split; intros; auto; discriminate.
Qed.

Lemma geb_false_iff (a b : R) : JS.geb a b = false <-> a < b.
Proof.
  unfold JS.geb. destruct (Rle_dec b a); split; intros; auto;
    try discriminate; lra.
Qed.

Lemma eqb_true_iff (a b : R) : JS.eqb a b = true <-> a = b.
Proof.
  unfold JS.eqb. destruct (Req_dec_T a b); split; intros; auto; discriminate.
Qed.

Lemma eqb_false_iff (a b : R) : JS.eqb a b = false <-> a <> b.
Proof.
  unfold JS.eqb. destruct (Req_dec_T a b); split; intros; auto;
    try discriminate; contradiction.
Qed.

Lemma numOr_nonzero (v d : R) : v <> 0 -> JS.numOr (Some v) d = v.
Proof.
  intros H. unfold JS.numOr. now rewrite (proj2 (eqb_false_iff v 0) H).
Qed.

End Comparisons.

(** Decide a comparison between closed numerals in the goal. *)
Ltac decide_cmp :=
  repeat match goal with
    | |- context [JS.ltb ?a ?b] =>
        first [ rewrite (proj2 (ltb_true_iff a b)) by lra
              | rewrite (proj2 (ltb_false_iff a b)) by lra ]
    | |- context [JS.geb ?a ?b] =>
        first [ rewrite (proj2 (geb_true_iff a b)) by lra
              | rewrite (proj2 (geb_false_iff a b)) by lra ]
    | |- context [JS.eqb ?a ?b] =>
        first [ rewrite (proj2 (eqb_true_iff a b)) by lra
              | rewrite (proj2 (eqb_false_iff a b)) by lra ]
    end.

(* ------------------------------------------------------------------ *)
(** * Properties of the matcher *)

Section CosineSimilarity.

Local Open Scope R_scope.
Import Matcher Spec.

Lemma cosineLoop_sums (a b : list R) :
  List.length a = List.length b ->
  forall d na nb,
    cosineLoop (combine a b) d na nb
    = (d + dot a b, na + squaredNorm a, nb + squaredNorm b).
Proof.
  revert b. induction a as [|x a IH]; intros [|y b] Hlen d na nb;
    try discriminate; simpl.
  - f_equal; [f_equal|]; ring.
  - rewrite IH by (simpl in Hlen; lia). f_equal; [f_equal|]; ring.
Qed.

Lemma dot_self (a : list R) : dot a a = squaredNorm a.
Proof. induction a as [|x a IH]; simpl; auto. now rewrite IH. Qed.

Lemma squaredNorm_nonneg (a : list R) : 0 <= squaredNorm a.
Proof. induction a as [|x a IH]; simpl; [lra | nra]. Qed.

Lemma squaredNorm_pos (a : list R) : nonzero a -> 0 < squaredNorm a.
Proof.
  induction 1 as [x a Hx | x a _ IH]; simpl.
  - pose proof (squaredNorm_nonneg a). nra.
  - nra.
Qed.

(** [cosineSimilarity] in closed form when the lengths agree. *)
Lemma cosineSimilarity_eq (a b : list R) :
  List.length a = List.length b ->
  cosineSimilarity a b
  = if JS.eqb (sqrt (squaredNorm a) * sqrt (squaredNorm b)) 0 then 0
    else dot a b / (sqrt (squaredNorm a) * sqrt (squaredNorm b)).
Proof.
  intros Hlen. unfold cosineSimilarity.
  rewrite Hlen, Nat.eqb_refl. simpl negb. cbv iota.
  rewrite cosineLoop_sums by assumption.
  now rewrite !Rplus_0_l.
Qed.

Lemma cosineSimilarity_self (a : list R) :
  nonzero a -> cosineSimilarity a a = 1.
Proof.
  intros Ha. pose proof (squaredNorm_pos a Ha) as Hpos.
  rewrite cosineSimilarity_eq by reflexivity.
  rewrite sqrt_sqrt by lra. rewrite dot_self.
  rewrite (proj2 (eqb_false_iff _ 0)) by lra.
  field. lra.
Qed.

End CosineSimilarity.

(* ------------------------------------------------------------------ *)
(** * Doubles: multiplication, comparisons, zeros *)

Section Binary64Facts.

Import PrimFloat FloatOps FloatAxioms SpecFloat.
Local Open Scope float_scope.



Lemma SFcompare_antisym x y :
  SFcompare y x = option_map CompOpp (SFcompare x y).
Proof.
  destruct x as [sx|sx| |sx mx ex], y as [sy|sy| |sy my ey]; simpl;
    try reflexivity;
    try (destruct sx; reflexivity); try (destruct sy; reflexivity);
    try (destruct sx, sy; reflexivity).
  destruct sx, sy; simpl; try reflexivity;
    rewrite (Z.compare_antisym ex ey);
    destruct (Z.compare ex ey) eqn:E; simpl; try reflexivity;
    rewrite (Pos.compare_cont_antisym); simpl;
    destruct (Pos.compare_cont Eq mx my); reflexivity.
Qed.

Lemma is_nan_false (x : float) : is_nan x = false -> Prim2SF x <> S754_nan.
Proof.
  unfold is_nan. rewrite eqb_spec. intros H E. rewrite E in H.
  discriminate H.
Qed.

Lemma is_nan_true (x : float) : is_nan x = true -> Prim2SF x = S754_nan.
Proof.
  unfold is_nan. rewrite eqb_spec. unfold SFeqb.
  destruct (Prim2SF x) as [s|s| |s m e]; simpl; try discriminate; auto.
  - destruct s; discriminate.
  - destruct s; rewrite Z.compare_refl, Pos.compare_cont_refl; discriminate.
Qed.

Lemma SFcompare_some x y :
  x <> S754_nan -> y <> S754_nan -> exists c, SFcompare x y = Some c.
Proof.
  destruct x as [sx|sx| |sx mx ex], y as [sy|sy| |sy my ey]; simpl;
    intros Hx Hy; try contradiction; eauto.
Qed.

(** Without NaN, [x < y] is the negation of [y <= x]. *)
Lemma ltb_negb_leb (x y : float) :
  is_nan x = false -> is_nan y = false -> (x <? y) = negb (y <=? x).
Proof.
  intros Hx Hy. apply is_nan_false in Hx, Hy.
  rewrite ltb_spec, leb_spec. unfold SFltb, SFleb.
  rewrite (SFcompare_antisym (Prim2SF x) (Prim2SF y)).
  destruct (SFcompare_some _ _ Hx Hy) as (c & ->).
  now destruct c.
Qed.

(** Every comparison with NaN is false. *)
Lemma nan_ltb_leb (x y : float) :
  is_nan x = true -> (x <? y) = false /\ (y <=? x) = false.
Proof.
  intros Hx. apply is_nan_true in Hx.
  rewrite ltb_spec, leb_spec. unfold SFltb, SFleb. rewrite Hx.
  split; [reflexivity|]. now destruct (Prim2SF y).
Qed.

(** Two doubles in the order [<=] are numbers. *)
Lemma leb_numbers (x y : float) :
  (x <=? y) = true -> is_nan x = false /\ is_nan y = false.
Proof.
  rewrite leb_spec. unfold SFleb. intros H.
  split.
  - destruct (is_nan x) eqn:E; [|reflexivity].
    apply is_nan_true in E. rewrite E in H. discriminate H.
  - destruct (is_nan y) eqn:E; [|reflexivity].
    apply is_nan_true in E. rewrite E in H.
    destruct (Prim2SF x); discriminate H.
Qed.

(** The order of the values other than NaN, as a lexicographic order on
    sign class, exponent and mantissa. *)
Lemma SFleb_trans x y z :
  SFleb x y = true -> SFleb y z = true -> SFleb x z = true.
Proof.
  pose (key := fun x : spec_float =>
          match x with
          | S754_nan => (0, 0, 0)%Z
          | S754_infinity true => (-2, 0, 0)%Z
          | S754_infinity false => (2, 0, 0)%Z
          | S754_zero _ => (0, 0, 0)%Z
          | S754_finite true m e => (-1, - e, Z.neg m)%Z
          | S754_finite false m e => (1, e, Z.pos m)%Z
          end).
  pose (lexle := fun a b : Z * Z * Z =>
          let '(a1, a2, a3) := a in
          let '(b1, b2, b3) := b in
          (a1 < b1 \/ (a1 = b1 /\ (a2 < b2 \/ (a2 = b2 /\ a3 <= b3))))%Z).
  assert (K : forall a b,
             a <> S754_nan -> b <> S754_nan ->
             (SFleb a b = true <-> lexle (key a) (key b))).
  { unfold SFleb.
    intros [sx|sx| |sx mx ex] [sy|sy| |sy my ey] Ha Hb; try contradiction;
      try (destruct sx); try (destruct sy); simpl;
      try (destruct (Z.compare_spec ex ey) as [E|E|E]; simpl);
      try (rewrite Pos.compare_cont_spec; simpl;
           destruct (Pos.compare_spec mx my) as [F|F|F]; simpl);
      (split;
       [ first [discriminate | intros _; lia]
       | first [intros _; reflexivity | intros H; exfalso; lia] ]). }
  assert (N : forall a b,
             SFleb a b = true -> a <> S754_nan /\ b <> S754_nan).
  { intros a b. unfold SFleb.
    destruct a as [sx|sx| |sx mx ex], b as [sy|sy| |sy my ey]; simpl;
      intros H; split; intros E; congruence. }
  intros H1 H2.
  destruct (N _ _ H1) as (Nx & Ny). destruct (N _ _ H2) as (_ & Nz).
  apply (K _ _ Nx Ny) in H1. apply (K _ _ Ny Nz) in H2.
  apply (K _ _ Nx Nz).
  unfold lexle in *.
  destruct (key x) as [[a1 a2] a3], (key y) as [[b1 b2] b3],
           (key z) as [[c1 c2] c3].
  lia.
Qed.

Lemma leb_trans (x y z : float) :
  (x <=? y) = true -> (y <=? z) = true -> (x <=? z) = true.
Proof. rewrite !leb_spec. apply SFleb_trans. Qed.







(** NaN spreads through products and sums. *)
Lemma is_nan_of_spec (x : float) : Prim2SF x = S754_nan -> is_nan x = true.
Proof. unfold is_nan. rewrite eqb_spec. now intros ->. Qed.

Lemma nan_mul_l (x y : float) : is_nan x = true -> is_nan (x * y) = true.
Proof.
  intros H. apply is_nan_true in H. apply is_nan_of_spec.
  now rewrite mul_spec, H.
Qed.

Lemma nan_add_l (x y : float) : is_nan x = true -> is_nan (x + y) = true.
Proof.
  intros H. apply is_nan_true in H. apply is_nan_of_spec.
  now rewrite add_spec, H.
Qed.







(** ** [getBestMatch] and [shouldGenerate] on doubles *)

Lemma compositeMinimum_number : is_nan Binary64.compositeMinimum = false.
Proof. reflexivity. Qed.

Lemma getBestMatch64_cons top rest :
  Binary64.getBestMatch (top :: rest)
  = if Binary64.compositeMinimum <=? Binary64.compositeScore top
    then Some top else None.
Proof. reflexivity. Qed.

(** When the top composite score is a number, [shouldGenerate] is true
    exactly when [getBestMatch] is null. *)
Lemma shouldGenerate64_iff l :
  Binary64Spec.topIsNumber l ->
  Binary64.shouldGenerate l = true <-> Binary64.getBestMatch l = None.
Proof.
  destruct l as [|top rest]; simpl; [tauto|].
  intros Hnum.
  rewrite (ltb_negb_leb _ _ Hnum compositeMinimum_number).
  destruct (Binary64.compositeMinimum <=? Binary64.compositeScore top);
    simpl; split; intros H; auto; discriminate.
Qed.

(** A candidate whose semantic score is NaN is not skipped by the scoring
    loop, and its composite score is NaN. *)
Lemma pushed_nan id path semantic style useCase quality duration :
  is_nan semantic = true ->
  exists m,
    Binary64.pushed id path semantic style useCase quality duration = Some m
    /\ is_nan (Binary64.compositeScore m) = true.
Proof.
  intros Hnan. unfold Binary64.pushed.
  destruct (nan_ltb_leb semantic Binary64.semanticMinimum Hnan) as (-> & _).
  eexists. split; [reflexivity|].
  cbn [Binary64.compositeScore]. unfold Binary64.calculateCompositeScore.
  now repeat apply nan_add_l; apply nan_mul_l.
Qed.

(** When it is NaN, both say no. *)
Lemma shouldGenerate64_nan top rest :
  is_nan (Binary64.compositeScore top) = true ->
  Binary64.getBestMatch (top :: rest) = None
  /\ Binary64.shouldGenerate (top :: rest) = false.
Proof.
  intros Hnan.
  destruct (nan_ltb_leb (Binary64.compositeScore top)
              Binary64.compositeMinimum Hnan) as (Hlt & Hle).
  simpl. now rewrite Hlt, Hle.
Qed.

(** On a list in decreasing order whose top is a number, there is no best
    match exactly when every composite score is below the floor. *)
Lemma getBestMatch64_sorted_None l :
  Binary64Spec.descending l ->
  Binary64Spec.topIsNumber l ->
  Binary64.getBestMatch l = None
  <-> Forall
        (fun m =>
           (Binary64.compositeScore m <? Binary64.compositeMinimum) = true)
        l.
Proof.
  destruct l as [|top rest]; intros Hsorted Hnum.
  - simpl. split; auto.
  - simpl in Hnum. rewrite getBestMatch64_cons.
    apply StronglySorted_inv in Hsorted as (_ & Hrest).
    pose proof (ltb_negb_leb _ _ Hnum compositeMinimum_number) as Htop.
    destruct (Binary64.compositeMinimum <=? Binary64.compositeScore top)
      eqn:Hle; simpl in Htop.
    + split; [discriminate|]. intros H.
      apply Forall_inv in H. congruence.
    + split; [|reflexivity]. intros _.
      constructor; [exact Htop|].
      rewrite Forall_forall in Hrest |- *. intros m Hm.
      specialize (Hrest m Hm).
      destruct (leb_numbers _ _ Hrest) as (Hm_num & _).
      rewrite (ltb_negb_leb _ _ Hm_num compositeMinimum_number).
      destruct (Binary64.compositeMinimum <=? Binary64.compositeScore m)
        eqn:Hm_le; [|reflexivity].
      rewrite (leb_trans _ _ _ Hm_le Hrest) in Hle. discriminate.
Qed.

End Binary64Facts.

Section CosineContract.

Import PrimFloat.
Local Open Scope float_scope.



End CosineContract.

Section Rounding.

Import PrimFloat.
Local Open Scope float_scope.


End Rounding.

Section CompositeScore.

Local Open Scope R_scope.
Import Matcher Spec CONFIG.

Lemma weights_sum :
  WEIGHTS.semanticSimilarity + WEIGHTS.styleMatch + WEIGHTS.useCaseMatch
  + WEIGHTS.qualityScore + WEIGHTS.durationFit = 1.
Proof.
  unfold WEIGHTS.semanticSimilarity, WEIGHTS.styleMatch,
    WEIGHTS.useCaseMatch, WEIGHTS.qualityScore, WEIGHTS.durationFit.
  lra.
Qed.

Lemma calculateCompositeScore_unit (s : Scores) :
  unit_interval (semantic s) -> unit_interval (style s) ->
  unit_interval (useCase s) -> unit_interval (quality s) ->
  unit_interval (duration s) ->
  unit_interval (calculateCompositeScore s).
Proof.
  unfold unit_interval, calculateCompositeScore,
    WEIGHTS.semanticSimilarity, WEIGHTS.styleMatch,
    WEIGHTS.useCaseMatch, WEIGHTS.qualityScore, WEIGHTS.durationFit.
  intros. lra.
Qed.

End CompositeScore.

(** C9. The five weights sum to one, and for sub-scores that all lie in
    [[0,1]] the composite score of [calculateCompositeScore] lies in
    [[0,1]]. *)
Theorem calculateCompositeScore_bounds :
  (CONFIG.WEIGHTS.semanticSimilarity + CONFIG.WEIGHTS.styleMatch
   + CONFIG.WEIGHTS.useCaseMatch + CONFIG.WEIGHTS.qualityScore
   + CONFIG.WEIGHTS.durationFit = 1)%R
  /\ forall s : Matcher.Scores,
       Spec.unit_interval (Matcher.semantic s) ->
       Spec.unit_interval (Matcher.style s) ->
       Spec.unit_interval (Matcher.useCase s) ->
       Spec.unit_interval (Matcher.quality s) ->
       Spec.unit_interval (Matcher.duration s) ->
       Spec.unit_interval (Matcher.calculateCompositeScore s).
Proof.
  split; [apply weights_sum | apply calculateCompositeScore_unit].
Qed.

Lemma calculateCompositeScore_bounds_witness :
  Spec.unit_interval
    (Matcher.calculateCompositeScore
       (Matcher.mkScores 1 0.5 0 0.3 1)%R).
Proof.
  apply (proj2 calculateCompositeScore_bounds);
    unfold Spec.unit_interval; simpl; lra.
Defined.

Section MatchList.

Local Open Scope R_scope.
Import Matcher Spec CONFIG Effects.

Lemma scoreCandidate_inv scene embedding asset m :
  scoreCandidate scene embedding asset = Some m ->
  THRESHOLDS.semanticMinimum <= semanticScoreOf embedding asset
  /\ AssetMatch.semanticScore m = semanticScoreOf embedding asset
  /\ AssetMatch.compositeScore m
     = calculateCompositeScore
         (mkScores (AssetMatch.semanticScore m) (AssetMatch.styleScore m)
            (AssetMatch.useCaseScore m) (AssetMatch.qualityScore m)
            (AssetMatch.durationScore m))
  /\ AssetMatch.needsReview m = reviewFlag (AssetMatch.compositeScore m).
Proof.
  unfold scoreCandidate.
  destruct (JS.ltb (semanticScoreOf embedding asset)
              THRESHOLDS.semanticMinimum) eqn:E; [discriminate|].
  intros [= <-]. simpl. apply ltb_false_iff in E. auto.
Qed.

Lemma scoreCandidate_low scene embedding asset :
  semanticScoreOf embedding asset < THRESHOLDS.semanticMinimum ->
  scoreCandidate scene embedding asset = None.
Proof.
  intros H. unfold scoreCandidate.
  now rewrite (proj2 (ltb_true_iff _ _) H).
Qed.

Lemma scoreCandidate_no_vector scene embedding asset :
  LanceDBAsset.vector asset = None ->
  scoreCandidate scene embedding asset = None.
Proof.
  intros H. apply scoreCandidate_low.
  unfold semanticScoreOf, THRESHOLDS.semanticMinimum. rewrite H. lra.
Qed.

Lemma in_scoreCandidates scene embedding candidates m :
  In m (scoreCandidates scene embedding candidates) <->
  exists asset,
    In asset candidates /\ scoreCandidate scene embedding asset = Some m.
Proof.
  induction candidates as [|a rest IH]; simpl.
  - split; [contradiction | intros (? & [] & _)].
  - destruct (scoreCandidate scene embedding a) as [m'|] eqn:E; simpl;
      rewrite IH; split.
    + intros [<- | (x & Hx & Hs)]; eauto.
    + intros (x & [<- | Hx] & Hs); [left; congruence | eauto].
    + intros (x & Hx & Hs); eauto.
    + intros (x & [<- | Hx] & Hs); [congruence | eauto].
Qed.

Lemma scoreCandidates_hasVector scene embedding candidates :
  scoreCandidates scene embedding candidates
  = scoreCandidates scene embedding (filter hasVector candidates).
Proof.
  induction candidates as [|a rest IH]; simpl; auto.
  unfold hasVector at 1.
  destruct (LanceDBAsset.vector a) eqn:E; simpl.
  - now rewrite IH.
  - now rewrite (scoreCandidate_no_vector scene embedding a E).
Qed.

Lemma in_insertByComposite x m l :
  In x (insertByComposite m l) <-> x = m \/ In x l.
Proof.
  induction l as [|y l IH]; simpl.
  - intuition.
  - destruct (JS.ltb _ _); simpl; rewrite ?IH; intuition.
Qed.

Lemma in_sortByComposite x l : In x (sortByComposite l) <-> In x l.
Proof.
  induction l as [|m l IH]; simpl; [tauto|].
  rewrite in_insertByComposite, IH. intuition.
Qed.

(** What a run of [matchSceneToAssets] resolves to, and the calls it
    makes. *)
Lemma matchSceneToAssets_run svc scene w :
  fst (matchSceneToAssets svc scene w)
  = bindR (svc_generateEmbedding svc (searchText scene)) (fun embedding =>
    bindR (svc_searchLanceDB svc embedding 20%nat (mediaTypeFor scene))
      (fun candidates =>
    Ok (sortByComposite (scoreCandidates scene embedding candidates)))).
Proof.
  unfold matchSceneToAssets, generateEmbedding, searchLanceDB, bind,
    logCall, liftResult, ret. simpl.
  destruct (svc_generateEmbedding svc (searchText scene)); simpl; auto.
  destruct (svc_searchLanceDB svc a 20%nat (mediaTypeFor scene)); auto.
Qed.

End MatchList.

Section MatchResults.

Local Open Scope R_scope.
Import Matcher Spec CONFIG Effects.

Lemma matchSceneToAssets_origin svc scene w matches :
  fst (matchSceneToAssets svc scene w) = Ok matches ->
  exists embedding candidates,
    svc_generateEmbedding svc (searchText scene) = Ok embedding
    /\ svc_searchLanceDB svc embedding 20%nat (mediaTypeFor scene)
       = Ok candidates
    /\ matches = sortByComposite (scoreCandidates scene embedding candidates).
Proof.
  rewrite matchSceneToAssets_run.
  destruct (svc_generateEmbedding svc (searchText scene)) as [e|] eqn:He;
    simpl; [|discriminate].
  destruct (svc_searchLanceDB svc e 20%nat (mediaTypeFor scene)) as [c|]
    eqn:Hc; simpl; [|discriminate].
  intros [= <-]. exists e, c. auto.
Qed.

Lemma matchSceneToAssets_full svc scene w embedding candidates :
  svc_generateEmbedding svc (searchText scene) = Ok embedding ->
  svc_searchLanceDB svc embedding 20%nat (mediaTypeFor scene)
  = Ok candidates ->
  matchSceneToAssets svc scene w
  = (Ok (sortByComposite (scoreCandidates scene embedding candidates)),
     mkWorld (db w)
       (calls w ++ [CallEmbedding (searchText scene);
                    CallSearch 20 (mediaTypeFor scene)])
       (idsDrawn w)).
Proof.
  intros He Hc.
  unfold matchSceneToAssets, generateEmbedding, searchLanceDB, bind, logCall,
    liftResult, ret.
  simpl. rewrite He. simpl. rewrite Hc. now rewrite <- app_assoc.
Qed.

Lemma getBestMatch_In matches m :
  getBestMatch matches = Some m -> In m matches.
Proof.
  destruct matches as [|top rest]; simpl; [discriminate|].
  destruct (JS.geb _ _); [intros [= <-]; now left | discriminate].
Qed.

Lemma getBestMatch_cons top rest :
  getBestMatch (top :: rest)
  = if JS.geb (AssetMatch.compositeScore top) THRESHOLDS.compositeMinimum
    then Some top else None.
Proof. reflexivity. Qed.

Lemma reviewFlag_iff c :
  reviewFlag c = true
  <-> THRESHOLDS.compositeMinimum <= c < THRESHOLDS.excellentMatch.
Proof.
  unfold reviewFlag. rewrite andb_true_iff, geb_true_iff, ltb_true_iff.
  tauto.
Qed.

End MatchResults.

(** C4. A candidate without embedding vector gets the default semantic
    score 0.7, which is strictly below the semantic floor 0.72, so the
    scoring loop skips it: the ranked list is the one obtained from the
    candidates that carry a vector, and every returned or selected match
    was scored from a candidate that carries one. *)
Theorem embeddingless_candidates_discarded :
  (forall embedding asset,
      LanceDBAsset.vector asset = None ->
      Matcher.semanticScoreOf embedding asset = 0.7%R)
  /\ (0.7 < CONFIG.THRESHOLDS.semanticMinimum)%R
  /\ (forall scene embedding asset,
         LanceDBAsset.vector asset = None ->
         Matcher.scoreCandidate scene embedding asset = None)
  /\ (forall scene embedding candidates,
         Matcher.sortByComposite
           (Matcher.scoreCandidates scene embedding candidates)
         = Matcher.sortByComposite
             (Matcher.scoreCandidates scene embedding
                (filter Spec.hasVector candidates)))
  /\ (forall svc scene w matches,
         fst (Matcher.matchSceneToAssets svc scene w) = Ok matches ->
         exists embedding candidates,
           Effects.svc_generateEmbedding svc (Matcher.searchText scene)
           = Ok embedding
           /\ Effects.svc_searchLanceDB svc embedding 20
                (Matcher.mediaTypeFor scene) = Ok candidates
           /\ forall m,
                In m matches \/ Matcher.getBestMatch matches = Some m ->
                exists asset,
                  In asset candidates
                  /\ Spec.hasVector asset = true
                  /\ Matcher.scoreCandidate scene embedding asset = Some m).
Proof.
  split; [|split; [|split; [|split]]].
  - intros embedding asset H. unfold Matcher.semanticScoreOf. now rewrite H.
  - unfold CONFIG.THRESHOLDS.semanticMinimum. lra.
  - apply scoreCandidate_no_vector.
  - intros. now rewrite <- scoreCandidates_hasVector.
  - intros svc scene w matches H.
    destruct (matchSceneToAssets_origin svc scene w matches H)
      as (e & c & He & Hc & ->).
    exists e, c. repeat split; auto.
    intros m Hm.
    assert (In m (Matcher.sortByComposite
                    (Matcher.scoreCandidates scene e c)))
      as Hin by (destruct Hm; auto using getBestMatch_In).
    apply in_sortByComposite, in_scoreCandidates in Hin as (a & Ha & Hs).
    exists a. repeat split; auto.
    unfold Spec.hasVector.
    destruct (LanceDBAsset.vector a) eqn:E; auto.
    rewrite (scoreCandidate_no_vector scene e a E) in Hs. discriminate.
Qed.

(** C6. A candidate whose semantic score is below 0.72 is skipped whatever
    its other sub-scores are; every match in the list returned by
    [matchSceneToAssets], and the match selected from it, was scored from a
    candidate of the search whose semantic score is at least 0.72. *)
Theorem low_semantic_never_matched :
  (forall scene embedding asset,
      (Matcher.semanticScoreOf embedding asset
       < CONFIG.THRESHOLDS.semanticMinimum)%R ->
      Matcher.scoreCandidate scene embedding asset = None)
  /\ (forall svc scene w matches,
         fst (Matcher.matchSceneToAssets svc scene w) = Ok matches ->
         exists embedding candidates,
           Effects.svc_generateEmbedding svc (Matcher.searchText scene)
           = Ok embedding
           /\ Effects.svc_searchLanceDB svc embedding 20
                (Matcher.mediaTypeFor scene) = Ok candidates
           /\ forall m,
                In m matches \/ Matcher.getBestMatch matches = Some m ->
                (CONFIG.THRESHOLDS.semanticMinimum
                 <= AssetMatch.semanticScore m)%R
                /\ exists asset,
                     In asset candidates
                     /\ Matcher.scoreCandidate scene embedding asset = Some m
                     /\ AssetMatch.semanticScore m
                        = Matcher.semanticScoreOf embedding asset).
Proof.
  split; [apply scoreCandidate_low|].
  intros svc scene w matches H.
  destruct (matchSceneToAssets_origin svc scene w matches H)
    as (e & c & He & Hc & ->).
  exists e, c. split; [exact He|]. split; [exact Hc|].
  intros m Hm.
  assert (In m (Matcher.sortByComposite
                  (Matcher.scoreCandidates scene e c)))
    as Hin by (destruct Hm; auto using getBestMatch_In).
  apply in_sortByComposite, in_scoreCandidates in Hin as (a & Ha & Hs).
  destruct (scoreCandidate_inv scene e a m Hs) as (Hmin & Hsem & _).
  split; [rewrite Hsem; exact Hmin|].
  exists a. auto.
Qed.

(** C8. The review flag of a scored candidate is true exactly when its
    composite score lies in [[0.78, 0.90)]: at composite 0.95 the
    candidate is the match of a list it heads and is not flagged, at
    composite 0.80 it is the match and is flagged. *)
Theorem review_flag_contract :
  forall scene embedding asset m,
    Matcher.scoreCandidate scene embedding asset = Some m ->
    (AssetMatch.needsReview m = true
     <-> (CONFIG.THRESHOLDS.compositeMinimum <= AssetMatch.compositeScore m
          < CONFIG.THRESHOLDS.excellentMatch)%R)
    /\ (CONFIG.THRESHOLDS.compositeMinimum = 0.78
        /\ CONFIG.THRESHOLDS.excellentMatch = 0.90)%R
    /\ (AssetMatch.compositeScore m = 0.95%R ->
        AssetMatch.needsReview m = false
        /\ forall rest, Matcher.getBestMatch (m :: rest) = Some m)
    /\ (AssetMatch.compositeScore m = 0.80%R ->
        AssetMatch.needsReview m = true
        /\ forall rest, Matcher.getBestMatch (m :: rest) = Some m).
Proof.
  intros scene embedding asset m H.
  destruct (scoreCandidate_inv scene embedding asset m H) as (_ & _ & _ & Hr).
  rewrite Hr. split; [apply reviewFlag_iff|].
  split; [split; reflexivity|].
  split; intros Hc; rewrite Hc; (split; [|intros rest;
    rewrite getBestMatch_cons, Hc]);
    unfold Matcher.reviewFlag, CONFIG.THRESHOLDS.compositeMinimum,
      CONFIG.THRESHOLDS.excellentMatch; decide_cmp; reflexivity.
Qed.

(** ** The matcher on the sample data *)

Section SampleScores.

Local Open Scope R_scope.
Import Matcher Spec CONFIG Effects Samples.

Lemma semanticScoreOf_sample asset :
  LanceDBAsset.vector asset = Some [1] ->
  semanticScoreOf embedding0 asset = 1.
Proof.
  intros H. unfold semanticScoreOf. rewrite H.
  apply cosineSimilarity_self. left. lra.
Qed.

Lemma scores_assetPlain :
  calculateStyleScore scene0 assetPlain = 0.5
  /\ calculateUseCaseScore scene0 assetPlain = 0.5
  /\ calculateQualityScore assetPlain = 1.0
  /\ calculateDurationScore scene0 assetPlain = 0.5.
Proof.
  repeat split; try reflexivity.
  unfold calculateQualityScore. simpl. unfold JS.numOr.
  decide_cmp. decide_cmp. reflexivity.
Qed.

Lemma scores_assetClose :
  calculateStyleScore scene0 assetClose = 1
  /\ calculateUseCaseScore scene0 assetClose = 1
  /\ calculateQualityScore assetClose = 0.75
  /\ calculateDurationScore scene0 assetClose = 0.5.
Proof.
  repeat split; try reflexivity.
  - unfold calculateStyleScore. simpl. lra.
  - unfold calculateUseCaseScore. simpl. unfold Rmin.
    destruct (Rle_dec _ _); lra.
  - unfold calculateQualityScore. simpl. unfold JS.numOr.
    decide_cmp. decide_cmp. lra.
Qed.

Lemma scoreCandidate_assetPlain :
  scoreCandidate scene0 embedding0 assetPlain = Some matchPlain.
Proof.
  destruct scores_assetPlain as (Hs & Hu & Hq & Hd).
  unfold scoreCandidate.
  rewrite (semanticScoreOf_sample assetPlain eq_refl), Hs, Hu, Hq, Hd.
  unfold calculateCompositeScore, reviewFlag, THRESHOLDS.semanticMinimum,
    THRESHOLDS.compositeMinimum, THRESHOLDS.excellentMatch,
    WEIGHTS.semanticSimilarity, WEIGHTS.styleMatch, WEIGHTS.useCaseMatch,
    WEIGHTS.qualityScore, WEIGHTS.durationFit.
  simpl. decide_cmp. simpl.
  unfold matchPlain. do 2 f_equal. lra.
Qed.

Lemma scoreCandidate_assetClose :
  scoreCandidate scene0 embedding0 assetClose = Some matchClose.
Proof.
  destruct scores_assetClose as (Hs & Hu & Hq & Hd).
  unfold scoreCandidate.
  rewrite (semanticScoreOf_sample assetClose eq_refl), Hs, Hu, Hq, Hd.
  unfold calculateCompositeScore, reviewFlag, THRESHOLDS.semanticMinimum,
    THRESHOLDS.compositeMinimum, THRESHOLDS.excellentMatch,
    WEIGHTS.semanticSimilarity, WEIGHTS.styleMatch, WEIGHTS.useCaseMatch,
    WEIGHTS.qualityScore, WEIGHTS.durationFit.
  simpl. decide_cmp. simpl.
  unfold matchClose. do 2 f_equal. lra.
Qed.

Lemma ranking_samples :
  sortByComposite
    (scoreCandidates scene0 embedding0 [assetPlain; assetNoVector; assetClose])
  = [matchClose; matchPlain].
Proof.
  simpl. rewrite scoreCandidate_assetPlain, scoreCandidate_assetClose.
  rewrite (scoreCandidate_no_vector scene0 embedding0 assetNoVector eq_refl).
  simpl. decide_cmp. reflexivity.
Qed.

Lemma matchSceneToAssets_sample :
  fst (matchSceneToAssets services0 scene0 world0)
  = Ok [matchClose; matchPlain].
Proof.
  rewrite matchSceneToAssets_run.
  change (Ok (sortByComposite
                (scoreCandidates scene0 embedding0
                   [assetPlain; assetNoVector; assetClose]))
          = Ok [matchClose; matchPlain]).
  now rewrite ranking_samples.
Qed.

End SampleScores.

Lemma embeddingless_candidates_discarded_witness :
  exists embedding candidates,
    Effects.svc_generateEmbedding Samples.services0
      (Matcher.searchText Samples.scene0) = Ok embedding
    /\ Effects.svc_searchLanceDB Samples.services0 embedding 20
         (Matcher.mediaTypeFor Samples.scene0) = Ok candidates
    /\ forall m,
         In m [Samples.matchClose; Samples.matchPlain]
         \/ Matcher.getBestMatch [Samples.matchClose; Samples.matchPlain]
            = Some m ->
         exists asset,
           In asset candidates
           /\ Spec.hasVector asset = true
           /\ Matcher.scoreCandidate Samples.scene0 embedding asset = Some m.
Proof.
  exact (proj2 (proj2 (proj2 (proj2 embeddingless_candidates_discarded)))
           Samples.services0 Samples.scene0 Samples.world0
           [Samples.matchClose; Samples.matchPlain]
           matchSceneToAssets_sample).
Defined.

Lemma low_semantic_never_matched_witness :
  exists embedding candidates,
    Effects.svc_generateEmbedding Samples.services0
      (Matcher.searchText Samples.scene0) = Ok embedding
    /\ Effects.svc_searchLanceDB Samples.services0 embedding 20
         (Matcher.mediaTypeFor Samples.scene0) = Ok candidates
    /\ forall m,
         In m [Samples.matchClose; Samples.matchPlain]
         \/ Matcher.getBestMatch [Samples.matchClose; Samples.matchPlain]
            = Some m ->
         (CONFIG.THRESHOLDS.semanticMinimum <= AssetMatch.semanticScore m)%R
         /\ exists asset,
              In asset candidates
              /\ Matcher.scoreCandidate Samples.scene0 embedding asset
                 = Some m
              /\ AssetMatch.semanticScore m
                 = Matcher.semanticScoreOf embedding asset.
Proof.
  exact (proj2 low_semantic_never_matched
           Samples.services0 Samples.scene0 Samples.world0
           [Samples.matchClose; Samples.matchPlain]
           matchSceneToAssets_sample).
Defined.

Lemma review_flag_contract_witness :
  (AssetMatch.needsReview Samples.matchClose = false
   /\ forall rest,
        Matcher.getBestMatch (Samples.matchClose :: rest)
        = Some Samples.matchClose)
  /\ (AssetMatch.needsReview Samples.matchPlain = true
      /\ forall rest,
           Matcher.getBestMatch (Samples.matchPlain :: rest)
           = Some Samples.matchPlain).
Proof.
  split.
  - exact (proj1 (proj2 (proj2
             (review_flag_contract Samples.scene0 Samples.embedding0
                Samples.assetClose Samples.matchClose
                scoreCandidate_assetClose))) eq_refl).
  - exact (proj2 (proj2 (proj2
             (review_flag_contract Samples.scene0 Samples.embedding0
                Samples.assetPlain Samples.matchPlain
                scoreCandidate_assetPlain))) eq_refl).
Defined.

(* ------------------------------------------------------------------ *)
(** * Properties of the assembler *)

Section FilterGraph.

Local Open Scope R_scope.
Import Assembler Spec.

Lemma scaleParts_length n norm : List.length (scaleParts n norm) = n.
Proof. unfold scaleParts. now rewrite length_map, length_seq. Qed.

Lemma scaleParts_all_scale n norm :
  Forall (fun p => isScale p = true /\ isOutv (outLabel p) = false)
    (scaleParts n norm).
Proof.
  unfold scaleParts. apply Forall_forall. intros p Hp.
  apply in_map_iff in Hp as (i & <- & _). now split.
Qed.

Lemma filter_isScale_scaleParts n norm :
  filter isScale (scaleParts n norm) = scaleParts n norm.
Proof.
  apply forallb_filter_id, forallb_forall. intros p Hp.
  pose proof (scaleParts_all_scale n norm) as H.
  rewrite Forall_forall in H. now apply H.
Qed.

Lemma filter_isScale_junctions js :
  Forall (fun p => isScale p = false) js -> filter isScale js = [].
Proof.
  induction 1 as [|p js Hp _ IH]; simpl; auto. now rewrite Hp.
Qed.

(** One iteration adds one junction operation, and that operation
    delivers [[outv]] exactly at the last index. *)
Lemma chainStep_parts n scenes st i :
  exists p,
    filterParts (chainStep n scenes st i) = filterParts st ++ [p]
    /\ isScale p = false
    /\ isOutv (outLabel p) = (i =? n - 1)%nat.
Proof.
  unfold chainStep.
  destruct (negb (TransitionType_eqb (sceneTransitionOut scenes (i - 1)) cut));
    destruct (i =? n - 1)%nat; simpl; eexists; repeat split.
Qed.

Lemma chainStep_offset n scenes st i :
  offset (chainStep n scenes st i)
  = if (i =? 1)%nat then sceneDuration scenes 0
    else offset st + (sceneDuration scenes (i - 1) - transitionDuration).
Proof.
  unfold chainStep.
  destruct (negb (TransitionType_eqb (sceneTransitionOut scenes (i - 1)) cut));
    destruct (i =? n - 1)%nat; reflexivity.
Qed.

Lemma fold_chainStep_inner n scenes indices :
  Forall (fun i => i <> (n - 1)%nat) indices ->
  forall st,
  exists js,
    filterParts (fold_left (chainStep n scenes) indices st)
    = filterParts st ++ js
    /\ List.length js = List.length indices
    /\ innerJunctions js.
Proof.
  induction 1 as [|i indices Hi _ IH]; intros st; simpl.
  - exists []. rewrite app_nil_r. repeat split. constructor.
  - destruct (IH (chainStep n scenes st i)) as (js & Hjs & Hlen & Hin).
    destruct (chainStep_parts n scenes st i) as (p & Hp & Hsc & Hout).
    exists (p :: js). rewrite Hjs, Hp, <- app_assoc. simpl.
    repeat split; auto.
    constructor; auto. split; auto.
    rewrite Hout. now apply Nat.eqb_neq.
Qed.

(** The filter graph after the transition loop, for two assets or more:
    the scale filters, then the junctions, of which only the last one
    delivers [[outv]]. *)
Lemma applyTransitions_parts n scenes norm :
  (2 <= n)%nat ->
  exists js p,
    filterParts (applyTransitions n scenes norm)
    = scaleParts n norm ++ js ++ [p]
    /\ List.length js = (n - 2)%nat
    /\ innerJunctions js
    /\ isScale p = false
    /\ isOutv (outLabel p) = true.
Proof.
  intros Hn. unfold applyTransitions.
  assert (seq 1 (n - 1) = seq 1 (n - 2) ++ [(n - 1)%nat]) as ->.
  { replace (n - 1)%nat with (S (n - 2)) at 1 by lia.
    rewrite seq_S. do 2 f_equal. lia. }
  rewrite fold_left_app. simpl.
  set (st0 := mkChain (Scaled 0) 0 (scaleParts n norm)).
  destruct (fold_chainStep_inner n scenes (seq 1 (n - 2))) with (st := st0)
    as (js & Hjs & Hlen & Hin).
  { apply Forall_forall. intros i Hi. apply in_seq in Hi. lia. }
  destruct (chainStep_parts n scenes
              (fold_left (chainStep n scenes) (seq 1 (n - 2)) st0) (n - 1))
    as (p & Hp & Hsc & Hout).
  exists js, p. rewrite Hp, Hjs, <- app_assoc.
  rewrite length_seq in Hlen. rewrite Nat.eqb_refl in Hout.
  repeat split; auto.
Qed.

Lemma nth_error_last {A} (l : list A) (x : A) :
  nth_error (l ++ [x]) (List.length (l ++ [x]) - 1) = Some x.
Proof.
  rewrite length_app. simpl.
  replace (List.length l + 1 - 1)%nat with (List.length l) by lia.
  rewrite nth_error_app2 by lia. now rewrite Nat.sub_diag.
Qed.

Lemma includesOutv_out p : isOutv (outLabel p) = true -> includesOutv p = true.
Proof.
  intros H. unfold includesOutv. apply existsb_exists.
  exists (outLabel p). split; auto.
  destruct p; simpl;
    [ right; now left
    | right; right; now left
    | apply in_or_app; right; now left ].
Qed.

Lemma singleFinalOutput_app init p :
  Forall (fun q => isOutv (outLabel q) = false) init ->
  isOutv (outLabel p) = true ->
  singleFinalOutput (init ++ [p]) = true.
Proof.
  intros Hinit Hp. unfold singleFinalOutput.
  rewrite rev_app_distr. simpl. rewrite Hp. simpl.
  apply forallb_forall. intros q Hq. apply in_rev in Hq.
  rewrite Forall_forall in Hinit. now rewrite (Hinit q Hq).
Qed.

(** The fallback: when the last part lacks [[outv]], every junction is
    dropped and one [concat] of all scaled inputs is appended. *)
Lemma finalizeChain_fallback n norm js lastPart :
  nth_error (scaleParts n norm ++ js)
    (List.length (scaleParts n norm ++ js) - 1) = Some lastPart ->
  includesOutv lastPart = false ->
  finalizeChain n (scaleParts n norm ++ js)
  = Ok (scaleParts n norm ++ [ConcatFilter (map Scaled (seq 0 n)) n Outv]).
Proof.
  intros Hlast Hno. unfold finalizeChain. rewrite Hlast, Hno. simpl.
  rewrite firstn_app, scaleParts_length, Nat.sub_diag. simpl.
  rewrite app_nil_r.
  rewrite <- (scaleParts_length n norm) at 1. now rewrite firstn_all.
Qed.

Lemma fallback_single_output n norm :
  singleFinalOutput
    (scaleParts n norm ++ [ConcatFilter (map Scaled (seq 0 n)) n Outv])
  = true.
Proof.
  apply singleFinalOutput_app; auto.
  eapply Forall_impl; [|apply scaleParts_all_scale]. now intros q [_ H].
Qed.

End FilterGraph.

Section Planner.

Local Open Scope R_scope.
Import Assembler Spec.

(** With two assets or more the command carries the filter graph of the
    transition loop unchanged: its last part delivers [[outv]]. *)
Lemma assembleWithTransitions_chain assets scenes options :
  (2 <= List.length assets)%nat ->
  finalizeChain (List.length assets)
    (filterParts
       (applyTransitions (List.length assets) scenes (normalizeOf options)))
  = Ok (filterParts
          (applyTransitions (List.length assets) scenes (normalizeOf options)))
  /\ assembleWithTransitions assets scenes options
     = Ok (mkCommand
             (map (fun a => InputFile (ResolvedAsset.localPath a)) assets)
             None
             (filterParts
                (applyTransitions (List.length assets) scenes
                   (normalizeOf options)))
             (Some Outv) (outputPath options)).
Proof.
  intros Hn.
  assert (finalizeChain (List.length assets)
            (filterParts
               (applyTransitions (List.length assets) scenes
                  (normalizeOf options)))
          = Ok (filterParts
                  (applyTransitions (List.length assets) scenes
                     (normalizeOf options)))) as Hfin.
  { destruct (applyTransitions_parts (List.length assets) scenes
                (normalizeOf options) Hn)
      as (js & p & Hparts & _ & _ & _ & Hout).
    rewrite Hparts. unfold finalizeChain.
    rewrite app_assoc, nth_error_last.
    now rewrite (includesOutv_out p Hout). }
  split; [exact Hfin|].
  unfold assembleWithTransitions.
  destruct assets as [|a [|b rest]]; simpl in Hn; try lia.
  now rewrite Hfin.
Qed.

Lemma chain_single_output n scenes norm :
  (2 <= n)%nat ->
  singleFinalOutput (filterParts (applyTransitions n scenes norm)) = true.
Proof.
  intros Hn.
  destruct (applyTransitions_parts n scenes norm Hn)
    as (js & p & -> & _ & Hin & _ & Hout).
  rewrite app_assoc. apply singleFinalOutput_app; auto.
  apply Forall_app. split.
  - eapply Forall_impl; [|apply scaleParts_all_scale]. now intros q [_ H].
  - eapply Forall_impl; [|exact Hin]. now intros q [_ H].
Qed.

Lemma chain_normalize_count n scenes norm :
  (2 <= n)%nat ->
  List.length (filter isScale (filterParts (applyTransitions n scenes norm)))
  = n.
Proof.
  intros Hn.
  destruct (applyTransitions_parts n scenes norm Hn)
    as (js & p & -> & _ & Hin & Hp & _).
  rewrite !filter_app, filter_isScale_scaleParts.
  rewrite filter_isScale_junctions
    by (eapply Forall_impl; [|exact Hin]; now intros q [H _]).
  simpl. rewrite Hp, app_nil_r. apply scaleParts_length.
Qed.

(** The running offset in closed form: the durations of the clips before
    the junction, less one transition duration for each junction before
    it. *)
Lemma offsetAtJunction_closed_form n scenes norm i :
  offsetAtJunction n scenes norm (S i)
  = durationOfFirst scenes (S i) - INR i * transitionDuration.
Proof.
  unfold offsetAtJunction. induction i as [|i IH].
  - simpl fold_left. rewrite chainStep_offset. simpl. ring.
  - rewrite seq_S, fold_left_app. cbn [fold_left].
    rewrite chainStep_offset, IH.
    replace (1 + S i)%nat with (S (S i)) by lia.
    replace (S (S i) - 1)%nat with (S i) by lia.
    cbn [Nat.eqb durationOfFirst]. rewrite S_INR. ring.
Qed.

End Planner.

(** C5. With two resolved assets or more: if the part that ends the
    filter graph after transition chaining does not carry [[outv]], the
    planner keeps the scale filters only and appends one concatenation of
    all scaled inputs, and that graph ends in exactly one [[outv]] output;
    and the command the planner builds always exists, maps [[outv]], and
    its graph ends in exactly one [[outv]] output. *)
Theorem transition_chain_single_output :
  forall assets scenes options,
    (2 <= List.length assets)%nat ->
    let n := List.length assets in
    let norm := Assembler.normalizeOf options in
    (forall js lastPart,
        nth_error (Assembler.scaleParts n norm ++ js)
          (List.length (Assembler.scaleParts n norm ++ js) - 1)
        = Some lastPart ->
        Assembler.includesOutv lastPart = false ->
        Assembler.finalizeChain n (Assembler.scaleParts n norm ++ js)
        = Ok (Assembler.scaleParts n norm
              ++ [Assembler.ConcatFilter
                    (map Assembler.Scaled (seq 0 n)) n Assembler.Outv])
        /\ Assembler.singleFinalOutput
             (Assembler.scaleParts n norm
              ++ [Assembler.ConcatFilter
                    (map Assembler.Scaled (seq 0 n)) n Assembler.Outv])
           = true)
    /\ exists cmd,
         Assembler.assembleWithTransitions assets scenes options = Ok cmd
         /\ Assembler.finalizeChain n
              (Assembler.filterParts
                 (Assembler.applyTransitions n scenes norm))
            = Ok (Assembler.complexFilter cmd)
         /\ Assembler.singleFinalOutput (Assembler.complexFilter cmd) = true
         /\ Assembler.mapOutput cmd = Some Assembler.Outv.
Proof.
  intros assets scenes options Hn n norm. split.
  - intros js lastPart Hlast Hno. split.
    + now apply finalizeChain_fallback with (lastPart := lastPart).
    + apply fallback_single_output.
  - destruct (assembleWithTransitions_chain assets scenes options Hn)
      as (Hfin & Hcmd).
    eexists. split; [exact Hcmd|]. simpl. repeat split.
    + exact Hfin.
    + now apply chain_single_output.
Qed.

Lemma transition_chain_single_output_witness :
  (2 <= List.length
          [Samples.resolvedA; Samples.resolvedB; Samples.resolvedC])%nat
  /\ exists cmd,
       Assembler.assembleWithTransitions
         [Samples.resolvedA; Samples.resolvedB; Samples.resolvedC]
         [Samples.sceneA; Samples.sceneB; Samples.sceneC] Samples.options0
       = Ok cmd
       /\ Assembler.singleFinalOutput (Assembler.complexFilter cmd) = true.
Proof.
  assert (2 <= List.length
                 [Samples.resolvedA; Samples.resolvedB; Samples.resolvedC])%nat
    as H by (simpl; lia).
  split; [exact H|].
  destruct (proj2 (transition_chain_single_output
                     [Samples.resolvedA; Samples.resolvedB; Samples.resolvedC]
                     [Samples.sceneA; Samples.sceneB; Samples.sceneC]
                     Samples.options0 H))
    as (cmd & Hcmd & _ & Hsingle & _).
  exists cmd. split; assumption.
Defined.

(** C3, as the code has it.  Whenever [assembleStoryboard] builds a
    command: on the transition path (one asset, or several) the command
    has exactly one scale/pad/fps step per resolved asset; on the
    concatenation path it has exactly one such step, applied to the
    concatenated stream, whatever the number of assets.  No command is
    built only on the transition path with no asset at all. *)
Theorem normalize_steps_per_path :
  forall storyboard assets outputPath,
    match Assembler.assembleStoryboard storyboard assets outputPath with
    | Ok cmd =>
        Assembler.normalizeSteps cmd
        = if Assembler.hasTransitions storyboard
          then List.length assets
          else 1%nat
    | Throw _ => Assembler.hasTransitions storyboard = true /\ assets = []
    end.
Proof.
  intros storyboard assets outputPath. unfold Assembler.assembleStoryboard.
  destruct (Storyboard.outputResolution storyboard) as [width height].
  destruct (Assembler.hasTransitions storyboard); [|reflexivity].
  destruct assets as [|a [|b rest]].
  - simpl. auto.
  - reflexivity.
  - set (assets := a :: b :: rest).
    assert (2 <= List.length assets)%nat as Hn by (simpl; lia).
    match goal with
    | |- context [Assembler.assembleWithTransitions assets ?sc ?opt] =>
        destruct (assembleWithTransitions_chain assets sc opt Hn) as (_ & ->);
        unfold Assembler.normalizeSteps; simpl Assembler.videoFilter;
        simpl Assembler.complexFilter;
        now rewrite chain_normalize_count
    end.
Qed.

(** C3 as stated fails on the concatenation path: for two assets joined
    by cuts the command has one normalize step, not two. *)
Lemma normalize_steps_counterexample :
  exists cmd,
    Assembler.assembleStoryboard Samples.storyboardCuts
      [Samples.resolvedB; Samples.resolvedC] "/Volumes/STUDIO/VIDEO/out.mp4"
    = Ok cmd
    /\ Assembler.normalizeSteps cmd = 1%nat
    /\ Assembler.normalizeSteps cmd
       <> List.length [Samples.resolvedB; Samples.resolvedC].
Proof.
  eexists. split; [reflexivity|]. split; [reflexivity|].
  intros H. vm_compute in H. discriminate H.
Qed.

Section FadeCut.

Local Open Scope R_scope.
Import Assembler Spec.

Variables s1 s2 s3 : Scene.t.
Variable norm : Normalize.

Hypothesis transition1 : Scene.transitionOut s1 = fade.
Hypothesis transition2 : Scene.transitionOut s2 = cut.
Hypothesis duration1 : 0 < Scene.duration s1.
Hypothesis duration2 : 0 < Scene.duration s2.

Lemma sceneDuration_fade_cut :
  sceneDuration [s1; s2; s3] 0 = Scene.duration s1
  /\ sceneDuration [s1; s2; s3] 1 = Scene.duration s2.
Proof.
  unfold sceneDuration. simpl. split; apply numOr_nonzero; lra.
Qed.

(** The state of the transition loop after each of its two iterations. *)
Lemma applyTransitions_fade_cut :
  applyTransitions 3 [s1; s2; s3] norm
  = mkChain (XfadeOut 1)
      (Scene.duration s1 + (Scene.duration s2 - transitionDuration))
      (scaleParts 3 norm
       ++ [XfadeFilter (Scaled 0) (Scaled 1) "fade" transitionDuration
             (Scene.duration s1 - transitionDuration) (XfadeOut 1);
           ConcatFilter [XfadeOut 1; Scaled 2] 2 Outv]).
Proof.
  destruct sceneDuration_fade_cut as (Hd1 & Hd2).
  unfold applyTransitions. cbn [seq Nat.sub fold_left].
  unfold chainStep at 2. cbn [Nat.sub Nat.eqb].
  unfold sceneTransitionOut at 1. cbn [nth_error].
  rewrite transition1, Hd1.
  cbn [TransitionType_eqb negb isOutv xfadeName currentInput filterParts
       offset].
  unfold chainStep. cbn [Nat.sub Nat.eqb].
  unfold sceneTransitionOut. cbn [nth_error].
  rewrite transition2, Hd2.
  cbn [TransitionType_eqb negb isOutv currentInput filterParts offset].
  rewrite ?transition1. cbn [xfadeName].
  rewrite <- app_assoc. reflexivity.
Qed.

End FadeCut.

(** C2. For three resolved assets whose first two scenes have the
    transitions fade and cut (and positive durations), the planner emits
    exactly two junction operations, a cross-fade then a concatenation;
    its running offset is the first duration at the first junction and,
    at the second junction, the sum of the first two durations minus the
    0.5 s overlap of the fade before it.  [assembleStoryboard] plans a
    storyboard with these scenes through this path. *)
Theorem fade_cut_plan :
  forall a1 a2 a3 s1 s2 s3 options,
    Scene.transitionOut s1 = fade ->
    Scene.transitionOut s2 = cut ->
    (0 < Scene.duration s1)%R ->
    (0 < Scene.duration s2)%R ->
    let scenes := [s1; s2; s3] in
    let norm := Assembler.normalizeOf options in
    Assembler.transitionDuration = 0.5%R
    /\ (exists cmd,
           Assembler.assembleWithTransitions [a1; a2; a3] scenes options
           = Ok cmd
           /\ Assembler.junctions (Assembler.complexFilter cmd)
              = [Assembler.XfadeFilter (Assembler.Scaled 0)
                   (Assembler.Scaled 1) "fade" 0.5%R
                   (Scene.duration s1 - 0.5)%R (Assembler.XfadeOut 1);
                 Assembler.ConcatFilter
                   [Assembler.XfadeOut 1; Assembler.Scaled 2] 2
                   Assembler.Outv]
           /\ List.length (Assembler.junctions (Assembler.complexFilter cmd))
              = 2%nat)
    /\ Spec.offsetAtJunction 3 scenes norm 1 = Scene.duration s1
    /\ Spec.offsetAtJunction 3 scenes norm 2
       = (Scene.duration s1 + Scene.duration s2 - 0.5)%R
    /\ (forall storyboard outputPath,
           Storyboard.scenes storyboard = scenes ->
           Assembler.assembleStoryboard storyboard [a1; a2; a3] outputPath
           = Assembler.assembleWithTransitions [a1; a2; a3] scenes
               (Assembler.mkOptions outputPath
                  (Some (fst (Storyboard.outputResolution storyboard)))
                  (Some (snd (Storyboard.outputResolution storyboard)))
                  (Some (Storyboard.outputFps storyboard)))).
Proof.
  intros a1 a2 a3 s1 s2 s3 options Ht1 Ht2 Hd1 Hd2 scenes norm.
  split; [reflexivity|]. split; [|split; [|split]].
  - eexists. split.
    + apply (assembleWithTransitions_chain [a1; a2; a3] scenes options).
      simpl. lia.
    + cbn [Assembler.complexFilter List.length].
      fold norm. unfold scenes.
      rewrite (applyTransitions_fade_cut s1 s2 s3 norm Ht1 Ht2 Hd1 Hd2).
      cbn [Assembler.filterParts]. unfold Assembler.junctions.
      rewrite filter_app.
      assert (filter (fun p => negb (Assembler.isScale p))
                (Assembler.scaleParts 3 norm) = []) as -> by reflexivity.
      split; reflexivity.
  - rewrite offsetAtJunction_closed_form. unfold scenes.
    cbn [Spec.durationOfFirst INR].
    rewrite (proj1 (sceneDuration_fade_cut s1 s2 s3 Hd1 Hd2)). ring.
  - rewrite offsetAtJunction_closed_form. unfold scenes.
    cbn [Spec.durationOfFirst INR].
    destruct (sceneDuration_fade_cut s1 s2 s3 Hd1 Hd2) as (-> & ->).
    unfold Assembler.transitionDuration. lra.
  - intros storyboard outputPath Hscenes.
    unfold Assembler.assembleStoryboard, Assembler.hasTransitions.
    destruct (Storyboard.outputResolution storyboard) as [width height].
    rewrite Hscenes. unfold scenes. cbn [existsb]. rewrite Ht1.
    cbn [TransitionType_eqb negb]. now rewrite orb_true_r.
Qed.

Lemma fade_cut_plan_witness :
  Spec.offsetAtJunction 3 [Samples.sceneA; Samples.sceneB; Samples.sceneC]
    (Assembler.normalizeOf Samples.options0) 2
  = (4 + 6 - 0.5)%R
  /\ Assembler.assembleStoryboard Samples.storyboardFadeCut
       [Samples.resolvedA; Samples.resolvedB; Samples.resolvedC]
       "/Volumes/STUDIO/VIDEO/out.mp4"
     = Assembler.assembleWithTransitions
         [Samples.resolvedA; Samples.resolvedB; Samples.resolvedC]
         [Samples.sceneA; Samples.sceneB; Samples.sceneC] Samples.options0.
Proof.
  assert (0 < 4)%R as H4 by lra.
  assert (0 < 6)%R as H6 by lra.
  destruct (fade_cut_plan Samples.resolvedA Samples.resolvedB
              Samples.resolvedC Samples.sceneA Samples.sceneB Samples.sceneC
              Samples.options0 eq_refl eq_refl H4 H6)
    as (_ & _ & _ & Hoffset & Hpath).
  split; [exact Hoffset|].
  exact (Hpath Samples.storyboardFadeCut "/Volumes/STUDIO/VIDEO/out.mp4"%string
           eq_refl).
Defined.

(* ------------------------------------------------------------------ *)
(** * Properties of the routes *)

Section CallLog.

Import Effects.

Lemma generations_app l1 l2 :
  generations (l1 ++ l2) = (generations l1 + generations l2)%nat.
Proof. unfold generations. now rewrite filter_app, length_app. Qed.

Lemma searches_app l1 l2 :
  searches (l1 ++ l2) = (searches l1 + searches l2)%nat.
Proof. unfold searches. now rewrite filter_app, length_app. Qed.

End CallLog.

Section ResolveScene.

Local Open Scope R_scope.
Import Effects Routes.

Variable svc : Services.

(** [reuseMatched] only reads the database. *)
Lemma reuseMatched_world scene w : snd (reuseMatched scene w) = w.
Proof.
  unfold reuseMatched.
  destruct (Scene.matchedAssetId scene) as [aid|]; [|reflexivity].
  destruct (Scene.assetSource scene) as [[| |]|]; try reflexivity.
  destruct (String.eqb aid ""); [reflexivity|].
  unfold bind, selectSceneMatch, readDb, ret. simpl.
  now destruct (find _ _).
Qed.

(** A scene whose source is not [existing] is never reused. *)
Lemma reuseMatched_not_existing scene w :
  Scene.assetSource scene <> Some existing ->
  reuseMatched scene w = (Ok None, w).
Proof.
  intros H. unfold reuseMatched.
  destruct (Scene.matchedAssetId scene) as [aid|]; [|reflexivity].
  destruct (Scene.assetSource scene) as [[| |]|]; try reflexivity.
  now contradiction H.
Qed.

(** An [existing] scene with an asset id and a row in [scene_matches] is
    reused, with the path of the first row found for it. *)
Lemma reuseMatched_existing scene w aid row :
  Scene.matchedAssetId scene = Some aid ->
  aid <> ""%string ->
  Scene.assetSource scene = Some existing ->
  find (fun r => String.eqb (Db.sm_sceneId r) (Scene.sceneId scene))
    (Db.sceneMatches (db w)) = Some row ->
  reuseMatched scene w
  = (Ok (Some (ResolvedAsset.mk (Scene.sceneId scene) aid
                 (Db.sm_assetPath row) existing
                 (JS.numOr (Scene.matchScore scene) 1.0)
                 (Scene.needsReview scene))), w).
Proof.
  intros Ha Hne Hs Hrow. unfold reuseMatched. rewrite Ha, Hs.
  rewrite (proj2 (String.eqb_neq aid "") Hne).
  unfold bind, selectSceneMatch, readDb, ret. simpl. now rewrite Hrow.
Qed.

(** The iteration for a scene that is not reused calls the generator for
    it exactly once, and calls neither the generator nor the search after
    that. *)
Lemma resolveScene_generates jobId storyboardId totalScenes i scene w :
  reuseMatched scene w = (Ok None, w) ->
  exists tail,
    calls (snd (resolveScene svc jobId storyboardId totalScenes i scene w))
    = calls w ++ CallGenerate (Scene.sceneId scene) :: tail
    /\ generations tail = 0%nat
    /\ searches tail = 0%nat.
Proof.
  intros Hreuse. unfold resolveScene, bind at 1. rewrite Hreuse.
  unfold bind, updateJobStatus, writeDb, generateVideoForScene, logCall,
    liftResult. simpl.
  destruct (svc_generateVideoForScene svc scene) as [g|msg]; simpl.
  - unfold insertGeneratedAsset, bind, readDb, throw, writeDb. simpl.
    destruct (existsb _ _); simpl; [exists []; repeat split|].
    unfold tryCatch, bind, catalogGeneratedAsset, logCall, liftResult. simpl.
    destruct (svc_catalogGeneratedAsset svc _ _ _ _); simpl;
      exists [CallCatalog (Scene.sceneId scene)];
      rewrite <- app_assoc; repeat split.
  - exists []. repeat split.
Qed.

(** The iteration for a reused scene makes no call at all and leaves the
    [scene_matches] table as it is. *)
Lemma resolveScene_reuses jobId storyboardId totalScenes i scene w asset :
  reuseMatched scene w = (Ok (Some asset), w) ->
  fst (resolveScene svc jobId storyboardId totalScenes i scene w)
  = Ok (scene, asset)
  /\ calls (snd (resolveScene svc jobId storyboardId totalScenes i scene w))
     = calls w
  /\ Db.sceneMatches
       (db (snd (resolveScene svc jobId storyboardId totalScenes i scene w)))
     = Db.sceneMatches (db w).
Proof.
  intros Hreuse.
  assert (resolveScene svc jobId storyboardId totalScenes i scene w
          = (updateJobStatus jobId matching
               (0.1 + 0.7 * (INR i / INR totalScenes)) None ;;;
             ret (scene, asset))%effects w) as ->.
  { unfold resolveScene. unfold bind at 1. now rewrite Hreuse. }
  repeat split.
Qed.

End ResolveScene.

Section Production.

Local Open Scope R_scope.
Import Effects Routes Spec.

Variable svc : Services.

Lemma resolveScenes_single jobId storyboardId totalScenes i scene w :
  calls (snd (resolveScenes svc jobId storyboardId totalScenes i [scene] w))
  = calls (snd (resolveScene svc jobId storyboardId totalScenes i scene w)).
Proof.
  simpl. unfold bind.
  destruct (resolveScene svc jobId storyboardId totalScenes i scene w)
    as [[r|msg] w']; reflexivity.
Qed.

(** When every scene is reusable the loop resolves all of them without
    calling any collaborator. *)
Lemma resolveScenes_all_reused jobId storyboardId totalScenes scenes :
  forall i w,
    Forall (reusable (Db.sceneMatches (db w))) scenes ->
    exists resolved,
      fst (resolveScenes svc jobId storyboardId totalScenes i scenes w)
      = Ok resolved
      /\ map fst resolved = scenes
      /\ Forall (fun a => ResolvedAsset.source a = existing)
           (map snd resolved)
      /\ calls (snd (resolveScenes svc jobId storyboardId totalScenes i
                       scenes w))
         = calls w.
Proof.
  induction scenes as [|scene rest IH]; intros i w Hall.
  - exists []. simpl. repeat split. constructor.
  - inversion Hall as [|? ? (aid & row & Ha & Hne & Hs & Hrow) Hrest]; subst.
    pose proof (reuseMatched_existing scene w aid row Ha Hne Hs Hrow) as Hre.
    match type of Hre with
    | _ = (Ok (Some ?a), _) => set (asset := a) in *
    end.
    destruct (resolveScene_reuses svc jobId storyboardId totalScenes i scene
                w asset Hre) as (Hfst & Hcalls & Htable).
    destruct (resolveScene svc jobId storyboardId totalScenes i scene w)
      as [r w1] eqn:E.
    simpl in Hfst, Hcalls, Htable. subst r.
    rewrite <- Htable in Hrest.
    destruct (IH (S i) w1 Hrest) as (resolved & Hr & Hmap & Hsrc & Hc).
    destruct (resolveScenes svc jobId storyboardId totalScenes (S i) rest w1)
      as [r2 w2] eqn:E2.
    simpl in Hr, Hc. subst r2.
    assert (resolveScenes svc jobId storyboardId totalScenes i
              (scene :: rest) w
            = (Ok ((scene, asset) :: resolved), w2)) as ->.
    { simpl. unfold bind. now rewrite E, E2. }
    exists ((scene, asset) :: resolved). simpl. repeat split.
    + now rewrite Hmap.
    + constructor; auto.
    + congruence.
Qed.

(** The calls of a whole job: those of the loop over the scenes, then at
    most the launch of ffmpeg. *)
Lemma processProductionJob_calls jobId storyboardId w row :
  find (fun r => String.eqb (Db.sb_storyboardId r) storyboardId)
    (Db.storyboards (db w)) = Some row ->
  exists extra,
    calls (snd (processProductionJob svc jobId storyboardId w))
    = calls
        (snd (resolveScenes svc jobId storyboardId
                (List.length (Db.sb_scenesJson row)) 0 (Db.sb_scenesJson row)
                (snd (updateJobStatus jobId matching 0.1 None w))))
      ++ extra
    /\ generations extra = 0%nat
    /\ searches extra = 0%nat.
Proof.
  intros Hrow.
  unfold processProductionJob, tryCatch, bind, selectStoryboard,
    updateJobStatus, writeDb, readDb, ret.
  simpl. rewrite Hrow.
  match goal with
  | |- context [resolveScenes svc jobId storyboardId ?n 0 ?s ?w1] =>
      destruct (resolveScenes svc jobId storyboardId n 0 s w1)
        as [[resolved|msg] w2]
  end.
  - simpl. unfold assembleStoryboard, bind, liftResult.
    destruct (Assembler.assembleStoryboard _ _ _) as [cmd|msg]; simpl.
    + unfold runFfmpeg, bind, logCall, liftResult. simpl.
      destruct (svc_ffmpeg svc cmd); simpl;
        exists [CallFfmpeg cmd]; repeat split.
    + exists []. rewrite app_nil_r. repeat split.
  - simpl. exists []. rewrite app_nil_r. repeat split.
Qed.

(** No iteration of the loop queries the search. *)
Lemma resolveScene_searches jobId storyboardId totalScenes i scene w :
  searches
    (calls (snd (resolveScene svc jobId storyboardId totalScenes i scene w)))
  = searches (calls w).
Proof.
  pose proof (reuseMatched_world scene w) as Hw.
  destruct (reuseMatched scene w) as [[[asset|]|msg] w'] eqn:E;
    simpl in Hw; subst w'.
  - now destruct (resolveScene_reuses svc jobId storyboardId totalScenes i
                    scene w asset E) as (_ & -> & _).
  - destruct (resolveScene_generates svc jobId storyboardId totalScenes i
                scene w E) as (tail & -> & _ & Hs).
    change (CallGenerate (Scene.sceneId scene) :: tail)
      with ([CallGenerate (Scene.sceneId scene)] ++ tail).
    rewrite !searches_app, Hs. simpl. lia.
  - unfold resolveScene, bind. now rewrite E.
Qed.

Lemma resolveScenes_searches jobId storyboardId totalScenes scenes :
  forall i w,
    searches
      (calls (snd (resolveScenes svc jobId storyboardId totalScenes i
                     scenes w)))
    = searches (calls w).
Proof.
  induction scenes as [|scene rest IH]; intros i w; [reflexivity|].
  pose proof (resolveScene_searches jobId storyboardId totalScenes i scene w)
    as Hone.
  simpl. unfold bind at 1.
  destruct (resolveScene svc jobId storyboardId totalScenes i scene w)
    as [[r|msg] w1]; simpl in Hone |- *; [|exact Hone].
  specialize (IH (S i) w1). unfold bind.
  destruct (resolveScenes svc jobId storyboardId totalScenes (S i) rest w1)
    as [[rs|msg] w2]; simpl in IH |- *; congruence.
Qed.

(** A production job never queries the search. *)
Lemma processProductionJob_searches jobId storyboardId w :
  searches (calls (snd (processProductionJob svc jobId storyboardId w)))
  = searches (calls w).
Proof.
  destruct (find (fun r => String.eqb (Db.sb_storyboardId r) storyboardId)
              (Db.storyboards (db w))) as [row|] eqn:Hrow.
  - destruct (processProductionJob_calls jobId storyboardId w row Hrow)
      as (extra & -> & _ & Hs).
    now rewrite searches_app, resolveScenes_searches, Hs, Nat.add_0_r.
  - unfold processProductionJob, tryCatch, bind, selectStoryboard,
      updateJobStatus, writeDb, readDb, ret, throw.
    simpl. now rewrite Hrow.
Qed.

End Production.

Section MatchThenProduce.

Local Open Scope R_scope.
Import Effects Routes Matcher Spec.

(** The match route marks a scene without best match for generation and
    leaves its other fields alone. *)
Lemma matchScene_no_best svc id scene w0 matches w1 :
  matchSceneToAssets svc scene w0 = (Ok matches, w1) ->
  getBestMatch matches = None ->
  matchScene svc id scene w0
  = (Ok (Scene.setResolution scene (Scene.matchedAssetId scene)
           (Scene.matchScore scene) (Some generated)
           (Scene.needsReview scene), generate), w1).
Proof.
  intros Hm Hb. unfold matchScene, tryCatch, bind.
  now rewrite Hm, Hb.
Qed.

End MatchThenProduce.

Section Idempotence.

Local Open Scope R_scope.
Import Effects Routes Spec.

(** Re-running production on a storyboard whose scenes are all reusable
    [existing] matches performs no generation. *)
Lemma production_reuses_existing svc jobId storyboardId w row :
  find (fun r => String.eqb (Db.sb_storyboardId r) storyboardId)
    (Db.storyboards (db w)) = Some row ->
  Forall (reusable (Db.sceneMatches (db w))) (Db.sb_scenesJson row) ->
  generations (calls (snd (processProductionJob svc jobId storyboardId w)))
  = generations (calls w).
Proof.
  intros Hrow Hall.
  destruct (processProductionJob_calls svc jobId storyboardId w row Hrow)
    as (extra & -> & Hg & _).
  set (w1 := snd (updateJobStatus jobId matching 0.1 None w)).
  destruct (resolveScenes_all_reused svc jobId storyboardId
              (List.length (Db.sb_scenesJson row)) (Db.sb_scenesJson row)
              0%nat w1 Hall) as (resolved & _ & _ & _ & Hcalls).
  rewrite generations_app, Hcalls, Hg. simpl. lia.
Qed.

Lemma production_reuses_existing_sample svc :
  generations
    (calls (snd (processProductionJob svc "job_1" "sb_1"
                   Samples.worldMatched)))
  = 0%nat.
Proof.
  apply (production_reuses_existing svc "job_1"%string "sb_1"%string
           Samples.worldMatched
           (Db.mkStoryboardRow "sb_1" "Morning" [Samples.sceneMatched] 1920
              1080 30) eq_refl).
  constructor; [|constructor].
  eexists. eexists. repeat split; try reflexivity. discriminate.
Qed.

(** The match route on the sample database: the scene is matched to
    [assetClose] and stored as [existing]. *)
Lemma matchScene_sample :
  matchScene Samples.services0 "sb_1" Samples.scene0 Samples.world0
  = (Ok (Samples.sceneMatched, matched),
     mkWorld
       (Db.mk (Db.storyboards (db Samples.world0))
          (Db.productionJobs (db Samples.world0))
          (Db.sceneMatches (db Samples.worldMatched)) [])
       (calls Samples.worldMatched) 0).
Proof.
  unfold matchScene, tryCatch. unfold bind at 1.
  rewrite (matchSceneToAssets_full Samples.services0 Samples.scene0
             Samples.world0 Samples.embedding0
             [Samples.assetPlain; Samples.assetNoVector; Samples.assetClose]
             eq_refl eq_refl).
  rewrite ranking_samples, getBestMatch_cons.
  unfold CONFIG.THRESHOLDS.compositeMinimum.
  cbn [AssetMatch.compositeScore Samples.matchClose].
  decide_cmp. reflexivity.
Qed.

Lemma matchRoute_sample :
  matchRoute Samples.services0 "sb_1" Samples.world0
  = (Ok 200%nat, Samples.worldMatched).
Proof.
  unfold matchRoute. unfold bind at 1.
  change (selectStoryboard "sb_1" Samples.world0)
    with (@Ok (option Db.StoryboardRow)
            (Some (Db.mkStoryboardRow "sb_1" "Morning" [Samples.scene0]
                     1920 1080 30)),
          Samples.world0).
  cbn [Db.sb_scenesJson matchScenes]. unfold bind.
  rewrite matchScene_sample. reflexivity.
Qed.

(** The override route on the sample database. *)
Lemma overrideRoute_sample :
  overrideRoute "sb_1" "sc_1" (Some "asset_42"%string)
    (Some "/media/a42.mp4"%string) Samples.world0
  = (Ok 200%nat, Samples.worldManual).
Proof. reflexivity. Qed.

End Idempotence.

(** C1 does not hold for a scene the operator has overridden.  On the
    sample storyboard the operator overrides the only scene (the override
    route answers 200 and stores the scene as [manual] with asset
    [asset_42] and its row in [scene_matches]); a production job started
    after that does not reuse the manual resolution: whatever the
    collaborators answer, it calls the generator for the scene, exactly
    once.  When they all
    answer, the stored scene ends up [generated] and ffmpeg is given the
    generated file, not the operator's asset. *)
Theorem manual_override_is_regenerated :
  forall svc,
    Routes.overrideRoute "sb_1" "sc_1" (Some "asset_42"%string)
      (Some "/media/a42.mp4"%string) Samples.world0
    = (Ok 200%nat, Samples.worldManual)
    /\ Scene.assetSource Samples.sceneManual = Some manual
    /\ Scene.matchedAssetId Samples.sceneManual = Some "asset_42"%string
    /\ (exists tail,
           Effects.calls
             (snd (Routes.processProductionJob svc "job_1" "sb_1"
                     Samples.worldManual))
           = Effects.CallGenerate "sc_1" :: tail)
    /\ Effects.generations
         (Effects.calls
            (snd (Routes.processProductionJob svc "job_1" "sb_1"
                    Samples.worldManual)))
       = 1%nat
    /\ map Db.sb_scenesJson
         (Db.storyboards
            (Effects.db
               (snd (Routes.processProductionJob Samples.services0 "job_1"
                       "sb_1" Samples.worldManual))))
       = [[Scene.setResolution Samples.sceneManual
             (Some "gen_Ab12Cd34"%string) (Some 1.0%R) (Some generated)
             false]]
    /\ exists cmd,
         Effects.calls
           (snd (Routes.processProductionJob Samples.services0 "job_1"
                   "sb_1" Samples.worldManual))
         = [Effects.CallGenerate "sc_1"; Effects.CallCatalog "sc_1";
            Effects.CallFfmpeg cmd]
         /\ Assembler.inputs cmd
            = [Assembler.ConcatListFile
                 ["/Volumes/STUDIO/VIDEO/gen_sc_1.mp4"%string]].
Proof.
  intros svc.
  split; [exact overrideRoute_sample|].
  split; [reflexivity|]. split; [reflexivity|].
  destruct (processProductionJob_calls svc "job_1"%string "sb_1"%string
              Samples.worldManual
              (Db.mkStoryboardRow "sb_1" "Morning" [Samples.sceneManual]
                 1920 1080 30) eq_refl)
    as (extra & Hcalls & Hg & _).
  rewrite Hcalls. cbn [Db.sb_scenesJson List.length].
  rewrite resolveScenes_single.
  set (w1 := snd (Routes.updateJobStatus "job_1" matching 0.1 None
                    Samples.worldManual)).
  destruct (resolveScene_generates svc "job_1"%string "sb_1"%string 1%nat
              0%nat Samples.sceneManual w1) as (tail & -> & Ht & _).
  { apply reuseMatched_not_existing. simpl. discriminate. }
  split; [exists (tail ++ extra); reflexivity|].
  split.
  - change (Effects.calls w1) with (@nil Effects.Call). simpl.
    change (Effects.CallGenerate "sc_1" :: tail ++ extra)
      with ([Effects.CallGenerate "sc_1"] ++ tail ++ extra).
    rewrite !generations_app, Ht, Hg. reflexivity.
  - split; [reflexivity|].
    eexists. split; reflexivity.
Qed.

(* ------------------------------------------------------------------ *)
(** * Further properties of the matcher *)

Section ScoreRanges.

Local Open Scope R_scope.
Import Matcher Spec.

Lemma ratio_unit (m n : nat) :
  (m <= n)%nat -> 0 <= INR m / INR (Nat.max n 1) <= 1.
Proof.
  intros Hmn.
  assert (0 < INR (Nat.max n 1)) as Hpos by (apply lt_0_INR; lia).
  assert (INR m <= INR (Nat.max n 1)) as Hle by (apply le_INR; lia).
  pose proof (pos_INR m) as Hm.
  split.
  - apply Rmult_le_reg_r with (INR (Nat.max n 1)); [exact Hpos|].
    unfold Rdiv. rewrite Rmult_assoc, Rinv_l by lra. lra.
  - apply Rmult_le_reg_r with (INR (Nat.max n 1)); [exact Hpos|].
    unfold Rdiv. rewrite Rmult_assoc, Rinv_l by lra. lra.
Qed.

Lemma calculateStyleScore_range scene asset :
  0 <= calculateStyleScore scene asset <= 1.
Proof.
  unfold calculateStyleScore.
  destruct (_ || _); [lra|].
  apply ratio_unit, filter_length_le.
Qed.

Lemma calculateUseCaseScore_range scene asset :
  0 <= calculateUseCaseScore scene asset <= 1.
Proof.
  unfold calculateUseCaseScore.
  destruct (LanceDBAsset.use_case asset) as [u|]; [|lra].
  destruct (String.eqb u ""); [lra|].
  match goal with
  | |- context [Rmin ?r 1] =>
      assert (0 <= r <= 1) as Hr by (apply ratio_unit, filter_length_le);
      unfold Rmin; destruct (Rle_dec r 1); lra
  end.
Qed.

Lemma calculateDurationScore_range scene asset :
  0.3 <= calculateDurationScore scene asset
  /\ (0 < Scene.duration scene -> calculateDurationScore scene asset <= 1).
Proof.
  unfold calculateDurationScore.
  destruct (LanceDBAsset.duration asset) as [d|]; [|lra].
  destruct (_ || _); [lra|].
  destruct (JS.geb d (Scene.duration scene)) eqn:G; [lra|].
  apply geb_false_iff in G.
  split.
  - unfold Rmax. destruct (Rle_dec _ _); lra.
  - intros Hpos.
    assert (d / Scene.duration scene <= 1).
    { apply Rmult_le_reg_r with (Scene.duration scene); [exact Hpos|].
      unfold Rdiv. rewrite Rmult_assoc, Rinv_l by lra. lra. }
    unfold Rmax. destruct (Rle_dec _ _); lra.
Qed.


End ScoreRanges.

Section ReturnedMatches.

Local Open Scope R_scope.
Import Matcher Spec MatcherSpec CONFIG Effects.

(** X2. The style score and the use-case score lie in [[0,1]] for every
    scene and asset, also when tags, style or use case are missing or
    empty. *)
Theorem keyword_scores_range :
  forall scene asset,
    unit_interval (calculateStyleScore scene asset)
    /\ unit_interval (calculateUseCaseScore scene asset).
Proof.
  intros scene asset. split.
  - apply calculateStyleScore_range.
  - apply calculateUseCaseScore_range.
Qed.

(** X3. The duration score is never below 0.3; for a scene of positive
    duration it is at most 1, and it is exactly 1 when the asset is a
    video at least as long as the scene. *)
Theorem calculateDurationScore_floor :
  forall scene asset,
    0.3 <= calculateDurationScore scene asset
    /\ (0 < Scene.duration scene ->
        calculateDurationScore scene asset <= 1
        /\ forall d,
             LanceDBAsset.duration asset = Some d ->
             LanceDBAsset.media_type asset = "video"%string ->
             Scene.duration scene <= d ->
             calculateDurationScore scene asset = 1).
Proof.
  intros scene asset.
  destruct (calculateDurationScore_range scene asset) as [Hlo Hhi].
  split; [exact Hlo|]. intros Hpos. split; [auto|].
  intros d Hd Hm Hle. unfold calculateDurationScore.
  rewrite Hd, Hm. simpl.
  rewrite (proj2 (eqb_false_iff d 0)) by lra. simpl.
  rewrite (proj2 (geb_true_iff d (Scene.duration scene)) Hle). lra.
Qed.

Lemma calculateDurationScore_floor_witness :
  calculateDurationScore Samples.sceneA Samples.assetPlain <= 1.
Proof.
  assert (0 < Scene.duration Samples.sceneA) as H by (simpl; lra).
  exact (proj1 (proj2 (calculateDurationScore_floor Samples.sceneA
                         Samples.assetPlain) H)).
Defined.




End ReturnedMatches.

Section Ranking.

Local Open Scope R_scope.
Import Matcher Spec MatcherSpec CONFIG Effects.

(** X9. [matchSceneToAssets] asks for exactly one embedding, of the
    search text, and then makes at most one search, for 20 candidates.
    When the embedding request fails it rejects with that error without
    searching; when the search fails it rejects with the search's error. *)
Theorem matchSceneToAssets_calls :
  forall svc scene w,
    (forall msg,
        svc_generateEmbedding svc (searchText scene) = Throw msg ->
        matchSceneToAssets svc scene w
        = (Throw msg,
           mkWorld (db w) (calls w ++ [CallEmbedding (searchText scene)])
             (idsDrawn w)))
    /\ (forall embedding msg,
           svc_generateEmbedding svc (searchText scene) = Ok embedding ->
           svc_searchLanceDB svc embedding 20%nat (mediaTypeFor scene)
           = Throw msg ->
           matchSceneToAssets svc scene w
           = (Throw msg,
              mkWorld (db w)
                (calls w ++ [CallEmbedding (searchText scene);
                             CallSearch 20 (mediaTypeFor scene)])
                (idsDrawn w)))
    /\ (exists rest,
           calls (snd (matchSceneToAssets svc scene w))
           = calls w ++ CallEmbedding (searchText scene) :: rest
           /\ (rest = [] \/ rest = [CallSearch 20 (mediaTypeFor scene)]))
    /\ db (snd (matchSceneToAssets svc scene w)) = db w.
Proof.
  intros svc scene w.
  unfold matchSceneToAssets, generateEmbedding, searchLanceDB, bind, logCall,
    liftResult, ret. simpl.
  split; [intros msg ->; reflexivity|].
  split.
  - intros e msg -> Hs. simpl. rewrite Hs. now rewrite <- app_assoc.
  - destruct (svc_generateEmbedding svc (searchText scene)) as [e|msg];
      simpl.
    + destruct (svc_searchLanceDB svc e 20%nat (mediaTypeFor scene));
        simpl; (split; [|reflexivity]);
        exists [CallSearch 20 (mediaTypeFor scene)];
        rewrite <- app_assoc; auto.
    + split; [|reflexivity]. exists []. auto.
Qed.

Lemma matchSceneToAssets_calls_witness :
  matchSceneToAssets Cases.servicesNoEmbedding Samples.scene0 Samples.world0
  = (Throw "fetch failed"%string,
     mkWorld (db Samples.world0)
       (calls Samples.world0 ++ [CallEmbedding (searchText Samples.scene0)])
       (idsDrawn Samples.world0)).
Proof.
  exact (proj1 (matchSceneToAssets_calls Cases.servicesNoEmbedding
                  Samples.scene0 Samples.world0)
           "fetch failed"%string eq_refl).
Defined.

End Ranking.

(* ------------------------------------------------------------------ *)
(** * Further properties of the assembler *)

Section GraphShape.

Local Open Scope R_scope.
Import Assembler Spec AssemblerSpec.

Variable n : nat.
Variable scenes : list Scene.t.
Variable norm : Normalize.

Lemma chain_S k :
  fold_left (chainStep n scenes) (seq 1 (S k))
    (mkChain (Scaled 0) 0 (scaleParts n norm))
  = chainStep n scenes
      (fold_left (chainStep n scenes) (seq 1 k)
         (mkChain (Scaled 0) 0 (scaleParts n norm)))
      (S k).
Proof. rewrite seq_S, fold_left_app. reflexivity. Qed.

(** The part one iteration appends, given the label it reads from. *)
Lemma chainStep_junction st k :
  currentInput st = junctionIn n scenes (S k) ->
  offset (chainStep n scenes st (S k))
  = durationOfFirst scenes (S k) - INR k * transitionDuration ->
  filterParts (chainStep n scenes st (S k))
  = filterParts st ++ [junctionPart n scenes (S k)]
  /\ ((S k <> n - 1)%nat ->
      currentInput (chainStep n scenes st (S k))
      = junctionIn n scenes (S (S k))).
Proof.
  intros Hcur Hoff. rewrite chainStep_offset in Hoff.
  unfold chainStep. cbv zeta. rewrite Hoff, Hcur.
  replace (durationOfFirst scenes (S k) - INR k * transitionDuration
           - transitionDuration)
    with (durationOfFirst scenes (S k) - INR (S k) * transitionDuration)
    by (rewrite S_INR; lra).
  split.
  - unfold junctionPart, junctionOut.
    destruct (sceneTransitionOut scenes (S k - 1));
      cbn [TransitionType_eqb negb];
      destruct (S k =? n - 1)%nat; reflexivity.
  - intros Hne. apply Nat.eqb_neq in Hne. rewrite Hne.
    unfold junctionIn. change (S (S k) =? 1)%nat with false. cbv iota.
    replace (S (S k) - 1)%nat with (S k) by lia.
    unfold junctionOut. rewrite Hne.
    destruct (sceneTransitionOut scenes (S k - 1)); reflexivity.
Qed.

Lemma chain_parts k :
  (k <= n - 1)%nat ->
  filterParts
    (fold_left (chainStep n scenes) (seq 1 k)
       (mkChain (Scaled 0) 0 (scaleParts n norm)))
  = scaleParts n norm ++ map (junctionPart n scenes) (seq 1 k)
  /\ ((k < n - 1)%nat ->
      currentInput
        (fold_left (chainStep n scenes) (seq 1 k)
           (mkChain (Scaled 0) 0 (scaleParts n norm)))
      = junctionIn n scenes (S k)).
Proof.
  induction k as [|k IH]; intros Hk.
  - simpl. rewrite app_nil_r. split; reflexivity.
  - destruct IH as [Hparts Hcur]; [lia|].
    specialize (Hcur ltac:(lia)).
    rewrite chain_S.
    destruct (chainStep_junction _ k Hcur) as [Hp Hc].
    { rewrite <- chain_S.
      apply (offsetAtJunction_closed_form n scenes norm k). }
    split.
    + rewrite Hp, Hparts, seq_S, map_app, <- app_assoc. reflexivity.
    + intros Hlt. apply Hc. lia.
Qed.

End GraphShape.

Section GraphWiring.

Local Open Scope R_scope.
Import Assembler Spec AssemblerSpec.

Lemma Label_eqb_refl l : Label_eqb l l = true.
Proof. destruct l; simpl; auto using Nat.eqb_refl. Qed.

Lemma junctionPart_io n scenes i :
  inputsOf (junctionPart n scenes i) = [junctionIn n scenes i; Scaled i]
  /\ outLabel (junctionPart n scenes i) = junctionOut n scenes i
  /\ isScale (junctionPart n scenes i) = false.
Proof.
  unfold junctionPart.
  destruct (sceneTransitionOut scenes (i - 1)); repeat split.
Qed.

Lemma junctionOut_not_scaled n scenes i j :
  Label_eqb (junctionOut n scenes i) (Scaled j) = false.
Proof.
  unfold junctionOut. destruct (i =? n - 1)%nat; [reflexivity|].
  destruct (sceneTransitionOut scenes (i - 1)); reflexivity.
Qed.

Lemma consume_last l xs :
  Forall (fun x => Label_eqb l x = false) xs ->
  consume l (xs ++ [l]) = Some xs.
Proof.
  induction 1 as [|x xs Hx _ IH]; simpl.
  - now rewrite Label_eqb_refl.
  - now rewrite Hx, IH.
Qed.

(** The scale filters turn the ffmpeg inputs into the scaled streams. *)
Lemma connect_scales norm rest m :
  forall a acc,
    connect (map InputVideo (seq a m) ++ acc)
      (map (fun i => ScaleFilter (InputVideo i) norm (Scaled i)) (seq a m)
       ++ rest)
    = connect (acc ++ map Scaled (seq a m)) rest.
Proof.
  induction m as [|m IH]; intros a acc; simpl.
  - now rewrite app_nil_r.
  - rewrite Nat.eqb_refl. simpl. rewrite <- app_assoc, IH, <- app_assoc.
    reflexivity.
Qed.

(** From junction [k + 1] on, each junction joins the result of the
    junction before with the next scaled stream, and the last one leaves
    [[outv]] alone. *)
Lemma connect_junctions n scenes m :
  forall k,
    (1 <= k)%nat ->
    (k + m = n - 1)%nat ->
    connect (map Scaled (seq (S k) m) ++ [junctionOut n scenes k])
      (map (junctionPart n scenes) (seq (S k) m))
    = Some [Outv].
Proof.
  induction m as [|m IH]; intros k Hk Hn.
  - simpl. unfold junctionOut.
    replace (k =? n - 1)%nat with true by (symmetry; apply Nat.eqb_eq; lia).
    reflexivity.
  - cbn [seq map connect].
    destruct (junctionPart_io n scenes (S k)) as (-> & -> & _).
    unfold junctionIn at 1. change (S k =? 1)%nat with (k =? 0)%nat.
    replace (k =? 0)%nat with false by (symmetry; apply Nat.eqb_neq; lia).
    replace (S k - 1)%nat with k by lia.
    cbn [consumeAll app].
    change (Scaled (S k) :: map Scaled (seq (S (S k)) m)
            ++ [junctionOut n scenes k])
      with ((Scaled (S k) :: map Scaled (seq (S (S k)) m))
            ++ [junctionOut n scenes k]).
    rewrite consume_last.
    + cbn [consume Label_eqb]. rewrite Nat.eqb_refl.
      apply IH; lia.
    + apply Forall_forall. intros x Hx.
      change (Scaled (S k) :: map Scaled (seq (S (S k)) m))
        with (map Scaled (seq (S k) (S m))) in Hx.
      apply in_map_iff in Hx as (j & <- & _).
      apply junctionOut_not_scaled.
Qed.

End GraphWiring.

Section TransitionGraph.

Local Open Scope R_scope.
Import Assembler Spec AssemblerSpec.

Lemma applyTransitions_closed n scenes norm :
  filterParts (applyTransitions n scenes norm)
  = scaleParts n norm ++ map (junctionPart n scenes) (seq 1 (n - 1)).
Proof.
  unfold applyTransitions.
  now destruct (chain_parts n scenes norm (n - 1) (Nat.le_refl _)) as [-> _].
Qed.

(** X10. With two assets or more, the filter graph built by
    [assembleWithTransitions] is the scale filters of all inputs followed
    by one junction for each pair of neighbouring clips: after a [cut] a
    two-input [concat], otherwise an [xfade] (named [wipeleft] for
    [wipe]) of 0.5 s that starts at the total duration of the clips
    before it minus 0.5 s for every junction up to and including it,
    whether those junctions are cuts or transitions. *)
Theorem transition_graph_closed_form :
  forall assets scenes options,
    (2 <= List.length assets)%nat ->
    assembleWithTransitions assets scenes options
    = Ok (mkCommand
            (map (fun a => InputFile (ResolvedAsset.localPath a)) assets)
            None
            (scaleParts (List.length assets) (normalizeOf options)
             ++ map (junctionPart (List.length assets) scenes)
                  (seq 1 (List.length assets - 1)))
            (Some Outv) (outputPath options)).
Proof.
  intros assets scenes options Hn.
  destruct (assembleWithTransitions_chain assets scenes options Hn)
    as (_ & ->).
  now rewrite applyTransitions_closed.
Qed.

Lemma transition_graph_closed_form_witness :
  assembleWithTransitions
    [Samples.resolvedA; Samples.resolvedB; Samples.resolvedC]
    [Samples.sceneA; Samples.sceneB; Samples.sceneC] Samples.options0
  = Ok (mkCommand
          [InputFile "/media/a1.mp4"; InputFile "/media/a2.mp4";
           InputFile "/media/a3.mp4"]
          None
          (scaleParts 3 (normalizeOf Samples.options0)
           ++ map (junctionPart 3
                     [Samples.sceneA; Samples.sceneB; Samples.sceneC])
                [1%nat; 2%nat])
          (Some Outv) "/Volumes/STUDIO/VIDEO/out.mp4").
Proof.
  apply (transition_graph_closed_form
           [Samples.resolvedA; Samples.resolvedB; Samples.resolvedC]
           [Samples.sceneA; Samples.sceneB; Samples.sceneC]
           Samples.options0).
  simpl. lia.
Defined.

(** X11. With two assets or more the filter graph is wired in order:
    every part reads only streams that an earlier part or an ffmpeg input
    provides and that no part before it has taken, and once all parts are
    connected the only stream left is [[outv]], the one the command
    maps. *)
Theorem transition_graph_wired :
  forall assets scenes options cmd,
    (2 <= List.length assets)%nat ->
    assembleWithTransitions assets scenes options = Ok cmd ->
    connect (map InputVideo (seq 0 (List.length assets)))
      (complexFilter cmd)
    = Some [Outv]
    /\ mapOutput cmd = Some Outv
    /\ List.length (inputs cmd) = List.length assets.
Proof.
  intros assets scenes options cmd Hn Hcmd.
  destruct (assembleWithTransitions_chain assets scenes options Hn)
    as (_ & Hchain).
  rewrite Hchain, applyTransitions_closed in Hcmd.
  injection Hcmd as <-. cbn [complexFilter mapOutput inputs].
  split; [|split; [reflexivity | apply length_map]].
  set (n := List.length assets) in *.
  unfold scaleParts.
  rewrite <- (app_nil_r (map InputVideo (seq 0 n))).
  rewrite connect_scales. cbn [app].
  destruct n as [|[|m]]; try lia.
  replace (S (S m) - 1)%nat with (S m) by lia.
  cbn [seq map connect].
  destruct (junctionPart_io (S (S m)) scenes 1) as (-> & -> & _).
  cbn [junctionIn Nat.eqb consumeAll consume Label_eqb app].
  apply connect_junctions; lia.
Qed.

Lemma transition_graph_wired_witness :
  exists cmd,
    assembleWithTransitions
      [Samples.resolvedA; Samples.resolvedB; Samples.resolvedC]
      [Samples.sceneA; Samples.sceneB; Samples.sceneC] Samples.options0
    = Ok cmd
    /\ connect [InputVideo 0; InputVideo 1; InputVideo 2] (complexFilter cmd)
       = Some [Outv].
Proof.
  assert (2 <= List.length
                 [Samples.resolvedA; Samples.resolvedB; Samples.resolvedC])%nat
    as Hn by (simpl; lia).
  destruct (assembleWithTransitions_chain
              [Samples.resolvedA; Samples.resolvedB; Samples.resolvedC]
              [Samples.sceneA; Samples.sceneB; Samples.sceneC]
              Samples.options0 Hn) as (_ & Hcmd).
  eexists. split; [exact Hcmd|].
  exact (proj1 (transition_graph_wired
                  [Samples.resolvedA; Samples.resolvedB; Samples.resolvedC]
                  [Samples.sceneA; Samples.sceneB; Samples.sceneC]
                  Samples.options0 _ Hn Hcmd)).
Defined.

End TransitionGraph.

Section PlanEdges.

Local Open Scope R_scope.
Import Assembler Spec.

Lemma hasTransitions_nonempty storyboard :
  hasTransitions storyboard = true -> Storyboard.scenes storyboard <> [].
Proof.
  unfold hasTransitions. intros H Hnil. rewrite Hnil in H. discriminate.
Qed.

(** A command is always built when there are as many assets as scenes. *)
Lemma assembleStoryboard_builds storyboard assets outputPath :
  List.length assets = List.length (Storyboard.scenes storyboard) ->
  exists cmd,
    Assembler.assembleStoryboard storyboard assets outputPath = Ok cmd.
Proof.
  intros Hlen. unfold Assembler.assembleStoryboard.
  destruct (Storyboard.outputResolution storyboard) as [width height].
  destruct (hasTransitions storyboard) eqn:Ht; [|eauto].
  apply hasTransitions_nonempty in Ht.
  destruct assets as [|a [|b rest]].
  - destruct (Storyboard.scenes storyboard); [contradiction|discriminate].
  - eexists. reflexivity.
  - match goal with
    | |- context [assembleWithTransitions ?l ?sc ?opt] =>
        destruct (assembleWithTransitions_chain l sc opt) as (_ & ->);
        [simpl; lia | eauto]
    end.
Qed.

(** X12. Without any asset, [assembleStoryboard] throws while building
    the filter graph when the storyboard has a transition, and otherwise
    builds a concatenation command over an empty list; with as many
    assets as scenes it always builds a command. *)
Theorem assembleStoryboard_edges :
  forall storyboard outputPath,
    (hasTransitions storyboard = true ->
     exists msg,
       Assembler.assembleStoryboard storyboard [] outputPath = Throw msg)
    /\ (hasTransitions storyboard = false ->
        exists cmd,
          Assembler.assembleStoryboard storyboard [] outputPath = Ok cmd
          /\ inputs cmd = [ConcatListFile []]
          /\ complexFilter cmd = [])
    /\ (forall assets,
           List.length assets = List.length (Storyboard.scenes storyboard) ->
           exists cmd,
             Assembler.assembleStoryboard storyboard assets outputPath
             = Ok cmd).
Proof.
  intros storyboard outputPath.
  split; [|split].
  - intros Ht. unfold Assembler.assembleStoryboard.
    destruct (Storyboard.outputResolution storyboard). rewrite Ht.
    eexists. reflexivity.
  - intros Ht. unfold Assembler.assembleStoryboard.
    destruct (Storyboard.outputResolution storyboard). rewrite Ht.
    eexists. split; [reflexivity|]. split; reflexivity.
  - intros assets. apply assembleStoryboard_builds.
Qed.

Lemma assembleStoryboard_edges_witness :
  (exists msg,
      Assembler.assembleStoryboard Samples.storyboardFadeCut []
        "/Volumes/STUDIO/VIDEO/out.mp4" = Throw msg)
  /\ (exists cmd,
         Assembler.assembleStoryboard Samples.storyboardCuts []
           "/Volumes/STUDIO/VIDEO/out.mp4" = Ok cmd
         /\ inputs cmd = [ConcatListFile []]
         /\ complexFilter cmd = []).
Proof.
  split.
  - exact (proj1 (assembleStoryboard_edges Samples.storyboardFadeCut
                    "/Volumes/STUDIO/VIDEO/out.mp4") eq_refl).
  - exact (proj1 (proj2 (assembleStoryboard_edges Samples.storyboardCuts
                           "/Volumes/STUDIO/VIDEO/out.mp4")) eq_refl).
Defined.

End PlanEdges.

(* ------------------------------------------------------------------ *)
(** * Further properties of the routes *)

Section Frames.

Local Open Scope R_scope.
Import Effects Routes Spec RoutesSpec.

Lemma sameShot_refl s : sameShot s s.
Proof. unfold sameShot. repeat split. Qed.

Lemma sameShot_setResolution s aid score src review :
  sameShot s (Scene.setResolution s aid score src review).
Proof. unfold sameShot. repeat split. Qed.

Lemma sameShot_trans s1 s2 s3 : sameShot s1 s2 -> sameShot s2 s3 -> sameShot s1 s3.
Proof. unfold sameShot. intuition congruence. Qed.

Lemma onlyJobTouched_refl jobId l : onlyJobTouched jobId l l.
Proof. induction l; constructor; auto. Qed.

Lemma onlyJobTouched_trans jobId l1 l2 l3 :
  onlyJobTouched jobId l1 l2 -> onlyJobTouched jobId l2 l3 ->
  onlyJobTouched jobId l1 l3.
Proof.
  unfold onlyJobTouched. intros H. revert l3.
  induction H as [|r r' l1 l2 (Hid & Hsb & Hother) _ IH]; intros l3 H23;
    inversion H23 as [|? r'' ? l3' (Hid' & Hsb' & Hother') Hrest]; subst;
    constructor; auto.
  repeat split; try congruence.
  intros Hne. rewrite Hother' by congruence. auto.
Qed.

Lemma onlyJobTouched_update jobId g l :
  (forall r, Db.job_jobId (g r) = Db.job_jobId r
             /\ Db.job_storyboardId (g r) = Db.job_storyboardId r) ->
  onlyJobTouched jobId l
    (map (fun r => if String.eqb (Db.job_jobId r) jobId then g r else r) l).
Proof.
  intros Hg. induction l as [|r l IH]; simpl; constructor; auto.
  destruct (String.eqb (Db.job_jobId r) jobId) eqn:E.
  - destruct (Hg r). repeat split; auto.
    apply String.eqb_eq in E. contradiction.
  - repeat split.
Qed.

Lemma updateJobStatus_jobs jobId status progress outputPath w :
  onlyJobTouched jobId (Db.productionJobs (db w))
    (Db.productionJobs
       (db (snd (updateJobStatus jobId status progress outputPath w)))).
Proof.
  unfold updateJobStatus, writeDb. simpl.
  apply (onlyJobTouched_update jobId
           (fun r => Db.mkJobRow (Db.job_jobId r) (Db.job_storyboardId r)
                       status progress
                       (match outputPath with
                        | Some p => Some p
                        | None => Db.job_outputPath r
                        end) (Db.job_error r))).
  intros r. split; reflexivity.
Qed.

Lemma failJob_jobs jobId msg w :
  onlyJobTouched jobId (Db.productionJobs (db w))
    (Db.productionJobs (db (snd (failJob jobId msg w)))).
Proof.
  unfold failJob, writeDb. simpl.
  apply (onlyJobTouched_update jobId
           (fun r => Db.mkJobRow (Db.job_jobId r) (Db.job_storyboardId r)
                       failed (Db.job_progress r) (Db.job_outputPath r)
                       (Some msg))).
  intros r. split; reflexivity.
Qed.

(** A row of job [jobId] after an update that rewrites the rows of that
    job with [g]. *)
Lemma updated_row jobId g l r' :
  (forall r, Db.job_jobId (g r) = Db.job_jobId r) ->
  In r' (map (fun r => if String.eqb (Db.job_jobId r) jobId then g r else r)
           l) ->
  Db.job_jobId r' = jobId ->
  exists r, In r l /\ r' = g r.
Proof.
  intros Hg Hin Hid. apply in_map_iff in Hin as (r & Hr & Hin).
  exists r. split; [exact Hin|].
  destruct (String.eqb (Db.job_jobId r) jobId) eqn:E; [auto|].
  subst r'. apply String.eqb_neq in E. contradiction.
Qed.

Variable svc : Services.

(** What one iteration of the loop leaves alone, what it returns and what
    can make it throw. *)
Lemma resolveScene_frame jobId storyboardId totalScenes i scene w :
  let run := resolveScene svc jobId storyboardId totalScenes i scene w in
  Db.storyboards (db (snd run)) = Db.storyboards (db w)
  /\ Db.sceneMatches (db (snd run)) = Db.sceneMatches (db w)
  /\ onlyJobTouched jobId (Db.productionJobs (db w))
       (Db.productionJobs (db (snd run)))
  /\ ffmpegRuns (calls (snd run)) = ffmpegRuns (calls w)
  /\ (forall msg,
         fst run = Throw msg ->
         (svc_generateVideoForScene svc scene = Throw msg
          \/ (msg = uniqueViolation
              /\ exists g, svc_generateVideoForScene svc scene = Ok g))
         /\ Db.generatedAssets (db (snd run)) = Db.generatedAssets (db w)
         /\ calls (snd run) = calls w ++ [CallGenerate (Scene.sceneId scene)])
  /\ (forall scene' asset,
         fst run = Ok (scene', asset) ->
         resolvedFrom scene (scene', asset)
         /\ ((scene' = scene
              /\ Scene.assetSource scene = Some existing
              /\ ResolvedAsset.source asset = existing
              /\ Db.generatedAssets (db (snd run))
                 = Db.generatedAssets (db w)
              /\ calls (snd run) = calls w)
             \/ (exists g,
                    svc_generateVideoForScene svc scene = Ok g
                    /\ ResolvedAsset.source asset = generated
                    /\ ResolvedAsset.localPath asset = gen_filepath g
                    /\ generations (calls (snd run))
                       = S (generations (calls w))))).
Proof.
  intros run.
  assert (Hrun : run
                 = resolveScene svc jobId storyboardId totalScenes i scene w)
    by reflexivity.
  clearbody run.
  assert (Hjobs : forall status,
             onlyJobTouched jobId (Db.productionJobs (db w))
               (map (fun r =>
                       if String.eqb (Db.job_jobId r) jobId
                       then Db.mkJobRow (Db.job_jobId r)
                              (Db.job_storyboardId r) status
                              (0.1 + 0.7 * (INR i / INR totalScenes))
                              (Db.job_outputPath r) (Db.job_error r)
                       else r)
                  (Db.productionJobs (db w)))).
  { intros status.
    apply (onlyJobTouched_update jobId
             (fun r => Db.mkJobRow (Db.job_jobId r)
                         (Db.job_storyboardId r) status
                         (0.1 + 0.7 * (INR i / INR totalScenes))
                         (Db.job_outputPath r) (Db.job_error r))).
    intros r. split; reflexivity. }
  pose proof (reuseMatched_world scene w) as Hw.
  unfold resolveScene in Hrun. unfold bind at 1 in Hrun.
  destruct (reuseMatched scene w) as [[[asset|]|msg] w'] eqn:E;
    simpl in Hw; subst w'.
  - unfold bind, ret, updateJobStatus, writeDb in Hrun. simpl in Hrun.
    subst run. simpl.
    split; [reflexivity|]. split; [reflexivity|].
    split; [apply Hjobs|]. split; [reflexivity|].
    split; [intros msg H; discriminate|].
    intros scene' asset' [= <- <-].
    unfold reuseMatched in E.
    destruct (Scene.matchedAssetId scene) as [aid|] eqn:Ha;
      [|discriminate].
    destruct (Scene.assetSource scene) as [[| |]|] eqn:Hs;
      try discriminate.
    destruct (String.eqb aid ""); [discriminate|].
    unfold bind, selectSceneMatch, readDb, ret in E. simpl in E.
    destruct (find _ _); [|discriminate].
    injection E as <-. unfold resolvedFrom. simpl.
    split.
    + split; [apply sameShot_refl|].
      split; [split; [now left | eauto]|].
      repeat split; auto.
    + left. repeat split; auto.
  - unfold bind, updateJobStatus, writeDb, generateVideoForScene, logCall,
      liftResult in Hrun. simpl in Hrun.
    destruct (svc_generateVideoForScene svc scene) as [g|msg] eqn:G;
      simpl in Hrun.
    + unfold insertGeneratedAsset, bind, readDb, throw, writeDb in Hrun.
      simpl in Hrun.
      destruct (existsb _ _); simpl in Hrun.
      { subst run. simpl.
        split; [reflexivity|]. split; [reflexivity|].
        split; [apply Hjobs|].
        split;
          [unfold ffmpegRuns; rewrite !filter_app, !length_app; simpl; lia|].
        split; [|intros scene' asset' H; discriminate].
        intros msg' [= <-]. repeat split. right. split; [reflexivity|].
        now exists g. }
      unfold tryCatch, bind, catalogGeneratedAsset, logCall, liftResult
        in Hrun.
      simpl in Hrun.
      destruct (svc_catalogGeneratedAsset svc _ _ _ _); simpl in Hrun;
        subst run; simpl;
        (split; [reflexivity|]; split; [reflexivity|];
         split; [apply Hjobs|];
         split;
         [unfold ffmpegRuns; rewrite !filter_app, !length_app; simpl; lia|];
         split; [intros msg0 H; discriminate|];
         intros scene' asset' [= <- <-]; unfold resolvedFrom; simpl;
         split;
         [split; [apply sameShot_setResolution|];
          split; [split; [now right | eexists; reflexivity]|];
          repeat split
         |right; exists g; repeat split;
          unfold generations; rewrite !filter_app, !length_app; simpl; lia]).
    + subst run. simpl.
      split; [reflexivity|]. split; [reflexivity|].
      split; [apply Hjobs|].
      split;
        [unfold ffmpegRuns; rewrite !filter_app, !length_app; simpl; lia|].
      split; [|intros scene' asset' H; discriminate].
      intros msg' [= <-]. repeat split. now left.
  - exfalso.
    unfold reuseMatched in E.
    destruct (Scene.matchedAssetId scene) as [aid|]; [|discriminate].
    destruct (Scene.assetSource scene) as [[| |]|]; try discriminate.
    destruct (String.eqb aid ""); [discriminate|].
    unfold bind, selectSceneMatch, readDb, ret in E. simpl in E.
    destruct (find _ _); discriminate.
Qed.

(** The loop over the scenes: what it leaves alone, what makes it throw
    and what it returns. *)
Lemma resolveScenes_frame jobId storyboardId totalScenes scenes :
  forall i w,
    let run := resolveScenes svc jobId storyboardId totalScenes i scenes w in
    Db.storyboards (db (snd run)) = Db.storyboards (db w)
    /\ Db.sceneMatches (db (snd run)) = Db.sceneMatches (db w)
    /\ onlyJobTouched jobId (Db.productionJobs (db w))
         (Db.productionJobs (db (snd run)))
    /\ ffmpegRuns (calls (snd run)) = ffmpegRuns (calls w)
    /\ (forall msg,
           fst run = Throw msg ->
           exists scene before,
             In scene scenes
             /\ (svc_generateVideoForScene svc scene = Throw msg
                 \/ (msg = uniqueViolation
                     /\ exists g, svc_generateVideoForScene svc scene = Ok g))
             /\ calls (snd run)
                = before ++ [CallGenerate (Scene.sceneId scene)])
    /\ (forall rs, fst run = Ok rs -> Forall2 resolvedFrom scenes rs).
Proof.
  induction scenes as [|scene rest IH]; intros i w run.
  - subst run. simpl.
    split; [reflexivity|]. split; [reflexivity|].
    split; [apply onlyJobTouched_refl|]. split; [reflexivity|].
    split; [intros msg H; discriminate|].
    intros rs [= <-]. constructor.
  - assert (Hrun : run
                   = resolveScenes svc jobId storyboardId totalScenes i
                       (scene :: rest) w) by reflexivity.
    clearbody run. simpl in Hrun. unfold bind at 1 in Hrun.
    pose proof (resolveScene_frame jobId storyboardId totalScenes i scene w)
      as (Hsb & Hsm & Hjobs & Hff & Hthrow & Hok).
    destruct (resolveScene svc jobId storyboardId totalScenes i scene w)
      as [[[scene' asset]|msg] w1];
      simpl in Hsb, Hsm, Hjobs, Hff, Hthrow, Hok.
    + unfold bind at 1 in Hrun.
      pose proof (IH (S i) w1)
        as (Hsb' & Hsm' & Hjobs' & Hff' & Hthrow' & Hok').
      destruct (resolveScenes svc jobId storyboardId totalScenes (S i) rest
                  w1) as [[rs|msg] w2];
        simpl in Hsb', Hsm', Hjobs', Hff', Hthrow', Hok'; subst run; simpl.
      * split; [congruence|]. split; [congruence|].
        split; [eapply onlyJobTouched_trans; eauto|].
        split; [congruence|].
        split; [intros msg H; discriminate|].
        intros rs' [= <-]. constructor; [|auto].
        apply (Hok scene' asset eq_refl).
      * split; [congruence|]. split; [congruence|].
        split; [eapply onlyJobTouched_trans; eauto|].
        split; [congruence|].
        split; [|intros rs' H; discriminate].
        intros msg' [= <-].
        destruct (Hthrow' msg eq_refl) as (sc & before & Hin & Hg & Hc).
        exists sc, before. repeat split; auto; now right.
    + subst run. simpl.
      split; [exact Hsb|]. split; [exact Hsm|]. split; [exact Hjobs|].
      split; [exact Hff|].
      split; [|intros rs' H; discriminate].
      intros msg' [= <-].
      destruct (Hthrow msg eq_refl) as (Hg & _ & Hc).
      exists scene, (calls w). repeat split; auto; now left.
Qed.

(** With a generator that fails every request, the loop stops at the first
    scene it cannot reuse: one request made, nothing recorded. *)
Lemma resolveScenes_generator_down jobId storyboardId totalScenes msg scenes :
  (forall scene, In scene scenes ->
                 svc_generateVideoForScene svc scene = Throw msg) ->
  (exists scene, In scene scenes /\ Scene.assetSource scene <> Some existing) ->
  forall i w,
    let run := resolveScenes svc jobId storyboardId totalScenes i scenes w in
    fst run = Throw msg
    /\ Db.generatedAssets (db (snd run)) = Db.generatedAssets (db w)
    /\ generations (calls (snd run)) = S (generations (calls w)).
Proof.
  induction scenes as [|scene rest IH]; intros Hdown (sc & Hin & Hsrc) i w run.
  - destruct Hin.
  - assert (Hrun : run
                   = resolveScenes svc jobId storyboardId totalScenes i
                       (scene :: rest) w) by reflexivity.
    clearbody run. simpl in Hrun. unfold bind at 1 in Hrun.
    pose proof (resolveScene_frame jobId storyboardId totalScenes i scene w)
      as (_ & _ & _ & _ & Hthrow & Hok).
    destruct (resolveScene svc jobId storyboardId totalScenes i scene w)
      as [[[scene' asset]|msg'] w1]; simpl in Hthrow, Hok.
    + destruct (Hok scene' asset eq_refl)
        as (_ & [(_ & Hex & _ & Hga & Hc) | (g & Hg & _)]).
      2:{ rewrite (Hdown scene (or_introl eq_refl)) in Hg. discriminate. }
      assert (Hrest : exists s, In s rest
                                /\ Scene.assetSource s <> Some existing).
      { destruct Hin as [<- | Hin]; [contradiction|]. eauto. }
      pose proof (IH (fun s Hs => Hdown s (or_intror Hs)) Hrest (S i) w1)
        as (Hf & Hga' & Hgen).
      unfold bind at 1 in Hrun.
      destruct (resolveScenes svc jobId storyboardId totalScenes (S i) rest
                  w1) as [[rs|m] w2]; simpl in Hf, Hga', Hgen;
        [discriminate|].
      injection Hf as ->. subst run. simpl.
      repeat split; congruence.
    + destruct (Hthrow msg' eq_refl) as (Hg & Hga & Hc).
      rewrite (Hdown scene (or_introl eq_refl)) in Hg.
      destruct Hg as [Hg | (_ & g & Hg)]; [|discriminate].
      injection Hg as <-.
      subst run. simpl. repeat split; auto.
      rewrite Hc. unfold generations.
      rewrite filter_app, length_app. simpl. lia.
Qed.

Lemma resolvedFrom_length scenes rs :
  Forall2 resolvedFrom scenes rs ->
  List.length (map snd rs) = List.length (map fst rs)
  /\ List.length rs = List.length scenes.
Proof.
  intros H. rewrite !length_map. split; [reflexivity|].
  symmetry. eapply Forall2_length; eauto.
Qed.

(** The three ways through [processProductionJob]. *)
Lemma processProductionJob_not_found jobId storyboardId w :
  find (fun r => String.eqb (Db.sb_storyboardId r) storyboardId)
    (Db.storyboards (db w)) = None ->
  processProductionJob svc jobId storyboardId w
  = (Ok tt,
     snd (failJob jobId "Storyboard not found"
            (snd (updateJobStatus jobId matching 0.1 None w)))).
Proof.
  intros Hrow.
  unfold processProductionJob, tryCatch, bind, selectStoryboard,
    updateJobStatus, writeDb, readDb, ret.
  simpl. rewrite Hrow. reflexivity.
Qed.

Lemma processProductionJob_loop_throws jobId storyboardId w row msg w2 :
  find (fun r => String.eqb (Db.sb_storyboardId r) storyboardId)
    (Db.storyboards (db w)) = Some row ->
  afterLoop svc jobId storyboardId row w = (Throw msg, w2) ->
  processProductionJob svc jobId storyboardId w
  = (Ok tt, snd (failJob jobId msg w2)).
Proof.
  intros Hrow Hloop. unfold afterLoop in Hloop.
  unfold processProductionJob, tryCatch. unfold bind at 1.
  destruct (updateJobStatus jobId matching 0.1 None w) as [r w1] eqn:E1.
  assert (r = Ok tt /\ Db.storyboards (db w1) = Db.storyboards (db w))
    as (-> & Hsb).
  { unfold updateJobStatus, writeDb in E1. injection E1 as <- <-.
    split; reflexivity. }
  simpl in Hloop.
  unfold bind at 1. unfold selectStoryboard, bind, readDb, ret.
  rewrite Hsb, Hrow. rewrite Hloop. reflexivity.
Qed.

Lemma processProductionJob_loop_returns jobId storyboardId w row rs w2 :
  find (fun r => String.eqb (Db.sb_storyboardId r) storyboardId)
    (Db.storyboards (db w)) = Some row ->
  afterLoop svc jobId storyboardId row w = (Ok rs, w2) ->
  exists cmd,
    Assembler.assembleStoryboard (storyboardOf row rs) (map snd rs)
      (outputPathFor (Db.sb_title row) jobId) = Ok cmd
    /\ processProductionJob svc jobId storyboardId w
       = match svc_ffmpeg svc cmd with
         | Ok _ =>
             (Ok tt,
              snd (updateJobStatus jobId completed 1.0
                     (Some (outputPathFor (Db.sb_title row) jobId))
                     (ffmpegLaunched jobId storyboardId rs cmd w2)))
         | Throw msg =>
             (Ok tt,
              snd (failJob jobId msg
                     (ffmpegLaunched jobId storyboardId rs cmd w2)))
         end.
Proof.
  intros Hrow Hloop. unfold afterLoop in Hloop.
  destruct (Assembler.assembleStoryboard (storyboardOf row rs) (map snd rs)
              (outputPathFor (Db.sb_title row) jobId)) as [cmd|msg] eqn:Hcmd.
  2:{ exfalso.
      destruct (assembleStoryboard_builds (storyboardOf row rs) (map snd rs)
                  (outputPathFor (Db.sb_title row) jobId)) as (cmd & Hc).
      - simpl. now rewrite !length_map.
      - congruence. }
  exists cmd. split; [reflexivity|].
  unfold processProductionJob, tryCatch. unfold bind at 1.
  destruct (updateJobStatus jobId matching 0.1 None w) as [r w1] eqn:E1.
  assert (r = Ok tt /\ Db.storyboards (db w1) = Db.storyboards (db w))
    as (-> & Hsb).
  { unfold updateJobStatus, writeDb in E1. injection E1 as <- <-.
    split; reflexivity. }
  simpl in Hloop.
  unfold bind at 1. unfold selectStoryboard at 1. unfold bind at 1.
  unfold readDb, ret. rewrite Hsb, Hrow.
  unfold bind at 1. rewrite Hloop.
  unfold storyboardOf in Hcmd.
  unfold assembleStoryboard, bind, liftResult, runFfmpeg, ffmpegLaunched,
    beforeAssembly, updateStoryboardScenes, updateJobStatus, failJob,
    writeDb, logCall.
  simpl. rewrite Hcmd. simpl.
  destruct (svc_ffmpeg svc cmd); reflexivity.
Qed.

End Frames.

Section FreshIds.

Local Open Scope R_scope.
Import Effects Routes Spec RoutesSpec.

Variable svc : Services.

Lemma existsb_over_map {A B} (f : B -> bool) (g : A -> B) l :
  existsb f (map g l) = existsb (fun x => f (g x)) l.
Proof. induction l as [|x l IH]; simpl; [reflexivity|now rewrite IH]. Qed.

Lemma freshb_prefix ids :
  forall taken more,
    freshb taken (ids ++ more) = true -> freshb taken ids = true.
Proof.
  induction ids as [|id ids IH]; intros taken more H; [reflexivity|].
  simpl in H |- *. apply andb_true_iff in H as (H1 & H2).
  rewrite H1. simpl. now apply IH with more.
Qed.

Lemma idsFresh_fewer w n m :
  (m <= n)%nat -> idsFresh svc w n = true -> idsFresh svc w m = true.
Proof.
  intros Hle. unfold idsFresh.
  replace n with (m + (n - m))%nat by lia.
  rewrite seq_app, map_app. apply freshb_prefix.
Qed.

Lemma idsFresh_same w w1 n :
  idsDrawn w1 = idsDrawn w ->
  takenIds w1 = takenIds w ->
  idsFresh svc w1 n = idsFresh svc w n.
Proof. unfold idsFresh. now intros -> ->. Qed.

Lemma idsFresh_head w n :
  idsFresh svc w (S n) = true ->
  existsb (fun t => String.eqb t (genId svc (idsDrawn w))) (takenIds w)
  = false.
Proof.
  unfold idsFresh. cbn [seq map freshb]. intros H.
  apply andb_true_iff in H as (H & _). now apply negb_true_iff in H.
Qed.

Lemma idsFresh_next w w1 n :
  idsFresh svc w (S n) = true ->
  idsDrawn w1 = S (idsDrawn w) ->
  takenIds w1 = takenIds w ++ [genId svc (idsDrawn w)] ->
  idsFresh svc w1 n = true.
Proof.
  unfold idsFresh. cbn [seq map freshb]. intros H -> ->.
  now apply andb_true_iff in H as (_ & H).
Qed.

(** Marking an asset as catalogued keeps the asset ids of the table. *)
Lemma markCatalogued_ids assetId w :
  takenIds (snd (markCatalogued assetId w)) = takenIds w.
Proof.
  unfold takenIds, markCatalogued, writeDb. simpl. rewrite map_map.
  apply map_ext. intros r. now destruct (String.eqb _ _).
Qed.

(** The identifiers one iteration of the loop draws and the asset ids it
    records: none for a reused scene or a failed generation; otherwise
    one, refused by the table when it is taken. *)
Lemma resolveScene_ids jobId storyboardId totalScenes i scene w :
  let run := resolveScene svc jobId storyboardId totalScenes i scene w in
  let taken :=
    existsb (fun t => String.eqb t (genId svc (idsDrawn w))) (takenIds w) in
  (idsDrawn (snd run) = idsDrawn w
   /\ takenIds (snd run) = takenIds w
   /\ (forall msg,
          fst run = Throw msg ->
          svc_generateVideoForScene svc scene = Throw msg))
  \/ (idsDrawn (snd run) = S (idsDrawn w)
      /\ (exists g, svc_generateVideoForScene svc scene = Ok g)
      /\ reused w scene = false
      /\ ((taken = true
           /\ fst run = Throw uniqueViolation
           /\ takenIds (snd run) = takenIds w)
          \/ (taken = false
              /\ takenIds (snd run) = takenIds w ++ [genId svc (idsDrawn w)]
              /\ exists scene' asset,
                   fst run = Ok (scene', asset)
                   /\ ResolvedAsset.assetId asset
                      = genId svc (idsDrawn w)))).
Proof.
  intros run taken.
  assert (Hrun : run
                 = resolveScene svc jobId storyboardId totalScenes i scene w)
    by reflexivity.
  clearbody run.
  pose proof (reuseMatched_world scene w) as Hw.
  unfold resolveScene in Hrun. unfold bind at 1 in Hrun.
  assert (Hreused : reused w scene
                    = match fst (reuseMatched scene w) with
                      | Ok (Some _) => true
                      | _ => false
                      end) by reflexivity.
  destruct (reuseMatched scene w) as [[[asset|]|msg] w'] eqn:E;
    simpl in Hw, Hreused; subst w'.
  - unfold bind, ret, updateJobStatus, writeDb in Hrun. simpl in Hrun.
    subst run. left. repeat split. intros msg H. discriminate.
  - unfold bind, updateJobStatus, writeDb, generateVideoForScene, logCall,
      liftResult in Hrun. simpl in Hrun.
    destruct (svc_generateVideoForScene svc scene) as [g|msg] eqn:G;
      simpl in Hrun.
    + right.
      unfold insertGeneratedAsset, bind, readDb, throw, writeDb in Hrun.
      simpl in Hrun.
      match type of Hrun with
      | context [existsb ?f (Db.generatedAssets (db w))] =>
          assert (Htaken : existsb f (Db.generatedAssets (db w)) = taken)
            by (subst taken; unfold takenIds; now rewrite existsb_over_map);
          rewrite Htaken in Hrun
      end.
      destruct taken; simpl in Hrun.
      * subst run. simpl. split; [reflexivity|]. split; [now exists g|].
        split; [exact Hreused|]. left. repeat split.
      * unfold tryCatch, bind, catalogGeneratedAsset, logCall, liftResult
          in Hrun.
        simpl in Hrun.
        destruct (svc_catalogGeneratedAsset svc _ _ _ _); simpl in Hrun;
          subst run; simpl;
          (split; [reflexivity|]; split; [now exists g|];
           split; [exact Hreused|]; right; split; [reflexivity|];
           split;
           [unfold takenIds; simpl;
            rewrite ?map_map, ?map_app; simpl;
            f_equal;
            first [reflexivity
                  |apply map_ext; intros r; now destruct (String.eqb _ _)
                  |now destruct (String.eqb _ _)]
           |eexists; eexists; split; reflexivity]).
    + subst run. simpl. left. repeat split. now intros msg' [= <-].
  - exfalso.
    unfold reuseMatched in E.
    destruct (Scene.matchedAssetId scene) as [aid|]; [|discriminate].
    destruct (Scene.assetSource scene) as [[| |]|]; try discriminate.
    destruct (String.eqb aid ""); [discriminate|].
    unfold bind, selectSceneMatch, readDb, ret in E. simpl in E.
    destruct (find _ _); discriminate.
Qed.

(** [reused] reads the [scene_matches] table only. *)
Lemma reused_same w w1 scene :
  Db.sceneMatches (db w1) = Db.sceneMatches (db w) ->
  reused w1 scene = reused w scene.
Proof.
  intros H. unfold reused, reuseMatched.
  destruct (Scene.matchedAssetId scene) as [aid|]; [|reflexivity].
  destruct (Scene.assetSource scene) as [[| |]|]; try reflexivity.
  destruct (String.eqb aid ""); [reflexivity|].
  unfold bind, selectSceneMatch, readDb, ret. simpl. rewrite H.
  now destruct (find _ _).
Qed.

Lemma toGenerate_same w w1 scenes :
  Db.sceneMatches (db w1) = Db.sceneMatches (db w) ->
  toGenerate w1 scenes = toGenerate w scenes.
Proof.
  intros H. unfold toGenerate. apply filter_ext. intros scene.
  now rewrite (reused_same w w1 scene H).
Qed.

Lemma generateCalls_app l1 l2 :
  generateCalls (l1 ++ l2) = generateCalls l1 ++ generateCalls l2.
Proof. unfold generateCalls. apply flat_map_app. Qed.

Lemma generateCalls_none l :
  generations l = 0%nat -> generateCalls l = [].
Proof.
  unfold generations, generateCalls.
  induction l as [|c l IH]; [reflexivity|].
  destruct c; simpl; auto. discriminate.
Qed.

Lemma generateCalls_length l :
  List.length (generateCalls l) = generations l.
Proof.
  unfold generations, generateCalls.
  induction l as [|c l IH]; [reflexivity|].
  destruct c; simpl; auto.
Qed.

(** The requests one iteration makes to the generator: none for a reused
    scene, one for any other scene. *)
Lemma resolveScene_generateCalls jobId storyboardId totalScenes i scene w :
  generateCalls
    (calls (snd (resolveScene svc jobId storyboardId totalScenes i scene w)))
  = generateCalls (calls w)
    ++ (if reused w scene then [] else [Scene.sceneId scene]).
Proof.
  pose proof (reuseMatched_world scene w) as Hw.
  unfold reused.
  destruct (reuseMatched scene w) as [[[asset|]|msg] w'] eqn:E;
    simpl in Hw |- *; subst w'.
  - destruct (resolveScene_reuses svc jobId storyboardId totalScenes i scene
                w asset E) as (_ & -> & _).
    now rewrite app_nil_r.
  - destruct (resolveScene_generates svc jobId storyboardId totalScenes i
                scene w E) as (tail & -> & Hg & _).
    change (CallGenerate (Scene.sceneId scene) :: tail)
      with ([CallGenerate (Scene.sceneId scene)] ++ tail).
    rewrite !generateCalls_app, (generateCalls_none tail Hg).
    reflexivity.
  - exfalso.
    unfold reuseMatched in E.
    destruct (Scene.matchedAssetId scene) as [aid|]; [|discriminate].
    destruct (Scene.assetSource scene) as [[| |]|]; try discriminate.
    destruct (String.eqb aid ""); [discriminate|].
    unfold bind, selectSceneMatch, readDb, ret in E. simpl in E.
    destruct (find _ _); discriminate.
Qed.

(** The loop asks the generator for the scenes it cannot reuse, in scene
    order, one request each, up to the scene at which it stops. *)
Lemma resolveScenes_generateCalls jobId storyboardId totalScenes scenes :
  forall i w,
    let run := resolveScenes svc jobId storyboardId totalScenes i scenes w in
    exists k,
      generateCalls (calls (snd run))
      = generateCalls (calls w)
        ++ map Scene.sceneId (firstn k (toGenerate w scenes))
      /\ (forall rs, fst run = Ok rs ->
                     firstn k (toGenerate w scenes) = toGenerate w scenes).
Proof.
  induction scenes as [|scene rest IH]; intros i w run.
  - exists 0%nat. subst run. simpl. rewrite app_nil_r. auto.
  - assert (Hrun : run
                   = resolveScenes svc jobId storyboardId totalScenes i
                       (scene :: rest) w) by reflexivity.
    clearbody run. simpl in Hrun. unfold bind at 1 in Hrun.
    pose proof (resolveScene_generateCalls jobId storyboardId totalScenes i
                  scene w) as Hone.
    pose proof (resolveScene_frame svc jobId storyboardId totalScenes i scene
                  w) as (_ & Hsm & _).
    destruct (resolveScene svc jobId storyboardId totalScenes i scene w)
      as [[r|msg] w1]; simpl in Hone, Hsm.
    + unfold bind at 1 in Hrun.
      destruct (IH (S i) w1) as (k & Hk & Hall).
      rewrite (toGenerate_same w w1 rest Hsm) in Hk, Hall.
      unfold toGenerate at 1 2. cbn [filter]. fold (toGenerate w rest).
      destruct (resolveScenes svc jobId storyboardId totalScenes (S i) rest
                  w1) as [[rs|msg] w2]; simpl in Hk, Hall; subst run; simpl;
        rewrite Hk, Hone; destruct (reused w scene); simpl.
      * exists k. rewrite app_nil_r. split; [reflexivity|].
        intros rs' _. now apply Hall with rs.
      * exists (S k). rewrite <- app_assoc. split; [reflexivity|].
        intros rs' _. cbn [firstn]. f_equal. now apply Hall with rs.
      * exists k. rewrite app_nil_r. split; [reflexivity|].
        intros rs' H. discriminate.
      * exists (S k). rewrite <- app_assoc. split; [reflexivity|].
        intros rs' H. discriminate.
    + subst run. simpl. rewrite Hone.
      unfold toGenerate. cbn [filter].
      destruct (reused w scene); simpl.
      * exists 0%nat. split; [reflexivity|]. intros rs H. discriminate.
      * exists 1%nat. split; [reflexivity|]. intros rs H. discriminate.
Qed.

(** With fresh asset ids the loop throws only when the generator does. *)
Lemma resolveScenes_fresh jobId storyboardId totalScenes scenes :
  forall i w n,
    (List.length scenes <= n)%nat ->
    idsFresh svc w n = true ->
    forall msg,
      fst (resolveScenes svc jobId storyboardId totalScenes i scenes w)
      = Throw msg ->
      exists scene,
        In scene scenes /\ svc_generateVideoForScene svc scene = Throw msg.
Proof.
  induction scenes as [|scene rest IH]; intros i w n Hlen Hfresh msg.
  - simpl. discriminate.
  - simpl in Hlen. destruct n as [|n]; [lia|].
    simpl. unfold bind at 1.
    pose proof (resolveScene_ids jobId storyboardId totalScenes i scene w)
      as Hids.
    destruct (resolveScene svc jobId storyboardId totalScenes i scene w)
      as [[r|msg1] w1]; simpl in Hids.
    + assert (Hfresh1 : idsFresh svc w1 n = true).
      { destruct Hids as [(Hd & Ht & _) | (Hd & _ & _ & [(Hx & _) | (_ & Ht & _)])].
        - rewrite (idsFresh_same w w1 n Hd Ht).
          apply idsFresh_fewer with (S n); [lia|exact Hfresh].
        - rewrite (idsFresh_head w n Hfresh) in Hx. discriminate.
        - exact (idsFresh_next w w1 n Hfresh Hd Ht). }
      unfold bind.
      pose proof (IH (S i) w1 n ltac:(lia) Hfresh1) as Hrest.
      destruct (resolveScenes svc jobId storyboardId totalScenes (S i) rest
                  w1) as [[rs|msg2] w2]; simpl in Hrest |- *;
        [discriminate|].
      intros [= <-]. destruct (Hrest msg2 eq_refl) as (sc & Hin & Hg).
      exists sc. split; [now right|exact Hg].
    + simpl. intros [= <-].
      destruct Hids as [(_ & _ & Ht) | (_ & _ & _ & [(Hx & _) | (_ & _ & s' & a & H & _)])].
      * exists scene. split; [now left|]. now apply Ht.
      * rewrite (idsFresh_head w n Hfresh) in Hx. discriminate.
      * discriminate.
Qed.

End FreshIds.

Section JobOutcome.

Local Open Scope R_scope.
Import Effects Routes Spec RoutesSpec.


Lemma failJob_row jobId msg w r :
  In r (Db.productionJobs (db (snd (failJob jobId msg w)))) ->
  Db.job_jobId r = jobId ->
  Db.job_status r = failed /\ Db.job_error r = Some msg.
Proof.
  unfold failJob, writeDb. simpl. intros Hin Hid.
  destruct (updated_row jobId
              (fun r => Db.mkJobRow (Db.job_jobId r) (Db.job_storyboardId r)
                          failed (Db.job_progress r) (Db.job_outputPath r)
                          (Some msg))
              _ r (fun _ => eq_refl) Hin Hid) as (r0 & _ & ->).
  repeat split.
Qed.

Lemma onlyStoryboardTouched_refl id l : onlyStoryboardTouched id l l.
Proof. induction l; constructor; auto. repeat split. Qed.

Lemma updateStoryboardScenes_rows id scenes w :
  onlyStoryboardTouched id (Db.storyboards (db w))
    (Db.storyboards (db (snd (updateStoryboardScenes id scenes w))))
  /\ forall r',
       In r' (Db.storyboards (db (snd (updateStoryboardScenes id scenes w)))) ->
       Db.sb_storyboardId r' = id ->
       Db.sb_scenesJson r' = scenes.
Proof.
  unfold updateStoryboardScenes, writeDb. simpl. split.
  - induction (Db.storyboards (db w)) as [|r l IH]; simpl; constructor; auto.
    destruct (String.eqb (Db.sb_storyboardId r) id) eqn:E.
    + repeat split. apply String.eqb_eq in E. contradiction.
    + repeat split.
  - intros r' Hin Hid. apply in_map_iff in Hin as (r & Hr & _).
    destruct (String.eqb (Db.sb_storyboardId r) id) eqn:E.
    + now subst r'.
    + subst r'. apply String.eqb_neq in E. contradiction.
Qed.

(** The state in which ffmpeg is launched, relative to the state the loop
    left. *)
Lemma ffmpegLaunched_state jobId storyboardId rs cmd w :
  let w' := ffmpegLaunched jobId storyboardId rs cmd w in
  Db.storyboards (db w')
  = Db.storyboards
      (db (snd (updateStoryboardScenes storyboardId (map fst rs) w)))
  /\ Db.sceneMatches (db w') = Db.sceneMatches (db w)
  /\ Db.generatedAssets (db w') = Db.generatedAssets (db w)
  /\ onlyJobTouched jobId (Db.productionJobs (db w))
       (Db.productionJobs (db w'))
  /\ calls w' = calls w ++ [CallFfmpeg cmd].
Proof.
  unfold ffmpegLaunched, beforeAssembly, logCall, updateJobStatus,
    updateStoryboardScenes, writeDb. simpl.
  repeat split.
  apply (onlyJobTouched_update jobId
           (fun r => Db.mkJobRow (Db.job_jobId r) (Db.job_storyboardId r)
                       assembling 0.85 (Db.job_outputPath r)
                       (Db.job_error r))).
  intros r. split; reflexivity.
Qed.

Lemma resolvedFrom_scenes scenes rs :
  Forall2 resolvedFrom scenes rs ->
  Forall2 sameShot scenes (map fst rs) /\ Forall resolved (map fst rs).
Proof.
  induction 1 as [|scene r scenes rs (Hshot & Hres & _) _ (IH1 & IH2)];
    simpl; split; constructor; auto.
Qed.

(** The loop seen from the job: the state it leaves and, when it throws,
    the generator error or the refused insert behind it. *)
Lemma afterLoop_frame svc jobId storyboardId row w :
  let run := afterLoop svc jobId storyboardId row w in
  Db.storyboards (db (snd run)) = Db.storyboards (db w)
  /\ Db.sceneMatches (db (snd run)) = Db.sceneMatches (db w)
  /\ onlyJobTouched jobId (Db.productionJobs (db w))
       (Db.productionJobs (db (snd run)))
  /\ ffmpegRuns (calls (snd run)) = ffmpegRuns (calls w)
  /\ (forall msg,
         fst run = Throw msg ->
         exists scene before,
           In scene (Db.sb_scenesJson row)
           /\ (svc_generateVideoForScene svc scene = Throw msg
               \/ (msg = uniqueViolation
                   /\ exists g, svc_generateVideoForScene svc scene = Ok g))
           /\ calls (snd run)
              = before ++ [CallGenerate (Scene.sceneId scene)])
  /\ (forall rs,
         fst run = Ok rs -> Forall2 resolvedFrom (Db.sb_scenesJson row) rs).
Proof.
  intros run. subst run. unfold afterLoop.
  pose proof (resolveScenes_frame svc jobId storyboardId
                (List.length (Db.sb_scenesJson row)) (Db.sb_scenesJson row) 0%nat
                (snd (updateJobStatus jobId matching 0.1 None w)))
    as (Hsb & Hsm & Hjobs & Hff & Hthrow & Hok).
  split; [exact Hsb|]. split; [exact Hsm|].
  split.
  { eapply onlyJobTouched_trans; [|exact Hjobs].
    apply updateJobStatus_jobs. }
  split; [exact Hff|]. split; assumption.
Qed.



(** X14. A production job writes nothing to the scene_matches table, keeps
    every row of the jobs table in place and changes only rows of its own
    job, changes in the storyboards table at most the scenes of its own
    storyboard, and launches ffmpeg at most once.  A storyboard row it has
    rewritten holds the same shots as before, each of them resolved as an
    existing or a generated asset. *)
Theorem job_touches_only_its_rows svc jobId storyboardId w :
  let w' := snd (processProductionJob svc jobId storyboardId w) in
  Db.sceneMatches (db w') = Db.sceneMatches (db w)
  /\ onlyJobTouched jobId (Db.productionJobs (db w))
       (Db.productionJobs (db w'))
  /\ onlyStoryboardTouched storyboardId (Db.storyboards (db w))
       (Db.storyboards (db w'))
  /\ (forall r',
         In r' (Db.storyboards (db w')) ->
         Db.sb_storyboardId r' = storyboardId ->
         In r' (Db.storyboards (db w))
         \/ exists row,
              find (fun s => String.eqb (Db.sb_storyboardId s) storyboardId)
                (Db.storyboards (db w)) = Some row
              /\ Forall2 sameShot (Db.sb_scenesJson row) (Db.sb_scenesJson r')
              /\ Forall resolved (Db.sb_scenesJson r'))
  /\ (ffmpegRuns (calls w') <= S (ffmpegRuns (calls w)))%nat.
Proof.
  intros w'. subst w'.
  destruct (find (fun s => String.eqb (Db.sb_storyboardId s) storyboardId)
              (Db.storyboards (db w))) as [row|] eqn:Hrow.
  - pose proof (afterLoop_frame svc jobId storyboardId row w)
      as (Hsb & Hsm & Hjobs & Hruns & _ & Hok).
    destruct (afterLoop svc jobId storyboardId row w) as [[rs|msg] w2]
      eqn:Hloop; simpl in Hsb, Hsm, Hjobs, Hruns, Hok.
    + destruct (processProductionJob_loop_returns svc jobId storyboardId w
                  row rs w2 Hrow Hloop) as (cmd & _ & ->).
      pose proof (ffmpegLaunched_state jobId storyboardId rs cmd w2)
        as (Lsb & Lsm & _ & Ljobs & Lcalls).
      destruct (updateStoryboardScenes_rows storyboardId (map fst rs) w2)
        as (Urel & Urows).
      destruct (resolvedFrom_scenes _ _ (Hok rs eq_refl)) as (Hshots & Hres).
      assert (Hfinal :
                forall w3,
                  Db.storyboards (db w3)
                  = Db.storyboards
                      (db (ffmpegLaunched jobId storyboardId rs cmd w2)) ->
                  Db.sceneMatches (db w3)
                  = Db.sceneMatches
                      (db (ffmpegLaunched jobId storyboardId rs cmd w2)) ->
                  onlyJobTouched jobId
                    (Db.productionJobs
                       (db (ffmpegLaunched jobId storyboardId rs cmd w2)))
                    (Db.productionJobs (db w3)) ->
                  calls w3
                  = calls (ffmpegLaunched jobId storyboardId rs cmd w2) ->
                  Db.sceneMatches (db w3) = Db.sceneMatches (db w)
                  /\ onlyJobTouched jobId (Db.productionJobs (db w))
                       (Db.productionJobs (db w3))
                  /\ onlyStoryboardTouched storyboardId
                       (Db.storyboards (db w)) (Db.storyboards (db w3))
                  /\ (forall r',
                         In r' (Db.storyboards (db w3)) ->
                         Db.sb_storyboardId r' = storyboardId ->
                         In r' (Db.storyboards (db w))
                         \/ exists row0,
                              Some row = Some row0
                              /\ Forall2 sameShot (Db.sb_scenesJson row0)
                                   (Db.sb_scenesJson r')
                              /\ Forall resolved (Db.sb_scenesJson r'))
                  /\ (ffmpegRuns (calls w3) <= S (ffmpegRuns (calls w)))%nat).
      { intros w3 E1 E2 E3 E4.
        split; [congruence|].
        split.
        { eapply onlyJobTouched_trans; [exact Hjobs|].
          eapply onlyJobTouched_trans; [exact Ljobs|exact E3]. }
        split; [rewrite E1, Lsb, <- Hsb; exact Urel|].
        split.
        { intros r' Hin Hid. right. exists row. split; [reflexivity|].
          rewrite E1, Lsb in Hin. rewrite (Urows r' Hin Hid). auto. }
        rewrite E4, Lcalls. unfold ffmpegRuns in *.
        rewrite filter_app, length_app. simpl. lia. }
      destruct (svc_ffmpeg svc cmd); cbn [fst snd]; apply Hfinal;
        try reflexivity.
      * apply updateJobStatus_jobs.
      * apply failJob_jobs.
    + rewrite (processProductionJob_loop_throws svc jobId storyboardId w row
                 msg w2 Hrow Hloop). cbn [fst snd].
      split; [exact Hsm|].
      split.
      { eapply onlyJobTouched_trans; [exact Hjobs|]. apply failJob_jobs. }
      change (Db.storyboards (db (snd (failJob jobId msg w2))))
        with (Db.storyboards (db w2)).
      rewrite Hsb.
      split; [apply onlyStoryboardTouched_refl|].
      split; [intros r' Hin _; now left|].
      change (calls (snd (failJob jobId msg w2))) with (calls w2).
      rewrite <- Hruns. apply Nat.le_succ_diag_r.
  - rewrite (processProductionJob_not_found svc jobId storyboardId w Hrow).
    cbn [fst snd].
    split; [reflexivity|].
    split.
    { eapply onlyJobTouched_trans; [apply updateJobStatus_jobs|].
      apply failJob_jobs. }
    split; [apply onlyStoryboardTouched_refl|].
    split; [intros r' Hin _; now left|apply Nat.le_succ_diag_r].
Qed.

Lemma job_touches_only_its_rows_witness :
  exists r',
    In r'
      (Db.storyboards
         (db (snd (processProductionJob Samples.services0 "job_1" "sb_1"
                     Samples.world0))))
    /\ (In r' (Db.storyboards (db Samples.world0))
        \/ exists row,
             find (fun s => String.eqb (Db.sb_storyboardId s) "sb_1")
               (Db.storyboards (db Samples.world0)) = Some row
             /\ Forall2 sameShot (Db.sb_scenesJson row) (Db.sb_scenesJson r')
             /\ Forall resolved (Db.sb_scenesJson r')).
Proof.
  eexists. split.
  - left. reflexivity.
  - apply (proj1 (proj2 (proj2 (proj2
             (job_touches_only_its_rows Samples.services0 "job_1" "sb_1"
                Samples.world0))))).
    + left. reflexivity.
    + reflexivity.
Defined.

(** With fresh asset ids and a generator that answers for every scene, the
    loop of the job returns. *)
Lemma afterLoop_fresh svc jobId storyboardId row w :
  idsFresh svc w (List.length (Db.sb_scenesJson row)) = true ->
  (forall scene, In scene (Db.sb_scenesJson row) ->
                 exists g, svc_generateVideoForScene svc scene = Ok g) ->
  exists rs w2, afterLoop svc jobId storyboardId row w = (Ok rs, w2).
Proof.
  intros Hfresh Hgen.
  pose proof (resolveScenes_fresh svc jobId storyboardId
                (List.length (Db.sb_scenesJson row)) (Db.sb_scenesJson row)
                0%nat (snd (updateJobStatus jobId matching 0.1 None w))
                (List.length (Db.sb_scenesJson row)) (le_n _) Hfresh)
    as Hthrow.
  fold (afterLoop svc jobId storyboardId row w) in Hthrow.
  destruct (afterLoop svc jobId storyboardId row w) as [[rs|msg] w2];
    [eauto|].
  destruct (Hthrow msg eq_refl) as (scene & Hin & Hg).
  destruct (Hgen scene Hin) as (g & Hg'). congruence.
Qed.




(** With a supply that gives the same identifier twice, the table refuses
    the second asset and the job fails, after asking the generator for
    both scenes. *)
Lemma job_fails_on_repeated_id :
  let w' :=
    snd (processProductionJob Samples.services0 "job_2" "sb_2"
           Samples.worldTwoScenes)
  in
  idsFresh Samples.services0 Samples.worldTwoScenes 2 = false
  /\ map Db.job_status (Db.productionJobs (db w')) = [failed]
  /\ map Db.job_error (Db.productionJobs (db w')) = [Some uniqueViolation]
  /\ generateCalls (calls w') = ["sc_b"; "sc_c"]%string
  /\ takenIds w' = ["gen_Qr34St56"; "gen_Ab12Cd34"]%string.
Proof. repeat split. Qed.

(** X16. When the generator fails every request with the same error and
    some scene of the storyboard is not an existing match, the job fails
    with that error after exactly one request to the generator: nothing is
    recorded in generated_assets, the storyboards table is as before, and
    ffmpeg is not launched. *)
Theorem generator_failure_fails_job svc jobId storyboardId w row msg :
  find (fun s => String.eqb (Db.sb_storyboardId s) storyboardId)
    (Db.storyboards (db w)) = Some row ->
  (forall scene, In scene (Db.sb_scenesJson row) ->
                 svc_generateVideoForScene svc scene = Throw msg) ->
  (exists scene, In scene (Db.sb_scenesJson row)
                 /\ Scene.assetSource scene <> Some existing) ->
  let w' := snd (processProductionJob svc jobId storyboardId w) in
  (forall r,
      In r (Db.productionJobs (db w')) ->
      Db.job_jobId r = jobId ->
      Db.job_status r = failed /\ Db.job_error r = Some msg)
  /\ Db.storyboards (db w') = Db.storyboards (db w)
  /\ Db.generatedAssets (db w') = Db.generatedAssets (db w)
  /\ generations (calls w') = S (generations (calls w))
  /\ ffmpegRuns (calls w') = ffmpegRuns (calls w).
Proof.
  intros Hrow Hdown Hneed w'. subst w'.
  pose proof (afterLoop_frame svc jobId storyboardId row w)
    as (Hsb & _ & _ & Hruns & _ & _).
  pose proof (resolveScenes_generator_down svc jobId storyboardId
                (List.length (Db.sb_scenesJson row)) msg
                (Db.sb_scenesJson row) Hdown Hneed 0%nat
                (snd (updateJobStatus jobId matching 0.1 None w)))
    as (Hf & Hga & Hgen).
  fold (afterLoop svc jobId storyboardId row w) in Hf, Hga, Hgen.
  destruct (afterLoop svc jobId storyboardId row w) as [r0 w2] eqn:Hloop.
  simpl in Hf, Hga, Hgen, Hsb, Hruns. subst r0.
  rewrite (processProductionJob_loop_throws svc jobId storyboardId w row msg
             w2 Hrow Hloop).
  cbn [fst snd].
  split.
  - intros r Hin Hid. exact (failJob_row _ _ _ _ Hin Hid).
  - split; [exact Hsb|]. split; [exact Hga|]. split; [exact Hgen|exact Hruns].
Qed.

Lemma generator_failure_fails_job_witness :
  let w' :=
    snd (processProductionJob Cases.servicesNoGenerator "job_1" "sb_1"
           Samples.world0) in
  Db.productionJobs (db w')
  = [Db.mkJobRow "job_1" "sb_1" failed (0.1 + 0.7 * (INR 0 / INR 1)) None
       (Some "LTX-2 generation failed: out of memory"%string)]
  /\ Db.storyboards (db w') = Db.storyboards (db Samples.world0)
  /\ generations (calls w') = 1%nat.
Proof.
  pose proof (generator_failure_fails_job Cases.servicesNoGenerator "job_1"
                "sb_1" Samples.world0
                (Db.mkStoryboardRow "sb_1" "Morning" [Samples.scene0] 1920
                   1080 30)
                "LTX-2 generation failed: out of memory"%string
                eq_refl
                (fun _ _ => eq_refl)
                (ex_intro _ Samples.scene0
                   (conj (or_introl eq_refl)
                      (fun H : None = Some existing =>
                         eq_ind None
                           (fun o => match o with
                                     | None => True
                                     | Some _ => False
                                     end) I _ H))))
    as (_ & Hsb & _ & Hgen & _).
  split; [reflexivity|]. split; [exact Hsb|exact Hgen].
Defined.

End JobOutcome.

Section MatchRoute.

Local Open Scope R_scope.
Import Effects Routes Spec RoutesSpec Matcher CONFIG.

Variable svc : Services.

Lemma matchSceneToAssets_world scene w :
  db (snd (matchSceneToAssets svc scene w)) = db w
  /\ generations (calls (snd (matchSceneToAssets svc scene w)))
     = generations (calls w)
  /\ ffmpegRuns (calls (snd (matchSceneToAssets svc scene w)))
     = ffmpegRuns (calls w).
Proof.
  unfold matchSceneToAssets, generateEmbedding, searchLanceDB, bind, logCall,
    liftResult, ret. simpl.
  destruct (svc_generateEmbedding svc (searchText scene)) as [e|msg]; simpl.
  - destruct (svc_searchLanceDB svc e 20%nat (mediaTypeFor scene)); simpl;
      unfold generations, ffmpegRuns; rewrite !filter_app, !length_app;
      simpl; repeat split; lia.
  - unfold generations, ffmpegRuns; rewrite !filter_app, !length_app;
      simpl; repeat split; lia.
Qed.

Lemma markedForGeneration_sameShot scene :
  sameShot scene (markedForGeneration scene).
Proof. apply sameShot_setResolution. Qed.

Lemma matchedWith_sameShot scene best : sameShot scene (matchedWith scene best).
Proof. apply sameShot_setResolution. Qed.

(** One iteration of the loop of the match route. *)
Lemma matchScene_frame id scene w :
  let run := matchScene svc id scene w in
  Db.storyboards (db (snd run)) = Db.storyboards (db w)
  /\ Db.productionJobs (db (snd run)) = Db.productionJobs (db w)
  /\ Db.generatedAssets (db (snd run)) = Db.generatedAssets (db w)
  /\ generations (calls (snd run)) = generations (calls w)
  /\ ffmpegRuns (calls (snd run)) = ffmpegRuns (calls w)
  /\ ((exists msg,
          fst (matchSceneToAssets svc scene w) = Throw msg
          /\ fst run = Ok (scene, generate)
          /\ Db.sceneMatches (db (snd run)) = Db.sceneMatches (db w))
      \/ (exists matches,
             fst (matchSceneToAssets svc scene w) = Ok matches
             /\ getBestMatch matches = None
             /\ fst run = Ok (markedForGeneration scene, generate)
             /\ Db.sceneMatches (db (snd run)) = Db.sceneMatches (db w))
      \/ (exists matches best,
             fst (matchSceneToAssets svc scene w) = Ok matches
             /\ getBestMatch matches = Some best
             /\ fst run = Ok (matchedWith scene best, matched)
             /\ Db.sceneMatches (db (snd run))
                = Db.sceneMatches (db w) ++ [matchRow id scene best])).
Proof.
  intros run.
  assert (Hrun : run = matchScene svc id scene w) by reflexivity.
  clearbody run.
  destruct (matchSceneToAssets_world scene w) as (Hdb & Hgen & Hff).
  unfold matchScene, tryCatch in Hrun. unfold bind at 1 in Hrun.
  destruct (matchSceneToAssets svc scene w) as [[matches|msg] w1] eqn:Hm;
    simpl in Hdb, Hgen, Hff.
  - destruct (getBestMatch matches) as [best|] eqn:Hbest.
    + unfold bind, insertSceneMatch, writeDb, ret in Hrun. simpl in Hrun.
      subst run. simpl. rewrite Hdb.
      repeat (split; [auto|]).
      right. right. exists matches, best. repeat split; auto.
    + unfold ret in Hrun. subst run. simpl. rewrite Hdb.
      repeat (split; [auto|]).
      right. left. exists matches. repeat split; auto.
  - unfold ret in Hrun. subst run. simpl. rewrite Hdb.
    repeat (split; [auto|]).
    left. exists msg. repeat split; auto.
Qed.

(** The match the route accepts passed both thresholds. *)
Lemma best_accepted scene w matches best :
  fst (matchSceneToAssets svc scene w) = Ok matches ->
  getBestMatch matches = Some best ->
  THRESHOLDS.compositeMinimum <= AssetMatch.compositeScore best
  /\ THRESHOLDS.semanticMinimum <= AssetMatch.semanticScore best
  /\ AssetMatch.needsReview best = reviewFlag (AssetMatch.compositeScore best).
Proof.
  intros Hm Hbest. split.
  - destruct matches as [|top rest]; [discriminate|].
    rewrite getBestMatch_cons in Hbest.
    destruct (JS.geb (AssetMatch.compositeScore top)
                THRESHOLDS.compositeMinimum) eqn:G; [|discriminate].
    injection Hbest as <-. now apply geb_true_iff in G.
  - apply getBestMatch_In in Hbest.
    destruct (matchSceneToAssets_origin svc scene w matches Hm)
      as (e & c & _ & _ & ->).
    apply (proj1 (in_sortByComposite _ _)) in Hbest.
    apply (proj1 (in_scoreCandidates _ _ _ _)) in Hbest as (asset & _ & Hs).
    destruct (scoreCandidate_inv scene e asset best Hs)
      as (Hsem & Heq & _ & Hrev).
    split; [rewrite Heq; exact Hsem | exact Hrev].
Qed.

Lemma matchOutcome_sameShot scene r : matchOutcome scene r -> sameShot scene (fst r).
Proof.
  intros [(_ & best & -> & _) | (_ & [-> | ->])].
  - apply matchedWith_sameShot.
  - apply sameShot_refl.
  - apply markedForGeneration_sameShot.
Qed.

Lemma acceptedRow_weaken id scene scenes row :
  acceptedRow id scenes row -> acceptedRow id (scene :: scenes) row.
Proof.
  intros (sc & best & Hin & H). exists sc, best. split; [now right|exact H].
Qed.

(** The loop of the match route. *)
Lemma matchScenes_frame id scenes :
  forall w,
    let run := matchScenes svc id scenes w in
    Db.storyboards (db (snd run)) = Db.storyboards (db w)
    /\ Db.productionJobs (db (snd run)) = Db.productionJobs (db w)
    /\ Db.generatedAssets (db (snd run)) = Db.generatedAssets (db w)
    /\ generations (calls (snd run)) = generations (calls w)
    /\ ffmpegRuns (calls (snd run)) = ffmpegRuns (calls w)
    /\ exists results added,
         fst run = Ok results
         /\ Forall2 matchOutcome scenes results
         /\ Db.sceneMatches (db (snd run)) = Db.sceneMatches (db w) ++ added
         /\ Forall (acceptedRow id scenes) added
         /\ (List.length added <= List.length scenes)%nat.
Proof.
  induction scenes as [|scene rest IH]; intros w run.
  - subst run. simpl. repeat (split; [reflexivity|]).
    exists [], []. rewrite app_nil_r. repeat split; constructor.
  - assert (Hrun : run = matchScenes svc id (scene :: rest) w)
      by reflexivity.
    clearbody run. simpl in Hrun. unfold bind at 1 in Hrun.
    pose proof (matchScene_frame id scene w)
      as (Hsb & Hjobs & Hga & Hgen & Hff & Hcase).
    assert (Hone :
              exists r added,
                fst (matchScene svc id scene w) = Ok r
                /\ matchOutcome scene r
                /\ Db.sceneMatches (db (snd (matchScene svc id scene w)))
                   = Db.sceneMatches (db w) ++ added
                /\ Forall (acceptedRow id (scene :: rest)) added
                /\ (List.length added <= 1)%nat).
    { destruct Hcase as [(msg & _ & Hr & Hsm)
                        | [(matches & _ & _ & Hr & Hsm)
                          | (matches & best & Hm & Hbest & Hr & Hsm)]].
      - exists (scene, generate), []. rewrite app_nil_r.
        repeat split; auto. right. split; auto.
      - exists (markedForGeneration scene, generate), [].
        rewrite app_nil_r. repeat split; auto. right. split; auto.
      - destruct (best_accepted scene w matches best Hm Hbest)
          as (Hc & Hs & Hrev).
        exists (matchedWith scene best, matched), [matchRow id scene best].
        repeat split; auto.
        + left. split; [reflexivity|]. exists best. split; auto.
        + constructor; [|constructor].
          exists scene, best. repeat split; auto. now left. }
    destruct Hone as (r & added1 & Hr & Hout & Hsm & Hacc & Hlen).
    destruct (matchScene svc id scene w) as [r1 w1].
    simpl in Hsb, Hjobs, Hga, Hgen, Hff, Hr, Hsm. subst r1.
    unfold bind at 1 in Hrun.
    pose proof (IH w1)
      as (Hsb' & Hjobs' & Hga' & Hgen' & Hff'
          & results & added2 & Hrs & Houts & Hsm' & Hacc' & Hlen').
    destruct (matchScenes svc id rest w1) as [rs w2].
    simpl in Hsb', Hjobs', Hga', Hgen', Hff', Hrs, Hsm'. subst rs.
    unfold ret in Hrun. subst run. simpl.
    repeat (split; [congruence|]).
    exists (r :: results), (added1 ++ added2).
    split; [reflexivity|].
    split; [constructor; auto|].
    split; [rewrite Hsm', Hsm; now rewrite app_assoc|].
    split.
    + apply Forall_app. split; [exact Hacc|].
      eapply Forall_impl; [|exact Hacc'].
      intros row. apply acceptedRow_weaken.
    + rewrite length_app. lia.
Qed.

(** X17. POST /:id/match.  For an unknown storyboard the route answers 404
    and changes nothing.  Otherwise it answers 200 whatever the embedding
    service and the search do, with no request to the generator or to
    ffmpeg and no change to the jobs and generated_assets tables; it only
    appends to scene_matches, at most one row per scene, each with source
    existing for a match that passed the semantic and the composite
    threshold; and in the storyboards table it rewrites only the scenes of
    that storyboard: each scene is stored either as matched with such a
    candidate, or marked for generation, or, when matching it failed,
    unchanged. *)
Theorem matchRoute_outcome id w :
  let run := matchRoute svc id w in
  (find (fun s => String.eqb (Db.sb_storyboardId s) id)
     (Db.storyboards (db w)) = None ->
   run = (Ok 404%nat, w))
  /\ (forall row,
         find (fun s => String.eqb (Db.sb_storyboardId s) id)
           (Db.storyboards (db w)) = Some row ->
         fst run = Ok 200%nat
         /\ Db.productionJobs (db (snd run)) = Db.productionJobs (db w)
         /\ Db.generatedAssets (db (snd run)) = Db.generatedAssets (db w)
         /\ generations (calls (snd run)) = generations (calls w)
         /\ ffmpegRuns (calls (snd run)) = ffmpegRuns (calls w)
         /\ (exists added,
                Db.sceneMatches (db (snd run))
                = Db.sceneMatches (db w) ++ added
                /\ Forall (acceptedRow id (Db.sb_scenesJson row)) added
                /\ (List.length added
                    <= List.length (Db.sb_scenesJson row))%nat)
         /\ onlyStoryboardTouched id (Db.storyboards (db w))
              (Db.storyboards (db (snd run)))
         /\ forall r',
              In r' (Db.storyboards (db (snd run))) ->
              Db.sb_storyboardId r' = id ->
              exists results,
                Db.sb_scenesJson r' = map fst results
                /\ Forall2 matchOutcome (Db.sb_scenesJson row) results).
Proof.
  intros run.
  assert (Hrun : run = matchRoute svc id w) by reflexivity.
  clearbody run.
  unfold matchRoute, bind, selectStoryboard, readDb, ret in Hrun.
  simpl in Hrun.
  split.
  - intros Hrow. rewrite Hrow in Hrun. exact Hrun.
  - intros row Hrow. rewrite Hrow in Hrun.
    pose proof (matchScenes_frame id (Db.sb_scenesJson row) w)
      as (Hsb & Hjobs & Hga & Hgen & Hff
          & results & added & Hrs & Houts & Hsm & Hacc & Hlen).
    destruct (matchScenes svc id (Db.sb_scenesJson row) w) as [rs w1].
    simpl in Hsb, Hjobs, Hga, Hgen, Hff, Hrs, Hsm. subst rs.
    destruct (updateStoryboardScenes_rows id (map fst results) w1)
      as (Urel & Urows).
    assert (Hw : snd run = snd (updateStoryboardScenes id (map fst results)
                                  w1)) by (subst run; reflexivity).
    assert (Hf : fst run = Ok 200%nat) by (subst run; reflexivity).
    clear Hrun. rewrite Hw.
    split; [exact Hf|].
    split; [exact Hjobs|]. split; [exact Hga|].
    split; [exact Hgen|]. split; [exact Hff|].
    split; [exists added; repeat split; auto|].
    split; [rewrite <- Hsb; exact Urel|].
    intros r' Hin Hid. exists results. split; [|exact Houts].
    exact (Urows r' Hin Hid).
Qed.

End MatchRoute.

Section MatchRouteSample.

Local Open Scope R_scope.
Import Effects Routes.

Lemma matchRoute_outcome_witness :
  fst (matchRoute Samples.services0 "sb_1" Samples.world0) = Ok 200%nat
  /\ Db.productionJobs
       (db (snd (matchRoute Samples.services0 "sb_1" Samples.world0)))
     = Db.productionJobs (db Samples.world0).
Proof.
  destruct (proj2 (matchRoute_outcome Samples.services0 "sb_1"
                     Samples.world0)
              (Db.mkStoryboardRow "sb_1" "Morning" [Samples.scene0] 1920
                 1080 30) eq_refl) as (H200 & Hjobs & _).
  split; [exact H200|exact Hjobs].
Defined.

End MatchRouteSample.

Section OverrideRoute.

Local Open Scope R_scope.
Import Effects Routes Spec RoutesSpec.

(** [findIndex] finds nothing exactly when no scene carries the id. *)
Lemma overrideScene_None scenes sceneId assetId :
  overrideScene scenes sceneId assetId = None
  <-> Forall (fun s => Scene.sceneId s <> sceneId) scenes.
Proof.
  induction scenes as [|s rest IH]; simpl.
  - split; auto.
  - destruct (String.eqb (Scene.sceneId s) sceneId) eqn:E.
    + split; [discriminate|]. intros H. inversion H as [|? ? Hne _]; subst.
      apply String.eqb_eq in E. contradiction.
    + apply String.eqb_neq in E. split.
      * intros H. constructor; [exact E|]. apply IH.
        now destruct (overrideScene rest sceneId assetId).
      * intros H. inversion H as [|? ? _ Hrest]; subst.
        apply IH in Hrest. now rewrite Hrest.
Qed.

(** Otherwise only the first scene with the id is rewritten. *)
Lemma overrideScene_first before s after sceneId assetId :
  Forall (fun s0 => Scene.sceneId s0 <> sceneId) before ->
  Scene.sceneId s = sceneId ->
  overrideScene (before ++ s :: after) sceneId assetId
  = Some (before
          ++ Scene.setResolution s (Some assetId) (Some 1.0) (Some manual)
               false :: after).
Proof.
  intros Hbefore Hs. induction Hbefore as [|s0 before Hne _ IH]; simpl.
  - apply String.eqb_eq in Hs. now rewrite Hs.
  - apply String.eqb_neq in Hne. now rewrite Hne, IH.
Qed.

(** X18. POST /:storyboardId/scenes/:sceneId/override.  The route answers
    400 when assetId or assetPath is missing or empty, 404 when the
    storyboard does not exist or none of its scenes has the id, and in
    these cases changes nothing.  Otherwise it answers 200, calls no
    collaborator, appends one manual row with score 1.0 to scene_matches,
    and rewrites in the storyboard only the first scene with that id: the
    scene gets the asset id, score 1.0, source manual and needsReview
    false; the scenes before and after it are stored as they were. *)
Theorem overrideRoute_outcome storyboardId sceneId body_assetId body_assetPath w :
  let run := overrideRoute storyboardId sceneId body_assetId body_assetPath w in
  let lookup :=
    find (fun s => String.eqb (Db.sb_storyboardId s) storyboardId)
      (Db.storyboards (db w)) in
  (JS.truthy body_assetId && JS.truthy body_assetPath = false ->
   run = (Ok 400%nat, w))
  /\ (JS.truthy body_assetId && JS.truthy body_assetPath = true ->
      lookup = None ->
      run = (Ok 404%nat, w))
  /\ (forall row,
         JS.truthy body_assetId && JS.truthy body_assetPath = true ->
         lookup = Some row ->
         Forall (fun s => Scene.sceneId s <> sceneId) (Db.sb_scenesJson row) ->
         run = (Ok 404%nat, w))
  /\ (forall row before s after assetId assetPath,
         body_assetId = Some assetId ->
         body_assetPath = Some assetPath ->
         assetId <> ""%string ->
         assetPath <> ""%string ->
         lookup = Some row ->
         Db.sb_scenesJson row = before ++ s :: after ->
         Forall (fun s0 => Scene.sceneId s0 <> sceneId) before ->
         Scene.sceneId s = sceneId ->
         fst run = Ok 200%nat
         /\ calls (snd run) = calls w
         /\ Db.productionJobs (db (snd run)) = Db.productionJobs (db w)
         /\ Db.generatedAssets (db (snd run)) = Db.generatedAssets (db w)
         /\ Db.sceneMatches (db (snd run))
            = Db.sceneMatches (db w)
              ++ [Db.mkSceneMatchRow storyboardId sceneId assetId assetPath
                    manual 1.0 false]
         /\ onlyStoryboardTouched storyboardId (Db.storyboards (db w))
              (Db.storyboards (db (snd run)))
         /\ forall r',
              In r' (Db.storyboards (db (snd run))) ->
              Db.sb_storyboardId r' = storyboardId ->
              Db.sb_scenesJson r'
              = before
                ++ Scene.setResolution s (Some assetId) (Some 1.0)
                     (Some manual) false :: after).
Proof.
  intros run lookup. subst run lookup.
  split; [|split; [|split]].
  - unfold overrideRoute.
    destruct body_assetId as [a|], body_assetPath as [p|]; simpl; auto.
    destruct (String.eqb a ""), (String.eqb p ""); simpl; auto; discriminate.
  - intros Hbody Hrow. unfold overrideRoute.
    destruct body_assetId as [a|], body_assetPath as [p|];
      try discriminate; try (simpl in Hbody; rewrite andb_false_r in Hbody;
                             discriminate).
    rewrite <- negb_andb, Hbody. simpl.
    unfold bind, selectStoryboard, readDb, ret. simpl. now rewrite Hrow.
  - intros row Hbody Hrow Hnone. unfold overrideRoute.
    destruct body_assetId as [a|], body_assetPath as [p|];
      try discriminate; try (simpl in Hbody; rewrite andb_false_r in Hbody;
                             discriminate).
    rewrite <- negb_andb, Hbody. simpl.
    unfold bind, selectStoryboard, readDb, ret. simpl. rewrite Hrow.
    apply (overrideScene_None _ _ a) in Hnone. now rewrite Hnone.
  - intros row before s after a p -> -> Ha Hp Hrow Hscenes Hbefore Hs.
    apply String.eqb_neq in Ha, Hp.
    unfold overrideRoute, JS.truthy. rewrite Ha, Hp. simpl.
    unfold bind at 1. unfold selectStoryboard, bind, readDb, ret.
    rewrite Hrow, Hscenes.
    rewrite (overrideScene_first before s after sceneId a Hbefore Hs).
    destruct (updateStoryboardScenes_rows storyboardId
                (before
                 ++ Scene.setResolution s (Some a) (Some 1.0) (Some manual)
                      false :: after)
                (snd (insertSceneMatch
                        (Db.mkSceneMatchRow storyboardId sceneId a p manual
                           1.0 false) w))) as (Urel & Urows).
    repeat (split; [reflexivity|]).
    split; [exact Urel|exact Urows].
Qed.

Lemma overrideRoute_outcome_witness :
  let run :=
    overrideRoute "sb_1" "sc_1" (Some "asset_42"%string)
      (Some "/media/a42.mp4"%string) Samples.world0 in
  fst run = Ok 200%nat
  /\ Db.sceneMatches (db (snd run))
     = [Db.mkSceneMatchRow "sb_1" "sc_1" "asset_42" "/media/a42.mp4" manual
          1.0 false].
Proof.
  destruct (proj2 (proj2 (proj2
              (overrideRoute_outcome "sb_1" "sc_1" (Some "asset_42"%string)
                 (Some "/media/a42.mp4"%string) Samples.world0)))
              (Db.mkStoryboardRow "sb_1" "Morning" [Samples.scene0] 1920
                 1080 30)
              [] Samples.scene0 [] "asset_42"%string "/media/a42.mp4"%string
              eq_refl eq_refl
              (fun H => eq_ind "asset_42"%string
                          (fun v => match v with
                                    | EmptyString => False
                                    | String _ _ => True
                                    end) I _ H)
              (fun H => eq_ind "/media/a42.mp4"%string
                          (fun v => match v with
                                    | EmptyString => False
                                    | String _ _ => True
                                    end) I _ H)
              eq_refl eq_refl (Forall_nil _) eq_refl)
    as (H200 & _ & _ & _ & Hsm & _).
  split; [exact H200|exact Hsm].
Defined.

End OverrideRoute.

Section GenerationCount.

Local Open Scope R_scope.
Import Effects Routes Spec RoutesSpec.

Variable svc : Services.

Lemma resolveScene_generations jobId storyboardId totalScenes i scene w :
  let run := resolveScene svc jobId storyboardId totalScenes i scene w in
  (generations (calls (snd run)) <= S (generations (calls w)))%nat
  /\ (Scene.assetSource scene <> Some existing ->
      forall r, fst run = Ok r ->
                generations (calls (snd run)) = S (generations (calls w))).
Proof.
  intros run. subst run.
  pose proof (resolveScene_frame svc jobId storyboardId totalScenes i scene w)
    as (_ & _ & _ & _ & Hthrow & Hok).
  destruct (resolveScene svc jobId storyboardId totalScenes i scene w)
    as [[[scene' asset]|msg] w1]; simpl in Hthrow, Hok; simpl.
  - destruct (Hok scene' asset eq_refl)
      as (_ & [(_ & Hex & _ & _ & Hc) | (g & _ & _ & _ & Hgen)]).
    + split; [rewrite Hc; lia|]. intros Hne. contradiction.
    + split; [lia|]. intros _ r _. exact Hgen.
  - destruct (Hthrow msg eq_refl) as (_ & _ & Hc).
    split; [|intros _ r H; discriminate].
    rewrite Hc. unfold generations. rewrite filter_app, length_app.
    simpl. lia.
Qed.

Lemma resolveScenes_generations jobId storyboardId totalScenes scenes :
  forall i w,
    let run := resolveScenes svc jobId storyboardId totalScenes i scenes w in
    (generations (calls (snd run))
     <= generations (calls w) + List.length scenes)%nat
    /\ (Forall (fun s => Scene.assetSource s <> Some existing) scenes ->
        forall rs, fst run = Ok rs ->
                   generations (calls (snd run))
                   = (generations (calls w) + List.length scenes)%nat).
Proof.
  induction scenes as [|scene rest IH]; intros i w run.
  - subst run. simpl. split; [lia|]. intros _ rs _. lia.
  - assert (Hrun : run
                   = resolveScenes svc jobId storyboardId totalScenes i
                       (scene :: rest) w) by reflexivity.
    clearbody run. simpl in Hrun. unfold bind at 1 in Hrun.
    pose proof (resolveScene_generations jobId storyboardId totalScenes i
                  scene w) as (Hle & Heq).
    destruct (resolveScene svc jobId storyboardId totalScenes i scene w)
      as [[r|msg] w1]; simpl in Hle, Heq.
    + unfold bind at 1 in Hrun.
      pose proof (IH (S i) w1) as (Hle' & Heq').
      destruct (resolveScenes svc jobId storyboardId totalScenes (S i) rest
                  w1) as [[rs|msg] w2]; simpl in Hle', Heq';
        subst run; simpl.
      * split; [lia|]. intros Hall rs' _.
        inversion Hall as [|? ? Hs Hrest]; subst.
        rewrite (Heq' Hrest rs eq_refl), (Heq Hs r eq_refl). lia.
      * split; [lia|]. intros _ rs' H. discriminate.
    + subst run. simpl. split; [lia|]. intros _ rs' H. discriminate.
Qed.

(** The requests a job makes to the generator: one for each scene it
    cannot reuse, in scene order, up to the scene at which the loop stops;
    for all of them when the generator answers and the asset ids are
    fresh. *)
Lemma processProductionJob_generateCalls jobId storyboardId w row :
  find (fun s => String.eqb (Db.sb_storyboardId s) storyboardId)
    (Db.storyboards (db w)) = Some row ->
  let w' := snd (processProductionJob svc jobId storyboardId w) in
  let scenes := toGenerate w (Db.sb_scenesJson row) in
  exists k,
    generateCalls (calls w')
    = generateCalls (calls w) ++ map Scene.sceneId (firstn k scenes)
    /\ (idsFresh svc w (List.length (Db.sb_scenesJson row)) = true ->
        (forall scene, In scene (Db.sb_scenesJson row) ->
                       exists g, svc_generateVideoForScene svc scene = Ok g) ->
        firstn k scenes = scenes).
Proof.
  intros Hrow w' scenes. subst w' scenes.
  destruct (processProductionJob_calls svc jobId storyboardId w row Hrow)
    as (extra & -> & Hextra & _).
  rewrite generateCalls_app, (generateCalls_none extra Hextra), app_nil_r.
  destruct (resolveScenes_generateCalls svc jobId storyboardId
              (List.length (Db.sb_scenesJson row)) (Db.sb_scenesJson row)
              0%nat (snd (updateJobStatus jobId matching 0.1 None w)))
    as (k & Hk & Hall).
  rewrite (toGenerate_same w (snd (updateJobStatus jobId matching 0.1 None w))
             (Db.sb_scenesJson row) eq_refl) in Hk, Hall.
  exists k. split; [exact Hk|].
  intros Hfresh Hgen.
  destruct (afterLoop_fresh svc jobId storyboardId row w Hfresh Hgen)
    as (rs & w2 & Hloop).
  apply Hall with rs. unfold afterLoop in Hloop. now rewrite Hloop.
Qed.

(** X19. A production job asks the generator at most once per scene of the
    storyboard.  When no scene of the storyboard is an existing match, as
    for a storyboard that was never matched, the generator answers for
    each scene, and the asset ids the job draws (one for each scene) are
    distinct and not yet in generated_assets, it asks exactly once per
    scene, in scene order. *)
Theorem job_generation_count jobId storyboardId w row :
  find (fun s => String.eqb (Db.sb_storyboardId s) storyboardId)
    (Db.storyboards (db w)) = Some row ->
  let w' := snd (processProductionJob svc jobId storyboardId w) in
  (generations (calls w')
   <= generations (calls w) + List.length (Db.sb_scenesJson row))%nat
  /\ (Forall (fun s => Scene.assetSource s <> Some existing)
        (Db.sb_scenesJson row) ->
      (forall scene, In scene (Db.sb_scenesJson row) ->
                     exists g, svc_generateVideoForScene svc scene = Ok g) ->
      idsFresh svc w (List.length (Db.sb_scenesJson row)) = true ->
      generations (calls w')
      = (generations (calls w) + List.length (Db.sb_scenesJson row))%nat
      /\ generateCalls (calls w')
         = generateCalls (calls w)
           ++ map Scene.sceneId (Db.sb_scenesJson row)).
Proof.
  intros Hrow w'. subst w'.
  destruct (processProductionJob_generateCalls jobId storyboardId w row Hrow)
    as (k & Hk & Hall).
  destruct (processProductionJob_calls svc jobId storyboardId w row Hrow)
    as (extra & Hcalls & Hextra & _).
  split.
  - rewrite Hcalls, generations_app, Hextra, Nat.add_0_r.
    apply (resolveScenes_generations jobId storyboardId
             (List.length (Db.sb_scenesJson row)) (Db.sb_scenesJson row)
             0%nat (snd (updateJobStatus jobId matching 0.1 None w))).
  - intros Hsrc Hgen Hfresh.
    assert (Hto : toGenerate w (Db.sb_scenesJson row)
                  = Db.sb_scenesJson row).
    { unfold toGenerate. clear - Hsrc.
      induction Hsrc as [|scene rest Hs _ IH]; [reflexivity|].
      cbn [filter]. unfold reused at 1.
      rewrite (reuseMatched_not_existing scene w Hs). cbn [fst negb].
      now rewrite IH. }
    rewrite (Hall Hfresh Hgen), Hto in Hk.
    split; [|exact Hk].
    rewrite <- !generateCalls_length, Hk, length_app, length_map.
    reflexivity.
Qed.

End GenerationCount.

Section GenerationCountSample.

Local Open Scope R_scope.
Import Effects Routes RoutesSpec.

Lemma job_generation_count_witness :
  generateCalls
    (calls (snd (processProductionJob Samples.servicesFresh "job_2" "sb_2"
                   Samples.worldTwoScenes)))
  = ["sc_b"; "sc_c"]%string.
Proof.
  refine (proj2 (proj2 (job_generation_count Samples.servicesFresh "job_2"
                          "sb_2" Samples.worldTwoScenes Samples.rowTwoScenes
                          eq_refl) _ _ _)).
  - repeat constructor; discriminate.
  - intros scene _. eexists. reflexivity.
  - reflexivity.
Defined.

End GenerationCountSample.

Section BestMatchOrGenerate.

Local Open Scope R_scope.
Import Effects Routes Spec RoutesSpec.

Lemma NoDup_map_filter {A B} (f : A -> B) (p : A -> bool) l :
  NoDup (map f l) -> NoDup (map f (filter p l)).
Proof.
  induction l as [|a l IH]; simpl; intros H; [constructor|].
  inversion H as [|? ? Hnotin Hnd]; subst.
  destruct (p a); simpl; auto.
  constructor; auto.
  intros Hin. apply Hnotin.
  apply in_map_iff in Hin as (y & Hy & Hiny).
  apply filter_In in Hiny as (Hiny & _).
  rewrite <- Hy. now apply in_map.
Qed.

(** A scene that is not stored as an existing match is never reused. *)
Lemma reused_not_existing w scene :
  Scene.assetSource scene <> Some existing -> reused w scene = false.
Proof.
  intros H. unfold reused.
  now rewrite (reuseMatched_not_existing scene w H).
Qed.

(** With distinct scene ids, a scene the job has to generate occurs once
    among the requests for all such scenes. *)
Lemma toGenerate_once w scenes scene :
  NoDup (map Scene.sceneId scenes) ->
  In scene scenes ->
  Scene.assetSource scene <> Some existing ->
  count_occ string_dec (map Scene.sceneId (toGenerate w scenes))
    (Scene.sceneId scene)
  = 1%nat.
Proof.
  intros Hnd Hin Hsrc.
  apply (proj1 (NoDup_count_occ' string_dec _)).
  - now apply NoDup_map_filter.
  - apply in_map. apply filter_In. split; [exact Hin|].
    now rewrite (reused_not_existing w scene Hsrc).
Qed.

(** What the match route does with a scene without best match: it marks
    it for generation and asks the generator for nothing. *)
Lemma matchScene_marks svc id scene w0 matches w1 :
  Matcher.matchSceneToAssets svc scene w0 = (Ok matches, w1) ->
  Matcher.getBestMatch matches = None ->
  matchScene svc id scene w0
  = (Ok (markedForGeneration scene, generate), w1)
  /\ generations (calls w1) = generations (calls w0)
  /\ forall w, reused w (markedForGeneration scene) = false.
Proof.
  intros Hm Hb.
  pose proof (matchScene_no_best svc id scene w0 matches w1 Hm Hb) as Hrun.
  split; [exact Hrun|].
  split.
  - pose proof (matchScene_frame svc id scene w0) as (_ & _ & _ & Hg & _).
    now rewrite Hrun in Hg.
  - intros w. apply reused_not_existing. simpl. discriminate.
Qed.

End BestMatchOrGenerate.

Section BestMatchContract.

Import PrimFloat.
Local Open Scope float_scope.

(** C7, as the code computes it.  [getBestMatch] returns the top
    candidate when its composite score is at least the floor 0.78 and null
    otherwise, also on the empty list; on a list in decreasing order
    whose top score is a number it is null exactly when every candidate is
    below 0.78.  [shouldGenerate] is true exactly when [getBestMatch] is
    null provided the top composite score is a number; when it is NaN,
    as it is for every candidate whose semantic score is NaN, which the
    scoring loop does not skip, [getBestMatch] is null and
    [shouldGenerate] is false.  The match
    route consults [getBestMatch] only: a scene without best match is
    marked for generation, with no request to the generator.  A production
    job never queries the search, and it asks the generator once for each
    scene it cannot reuse, in scene order, up to the scene at which it
    stops; for every such scene when the generator answers for each scene
    and the asset ids the job draws are new, so that, with distinct scene
    ids, a scene that is not an existing match is generated exactly
    once. *)
Theorem best_match_or_generate :
  Binary64.getBestMatch [] = None
  /\ Binary64.shouldGenerate [] = true
  /\ (forall top rest,
         (Binary64.compositeMinimum <=? Binary64.compositeScore top) = true ->
         Binary64.getBestMatch (top :: rest) = Some top)
  /\ (forall top rest,
         (Binary64.compositeMinimum <=? Binary64.compositeScore top) = false ->
         Binary64.getBestMatch (top :: rest) = None)
  /\ (forall l,
         Binary64Spec.descending l ->
         Binary64Spec.topIsNumber l ->
         Binary64.getBestMatch l = None
         <-> Forall
               (fun m =>
                  (Binary64.compositeScore m <? Binary64.compositeMinimum)
                  = true)
               l)
  /\ (forall l,
         Binary64Spec.topIsNumber l ->
         Binary64.shouldGenerate l = true <-> Binary64.getBestMatch l = None)
  /\ (forall top rest,
         is_nan (Binary64.compositeScore top) = true ->
         Binary64.getBestMatch (top :: rest) = None
         /\ Binary64.shouldGenerate (top :: rest) = false)
  /\ (forall id path semantic style useCase quality duration,
         is_nan semantic = true ->
         exists m,
           Binary64.pushed id path semantic style useCase quality duration
           = Some m
           /\ is_nan (Binary64.compositeScore m) = true)
  /\ (forall svc id scene w0 matches w1,
         Matcher.matchSceneToAssets svc scene w0 = (Ok matches, w1) ->
         Matcher.getBestMatch matches = None ->
         Routes.matchScene svc id scene w0
         = (Ok (RoutesSpec.markedForGeneration scene, Routes.generate), w1)
         /\ Effects.generations (Effects.calls w1)
            = Effects.generations (Effects.calls w0)
         /\ forall w,
              RoutesSpec.reused w (RoutesSpec.markedForGeneration scene)
              = false)
  /\ (forall svc jobId storyboardId w row,
         find (fun s => String.eqb (Db.sb_storyboardId s) storyboardId)
           (Db.storyboards (Effects.db w)) = Some row ->
         let w' := snd (Routes.processProductionJob svc jobId storyboardId w)
         in
         let scenes := RoutesSpec.toGenerate w (Db.sb_scenesJson row) in
         Effects.searches (Effects.calls w')
         = Effects.searches (Effects.calls w)
         /\ exists k,
              RoutesSpec.generateCalls (Effects.calls w')
              = RoutesSpec.generateCalls (Effects.calls w)
                ++ map Scene.sceneId (firstn k scenes)
              /\ (RoutesSpec.idsFresh svc w
                    (List.length (Db.sb_scenesJson row)) = true ->
                  (forall scene,
                      In scene (Db.sb_scenesJson row) ->
                      exists g,
                        Effects.svc_generateVideoForScene svc scene = Ok g) ->
                  firstn k scenes = scenes
                  /\ forall scene,
                       NoDup (map Scene.sceneId (Db.sb_scenesJson row)) ->
                       In scene (Db.sb_scenesJson row) ->
                       Scene.assetSource scene <> Some existing ->
                       count_occ string_dec
                         (map Scene.sceneId (firstn k scenes))
                         (Scene.sceneId scene)
                       = 1%nat)).
Proof.
  split; [reflexivity|]. split; [reflexivity|].
  split; [intros top rest H; now rewrite getBestMatch64_cons, H|].
  split; [intros top rest H; now rewrite getBestMatch64_cons, H|].
  split; [exact getBestMatch64_sorted_None|].
  split; [exact shouldGenerate64_iff|].
  split; [exact shouldGenerate64_nan|].
  split; [exact pushed_nan|].
  split; [exact matchScene_marks|].
  intros svc jobId storyboardId w row Hrow w' scenes.
  split; [apply processProductionJob_searches|].
  destruct (processProductionJob_generateCalls svc jobId storyboardId w row
              Hrow) as (k & Hk & Hall).
  exists k. split; [exact Hk|].
  intros Hfresh Hgen. specialize (Hall Hfresh Hgen).
  split; [exact Hall|].
  intros scene Hnd Hin Hsrc. fold scenes in Hall. rewrite Hall.
  now apply toGenerate_once.
Qed.

Lemma best_match_or_generate_witness :
  Binary64.shouldGenerate [Binary64Spec.matchHalf] = true
  /\ Binary64.getBestMatch [Binary64Spec.matchHalf] = None
  /\ RoutesSpec.generateCalls
       (Effects.calls
          (snd (Routes.processProductionJob Samples.servicesFresh "job_2"
                  "sb_2" Samples.worldTwoScenes)))
     = ["sc_b"; "sc_c"]%string.
Proof.
  destruct best_match_or_generate
    as (_ & _ & _ & Hnone & _ & Hiff & _ & _ & _ & Hjob).
  assert (Hbest : Binary64.getBestMatch [Binary64Spec.matchHalf] = None)
    by (apply Hnone; reflexivity).
  split; [|split; [exact Hbest|]].
  - apply (proj2 (Hiff [Binary64Spec.matchHalf] eq_refl) Hbest).
  - destruct (Hjob Samples.servicesFresh "job_2"%string "sb_2"%string
                Samples.worldTwoScenes Samples.rowTwoScenes eq_refl)
      as (_ & k & Hk & Hall).
    destruct (Hall eq_refl (fun scene _ => ex_intro _ _ eq_refl))
      as (Hfull & _).
    rewrite Hk, Hfull. reflexivity.
Defined.

(** A candidate whose vector makes the dot product overflow has NaN for
    semantic score.  The scoring loop does not skip it, its composite
    score is NaN, and on the list that holds it [getBestMatch] is null
    while [shouldGenerate] is false. *)
Lemma shouldGenerate_nan_counterexample :
  let semantic :=
    Binary64.cosineSimilarity Binary64Spec.embeddingOnes
      Binary64Spec.vectorHuge in
  is_nan semantic = true
  /\ exists m,
       Binary64.pushed "a_nan" "/media/a_nan.mp4" semantic 0.5 0.5 1 0.5
       = Some m
       /\ is_nan (Binary64.compositeScore m) = true
       /\ Binary64.getBestMatch [m] = None
       /\ Binary64.shouldGenerate [m] = false
       /\ ~ (Binary64.shouldGenerate [m] = true
             <-> Binary64.getBestMatch [m] = None).
Proof.
  split; [reflexivity|].
  eexists. split; [reflexivity|].
  split; [reflexivity|]. split; [reflexivity|]. split; [reflexivity|].
  intros (_ & H). specialize (H eq_refl). discriminate H.
Qed.

End BestMatchContract.

(* ------------------------------------------------------------------ *)
(** * Properties of the generator client *)

Section HashCode.

Import Generator GeneratorSpec.
Local Open Scope Z_scope.

Lemma toInt32_range z : - 2 ^ 31 <= toInt32 z < 2 ^ 31.
Proof.
  unfold toInt32.
  pose proof (Z.mod_pos_bound (z + 2 ^ 31) (2 ^ 32) eq_refl). lia.
Qed.

Lemma toInt32_shift z q : toInt32 (z + q * 2 ^ 32) = toInt32 z.
Proof.
  unfold toInt32.
  replace (z + q * 2 ^ 32 + 2 ^ 31) with (z + 2 ^ 31 + q * 2 ^ 32) by ring.
  now rewrite Z_mod_plus_full.
Qed.

Lemma toInt32_wraps z : exists q, toInt32 z = z + q * 2 ^ 32.
Proof.
  exists (- ((z + 2 ^ 31) / 2 ^ 32)). unfold toInt32.
  pose proof (Z.div_mod (z + 2 ^ 31) (2 ^ 32)). lia.
Qed.

(** Every iteration is a multiplication by 31 and an addition, wrapped to
    32 bits. *)
Lemma hashStep_wrapped hash c :
  hashStep hash c = toInt32 (31 * hash + Z.of_nat (nat_of_ascii c)).
Proof.
  unfold hashStep. cbv zeta. rewrite Z.land_diag, Z.shiftl_mul_pow2 by lia.
  destruct (toInt32_wraps hash) as (q1 & ->).
  destruct (toInt32_wraps ((hash + q1 * 2 ^ 32) * 2 ^ 5)) as (q2 & ->).
  rewrite <- (toInt32_shift (31 * hash + Z.of_nat (nat_of_ascii c))
                (32 * q1 + q2)).
  f_equal. ring.
Qed.

Lemma hashLoop_poly31 str :
  forall acc, hashLoop (toInt32 acc) str = toInt32 (poly31 acc str).
Proof.
  induction str as [|c rest IH]; intros acc; cbn [hashLoop poly31];
    [reflexivity|].
  rewrite hashStep_wrapped.
  destruct (toInt32_wraps acc) as (q & ->).
  replace (31 * (acc + q * 2 ^ 32) + Z.of_nat (nat_of_ascii c))
    with (31 * acc + Z.of_nat (nat_of_ascii c) + (31 * q) * 2 ^ 32) by ring.
  rewrite toInt32_shift. apply IH.
Qed.

(** X20. [hashCode], the seed sent to the generator: wrapping to 32 bits
    in every iteration gives the same as wrapping once at the end, so the
    seed is the absolute value of the polynomial in 31 of the character
    codes taken as a 32-bit signed integer.  It lies between 0 and 2^31
    inclusive, and 2^31, which is not a 32-bit signed integer, is
    reached. *)
Theorem hashCode_closed_form :
  (forall str,
      hashCode str = Z.abs (toInt32 (poly31 0 str))
      /\ 0 <= hashCode str <= 2 ^ 31)
  /\ hashCode "" = 0
  /\ hashCode "polygenelubricants" = 2 ^ 31.
Proof.
  split; [|split; reflexivity].
  intros str.
  assert (H : hashCode str = Z.abs (toInt32 (poly31 0 str))).
  { unfold hashCode.
    change (hashLoop 0 str) with (hashLoop (toInt32 0) str).
    now rewrite hashLoop_poly31. }
  split; [exact H|].
  rewrite H. pose proof (toInt32_range (poly31 0 str)). lia.
Qed.

End HashCode.

Section Polling.

Import Generator GeneratorSpec.
Local Open Scope Z_scope.

Variable env : PollEnv.
Variables timeoutMs pollIntervalMs : Z.

(** After [maxChecks] waits the time limit is reached. *)
Lemma maxChecks_covers :
  0 < pollIntervalMs ->
  timeoutMs <= Z.of_nat (maxChecks timeoutMs pollIntervalMs) * pollIntervalMs.
Proof.
  intros Hi. unfold maxChecks.
  pose proof (Z.mul_succ_div_gt (timeoutMs + pollIntervalMs - 1)
                pollIntervalMs Hi) as H.
  destruct (Z.le_gt_cases 0 ((timeoutMs + pollIntervalMs - 1) / pollIntervalMs))
    as [Hq|Hq].
  - rewrite Z2Nat.id by exact Hq. lia.
  - replace (Z.of_nat
               (Z.to_nat ((timeoutMs + pollIntervalMs - 1) / pollIntervalMs)))
      with 0 by lia.
    nia.
Qed.

(** The loop ends within the bound when the clock advances by at least the
    interval per iteration. *)
Lemma pollLoop_bound startTime :
  0 < pollIntervalMs ->
  clockAdvances env ->
  forall fuel now k,
    Z.of_nat k * pollIntervalMs <= now - startTime ->
    (maxChecks timeoutMs pollIntervalMs < fuel + k)%nat ->
    (k <= maxChecks timeoutMs pollIntervalMs)%nat ->
    exists outcome n,
      pollLoop fuel env timeoutMs pollIntervalMs startTime now k
      = Some (outcome, n)
      /\ (n <= maxChecks timeoutMs pollIntervalMs)%nat.
Proof.
  intros Hi (_ & Hclock).
  pose proof (maxChecks_covers Hi) as Hcover.
  induction fuel as [|fuel IH]; intros now k Hel Hfuel Hk; [lia|].
  cbn [pollLoop].
  destruct (now - startTime <? timeoutMs) eqn:Ht.
  - apply Z.ltb_lt in Ht.
    assert (k < maxChecks timeoutMs pollIntervalMs)%nat as Hlt by nia.
    destruct (answer env k) as [st|msg]; [|eauto].
    destruct (completedUrl st); [eauto|].
    destruct (isFailed (status st)); [eauto|].
    destruct (Hclock k) as (Hl & Ho).
    apply IH; [nia|lia|lia].
  - eauto.
Qed.

(** How the loop ends, read off the answers. *)
Lemma pollLoop_trace startTime :
  forall fuel now k outcome n,
    pollLoop fuel env timeoutMs pollIntervalMs startTime now k
    = Some (outcome, n) ->
    (k <= n)%nat
    /\ (forall j, (k <= j)%nat ->
                  match outcome with
                  | inl (TimedOut _) => (j < n)%nat
                  | _ => (S j < n)%nat
                  end ->
                  keepsPolling (answer env j))
    /\ match outcome with
       | inr url =>
           exists m st,
             n = S m /\ answer env m = Ok st
             /\ status st = ltx_completed
             /\ output_url st = Some url /\ url <> ""%string
       | inl (GenerationFailed message) =>
           exists m st,
             n = S m /\ answer env m = Ok st
             /\ status st = ltx_failed
             /\ message = failureMessage st
       | inl (RequestRejected message) =>
           exists m, n = S m /\ answer env m = Throw message
       | inl (TimedOut t) => t = timeoutMs
       end.
Proof.
  induction fuel as [|fuel IH]; intros now k outcome n Hrun; [discriminate|].
  cbn [pollLoop] in Hrun.
  destruct (now - startTime <? timeoutMs).
  - destruct (answer env k) as [st|msg] eqn:Hans.
    + destruct (completedUrl st) as [url|] eqn:Hurl.
      * injection Hrun as <- <-.
        split; [lia|]. split; [intros j Hj Hlt; lia|].
        exists k, st. unfold completedUrl in Hurl.
        destruct (isCompleted (status st) && JS.truthy (output_url st))%bool
          eqn:Hc; [|discriminate].
        apply andb_true_iff in Hc as (Hc & Hu).
        repeat split; auto.
        -- now destruct (status st).
        -- intros ->. rewrite Hurl in Hu. discriminate.
      * destruct (isFailed (status st)) eqn:Hf.
        -- injection Hrun as <- <-.
           split; [lia|]. split; [intros j Hj Hlt; lia|].
           exists k, st. repeat split; auto. now destruct (status st).
        -- destruct (IH _ _ _ _ Hrun) as (Hle & Hkeep & Hend).
           split; [lia|]. split; [|exact Hend].
           intros j Hj Hlt.
           destruct (Nat.eq_dec j k) as [->|Hne].
           ++ exists st. repeat split; auto.
              unfold completedUrl in Hurl.
              destruct (isCompleted (status st)
                        && JS.truthy (output_url st))%bool eqn:Hc; auto.
              destruct (output_url st); [discriminate|].
              now rewrite andb_false_r in Hc.
           ++ apply Hkeep; [lia|exact Hlt].
    + injection Hrun as <- <-.
      split; [lia|]. split; [intros j Hj Hlt; lia|].
      exists k. auto.
  - injection Hrun as <- <-.
    split; [lia|]. split; [intros j Hj Hlt; lia|reflexivity].
Qed.

End Polling.

Section PollingResults.

Import Generator GeneratorSpec.
Local Open Scope Z_scope.

(** X22. [pollUntilComplete] ends, under these assumptions about time:
    pollIntervalMs is positive; the time between reading [startTime] and
    the first test of the loop is not negative; no status request takes
    negative time; and no wait of the loop ends before pollIntervalMs has
    passed, that is, timers never fire early.  Then, run for more than
    ceil(timeoutMs / pollIntervalMs) iterations, it returns or throws
    after at most ceil(timeoutMs / pollIntervalMs) status requests,
    whatever the service answers; with the default arguments that is at
    most 120 requests. *)
Theorem pollUntilComplete_terminates env timeoutMs pollIntervalMs fuel :
  0 < pollIntervalMs ->
  clockAdvances env ->
  (maxChecks timeoutMs pollIntervalMs < fuel)%nat ->
  (exists outcome n,
      pollUntilComplete fuel env timeoutMs pollIntervalMs = Some (outcome, n)
      /\ (n <= maxChecks timeoutMs pollIntervalMs)%nat)
  /\ maxChecks defaultTimeoutMs defaultPollIntervalMs = 120%nat.
Proof.
  intros Hi Hclock Hfuel. split; [|reflexivity].
  unfold pollUntilComplete.
  apply pollLoop_bound; auto; destruct Hclock; lia.
Qed.

Lemma pollUntilComplete_terminates_witness :
  exists outcome n,
    pollUntilComplete 121 (completedWithoutUrl 0) defaultTimeoutMs
      defaultPollIntervalMs = Some (outcome, n)
    /\ (n <= 120)%nat.
Proof.
  refine (proj1 (pollUntilComplete_terminates (completedWithoutUrl 0)
                   defaultTimeoutMs defaultPollIntervalMs 121 _ _ _)).
  - reflexivity.
  - split; [apply Z.le_refl|]. intros k. simpl. lia.
  - apply Nat.lt_succ_diag_r.
Defined.

(** X23. How [pollUntilComplete] ends.  It returns a URL only on an answer
    that is completed and carries that URL, non-empty; it throws the
    generation failure only on an answer that is failed, with the error of
    that answer or Unknown error in the message; it rejects with the error
    of a status request that was rejected; it times out with its own time
    limit.  Every answer before the last one was one to keep polling on:
    not failed, and not completed with a URL. *)
Theorem pollUntilComplete_outcome fuel env timeoutMs pollIntervalMs outcome n :
  pollUntilComplete fuel env timeoutMs pollIntervalMs = Some (outcome, n) ->
  endedBy env timeoutMs outcome n
  /\ forall j, (S j < n)%nat -> keepsPolling (answer env j).
Proof.
  intros Hrun. unfold pollUntilComplete in Hrun.
  destruct (pollLoop_trace env timeoutMs pollIntervalMs _ _ _ _ _ _ Hrun)
    as (_ & Hkeep & Hend).
  split.
  - unfold endedBy.
    destruct outcome as [[message|t|message]|url]; auto.
    split; [exact Hend|].
    destruct n as [|n]; [now left|right].
    apply Hkeep; simpl; lia.
  - intros j Hj. apply Hkeep; [lia|].
    destruct outcome as [[message|t|message]|url]; lia.
Qed.

Lemma pollUntilComplete_outcome_witness :
  pollUntilComplete 5 completesAtThird defaultTimeoutMs defaultPollIntervalMs
  = Some (inr "/outputs/ltx_1.mp4"%string, 3%nat)
  /\ keepsPolling (answer completesAtThird 0)
  /\ keepsPolling (answer completesAtThird 1).
Proof.
  pose proof (pollUntilComplete_outcome 5 completesAtThird defaultTimeoutMs
                defaultPollIntervalMs (inr "/outputs/ltx_1.mp4"%string) 3%nat
                eq_refl) as (_ & Hkeep).
  split; [reflexivity|].
  split; apply Hkeep; repeat constructor.
Defined.

(** X24. A service that answers every status request with completed but
    without a URL is polled until the time limit.  Assume that
    pollIntervalMs is positive, that the time between reading [startTime]
    and the first test of the loop is not negative and less than
    timeoutMs, that no status request takes negative time and that no wait
    of the loop ends before pollIntervalMs has passed (timers never fire
    early).  Then [pollUntilComplete], run for more than
    ceil(timeoutMs / pollIntervalMs) iterations, does not return a URL: it
    throws the timeout, after at least one and at most
    ceil(timeoutMs / pollIntervalMs) status requests. *)
Theorem completed_without_url_times_out env timeoutMs pollIntervalMs fuel :
  0 < pollIntervalMs ->
  startDelay env < timeoutMs ->
  clockAdvances env ->
  (maxChecks timeoutMs pollIntervalMs < fuel)%nat ->
  (forall k, exists st,
      answer env k = Ok st
      /\ status st = ltx_completed
      /\ JS.truthy (output_url st) = false) ->
  exists n,
    pollUntilComplete fuel env timeoutMs pollIntervalMs
    = Some (inl (TimedOut timeoutMs), n)
    /\ (1 <= n <= maxChecks timeoutMs pollIntervalMs)%nat.
Proof.
  intros Hi Ht Hclock Hfuel Hans.
  unfold pollUntilComplete.
  destruct (pollLoop_bound env timeoutMs pollIntervalMs (startClock env) Hi
              Hclock fuel (startClock env + startDelay env) 0%nat
              ltac:(destruct Hclock; lia) ltac:(lia) ltac:(lia))
    as (outcome & n & Hrun & Hn).
  destruct (pollLoop_trace env timeoutMs pollIntervalMs _ _ _ _ _ _ Hrun)
    as (_ & _ & Hend).
  assert (Hone : (1 <= n)%nat).
  { destruct fuel as [|fuel]; [discriminate|].
    cbn [pollLoop] in Hrun.
    replace (startClock env + startDelay env - startClock env)
      with (startDelay env) in Hrun by lia.
    destruct (Z.ltb_spec (startDelay env) timeoutMs) as [_|Hge]; [|lia].
    destruct (Hans 0%nat) as (st & Ha & Hs & Hu).
    rewrite Ha in Hrun. unfold completedUrl in Hrun.
    rewrite Hu, andb_false_r, Hs in Hrun. cbn [isFailed] in Hrun.
    now destruct (pollLoop_trace env timeoutMs pollIntervalMs _ _ _ _ _ _
                    Hrun) as (Hle & _). }
  exists n. split; [|lia].
  rewrite Hrun. repeat f_equal.
  destruct outcome as [[message|t|message]|url].
  - destruct Hend as (m & st & _ & Ha & Hs & _).
    destruct (Hans m) as (st' & Ha' & Hs' & _). congruence.
  - now subst t.
  - destruct Hend as (m & _ & Ha).
    destruct (Hans m) as (st' & Ha' & _). congruence.
  - destruct Hend as (m & st & _ & Ha & _ & Hu & Hne).
    destruct (Hans m) as (st' & Ha' & _ & Hu').
    assert (st' = st) by congruence. subst st'.
    rewrite Hu in Hu'. simpl in Hu'.
    apply negb_false_iff, String.eqb_eq in Hu'. contradiction.
Qed.

Lemma completed_without_url_times_out_witness :
  exists n,
    pollUntilComplete 121 (completedWithoutUrl 0) defaultTimeoutMs
      defaultPollIntervalMs
    = Some (inl (TimedOut defaultTimeoutMs), n)
    /\ (1 <= n <= 120)%nat.
Proof.
  refine (completed_without_url_times_out (completedWithoutUrl 0)
            defaultTimeoutMs defaultPollIntervalMs 121 _ _ _ _ _).
  - reflexivity.
  - reflexivity.
  - split; [apply Z.le_refl|]. intros k. simpl. lia.
  - apply Nat.lt_succ_diag_r.
  - intros k. eexists. repeat split.
Defined.

End PollingResults.

(* ------------------------------------------------------------------ *)
(** * Properties of the job routes *)

Section JobRows.

Local Open Scope R_scope.
Import Effects Routes Spec RoutesSpec.




Lemma find_job_none jobId before after :
  onlyJobTouched jobId before after ->
  find (fun r => String.eqb (Db.job_jobId r) jobId) before = None ->
  find (fun r => String.eqb (Db.job_jobId r) jobId) after = None.
Proof.
  unfold onlyJobTouched.
  induction 1 as [|r r' before after (Hid & _) _ IH]; simpl; auto.
  rewrite Hid. destruct (String.eqb (Db.job_jobId r) jobId); auto.
  discriminate.
Qed.

Lemma updateJobStatus_keeps_error jobId status progress outputPath w r :
  In r (Db.productionJobs
          (db (snd (updateJobStatus jobId status progress outputPath w)))) ->
  Db.job_jobId r = jobId ->
  Db.job_status r = status
  /\ exists r0,
       In r0 (Db.productionJobs (db w))
       /\ Db.job_jobId r0 = jobId
       /\ Db.job_error r = Db.job_error r0.
Proof.
  unfold updateJobStatus, writeDb. cbn [snd db Db.productionJobs].
  intros Hin Hid.
  destruct (updated_row jobId
              (fun r => Db.mkJobRow (Db.job_jobId r) (Db.job_storyboardId r)
                          status progress
                          (match outputPath with
                           | Some p => Some p
                           | None => Db.job_outputPath r
                           end) (Db.job_error r))
              _ r (fun _ => eq_refl) Hin Hid) as (r0 & Hin0 & ->).
  split; [reflexivity|]. exists r0. repeat split; auto.
Qed.

(** An iteration of the loop of the job writes the job table as one status
    update to matching or generating does. *)
Lemma resolveScene_job_table svc jobId storyboardId totalScenes i scene w :
  exists status,
    (status = matching \/ status = generating)
    /\ Db.productionJobs
         (db (snd (resolveScene svc jobId storyboardId totalScenes i scene
                     w)))
       = Db.productionJobs
           (db (snd (updateJobStatus jobId status
                       (0.1 + 0.7 * (INR i / INR totalScenes)) None w))).
Proof.
  pose proof (reuseMatched_world scene w) as Hw.
  unfold resolveScene. unfold bind at 1.
  destruct (reuseMatched scene w) as [[[asset|]|msg] w'] eqn:E;
    simpl in Hw; subst w'.
  - exists matching. split; [now left|reflexivity].
  - exists generating. split; [now right|].
    unfold bind, updateJobStatus, writeDb, generateVideoForScene, logCall,
      liftResult. simpl.
    destruct (svc_generateVideoForScene svc scene) as [g|msg]; simpl;
      [|reflexivity].
    unfold insertGeneratedAsset, bind, readDb, throw, writeDb. simpl.
    destruct (existsb _ _); simpl; [reflexivity|].
    unfold tryCatch, bind, catalogGeneratedAsset, logCall, liftResult.
    simpl.
    destruct (svc_catalogGeneratedAsset svc _ _ _ _); reflexivity.
  - exfalso. unfold reuseMatched in E.
    destruct (Scene.matchedAssetId scene) as [aid|]; [|discriminate].
    destruct (Scene.assetSource scene) as [[| |]|]; try discriminate.
    destruct (String.eqb aid ""); [discriminate|].
    unfold bind, selectSceneMatch, readDb, ret in E. simpl in E.
    destruct (find _ _); discriminate.
Qed.

End JobRows.

Section CancelAndDownload.

Local Open Scope R_scope.
Import Effects Routes Spec RoutesSpec.

(** X25. DELETE /:jobId answers 404 for an unknown job and 400 for a job
    that is completed or failed, and changes nothing then.  Otherwise it
    answers 200 and only marks the rows of the job failed with the error
    Cancelled by user.  That does not stop the job: the next iteration of
    the loop of [processProductionJob] puts the job back to matching or
    generating, and its last update makes it completed, the error column
    still saying Cancelled by user. *)
Theorem cancelRoute_outcome jobId w :
  let run := Jobs.cancelRoute jobId w in
  let lookup :=
    find (fun r => String.eqb (Db.job_jobId r) jobId)
      (Db.productionJobs (db w)) in
  (lookup = None -> run = (Ok 404%nat, w))
  /\ (forall job,
         lookup = Some job ->
         Jobs.isFinished (Db.job_status job) = true ->
         run = (Ok 400%nat, w))
  /\ (forall job,
         lookup = Some job ->
         Jobs.isFinished (Db.job_status job) = false ->
         fst run = Ok 200%nat
         /\ calls (snd run) = calls w
         /\ Db.storyboards (db (snd run)) = Db.storyboards (db w)
         /\ Db.sceneMatches (db (snd run)) = Db.sceneMatches (db w)
         /\ Db.generatedAssets (db (snd run)) = Db.generatedAssets (db w)
         /\ onlyJobTouched jobId (Db.productionJobs (db w))
              (Db.productionJobs (db (snd run)))
         /\ (forall r,
                In r (Db.productionJobs (db (snd run))) ->
                Db.job_jobId r = jobId ->
                Db.job_status r = failed
                /\ Db.job_error r = Some "Cancelled by user"%string)
         /\ (forall svc storyboardId totalScenes i scene r,
                In r (Db.productionJobs
                        (db (snd (resolveScene svc jobId storyboardId
                                    totalScenes i scene (snd run))))) ->
                Db.job_jobId r = jobId ->
                (Db.job_status r = matching \/ Db.job_status r = generating)
                /\ Db.job_error r = Some "Cancelled by user"%string)
         /\ (forall outputPath r,
                In r (Db.productionJobs
                        (db (snd (updateJobStatus jobId completed 1.0
                                    (Some outputPath) (snd run))))) ->
                Db.job_jobId r = jobId ->
                Db.job_status r = completed
                /\ Db.job_error r = Some "Cancelled by user"%string)).
Proof.
  intros run lookup. subst run lookup.
  unfold Jobs.cancelRoute, Jobs.selectJob, bind, readDb, ret, writeDb.
  cbn [fst snd].
  split; [intros ->; reflexivity|].
  split; [intros job -> ->; reflexivity|].
  intros job -> ->. cbn [fst snd db calls Db.storyboards Db.sceneMatches
                           Db.generatedAssets Db.productionJobs].
  set (cancelled :=
         map (fun r =>
                if String.eqb (Db.job_jobId r) jobId
                then Db.mkJobRow (Db.job_jobId r) (Db.job_storyboardId r)
                       failed (Db.job_progress r) (Db.job_outputPath r)
                       (Some "Cancelled by user"%string)
                else r)
           (Db.productionJobs (db w))).
  assert (Hrows : forall r,
             In r cancelled -> Db.job_jobId r = jobId ->
             Db.job_status r = failed
             /\ Db.job_error r = Some "Cancelled by user"%string).
  { intros r Hin Hid.
    destruct (updated_row jobId
                (fun r => Db.mkJobRow (Db.job_jobId r) (Db.job_storyboardId r)
                            failed (Db.job_progress r) (Db.job_outputPath r)
                            (Some "Cancelled by user"%string))
                _ r (fun _ => eq_refl) Hin Hid) as (r0 & _ & ->).
    split; reflexivity. }
  repeat (split; [reflexivity|]).
  split.
  { apply (onlyJobTouched_update jobId
             (fun r => Db.mkJobRow (Db.job_jobId r) (Db.job_storyboardId r)
                         failed (Db.job_progress r) (Db.job_outputPath r)
                         (Some "Cancelled by user"%string))).
    intros r. split; reflexivity. }
  split; [exact Hrows|].
  split.
  - intros svc storyboardId totalScenes i scene r Hin Hid.
    destruct (resolveScene_job_table svc jobId storyboardId totalScenes i
                scene
                (mkWorld
                   (Db.mk (Db.storyboards (db w)) cancelled
                      (Db.sceneMatches (db w)) (Db.generatedAssets (db w)))
                   (calls w) (idsDrawn w)))
      as (status & Hstatus & Htable).
    rewrite Htable in Hin.
    destruct (updateJobStatus_keeps_error _ _ _ _ _ _ Hin Hid)
      as (Hs & r0 & Hin0 & Hid0 & He).
    split; [rewrite Hs; destruct Hstatus; auto|].
    rewrite He. apply (Hrows r0 Hin0 Hid0).
  - intros outputPath r Hin Hid.
    destruct (updateJobStatus_keeps_error _ _ _ _ _ _ Hin Hid)
      as (Hs & r0 & Hin0 & Hid0 & He).
    split; [exact Hs|]. rewrite He. apply (Hrows r0 Hin0 Hid0).
Qed.

Lemma cancelRoute_outcome_witness :
  fst (Jobs.cancelRoute "job_1" Samples.world0) = Ok 200%nat
  /\ Db.productionJobs (db (snd (Jobs.cancelRoute "job_1" Samples.world0)))
     = [Db.mkJobRow "job_1" "sb_1" failed 0 None
          (Some "Cancelled by user"%string)].
Proof.
  destruct (proj2 (proj2 (cancelRoute_outcome "job_1" Samples.world0))
              (Db.mkJobRow "job_1" "sb_1" pending 0 None None)
              eq_refl eq_refl) as (H200 & _).
  split; [exact H200|reflexivity].
Defined.




End CancelAndDownload.

Section CatalogBatch.

Import Effects Catalog RoutesSpec2.

(** X27. [catalogBatch] never rejects: it asks the cataloguing service once
    per item, in order, swallows every failure, and returns the ids of the
    items that were accepted, in the order of the items; so it returns at
    most as many ids as there are items, and it leaves the database
    alone. *)
Theorem catalogBatch_collects svc assets :
  forall w,
    catalogBatch svc assets w
    = (Ok (acceptedIds svc assets),
       mkWorld (db w)
         (calls w
          ++ map (fun item => CallCatalog (Scene.sceneId (item_scene item)))
               assets)
         (idsDrawn w))
    /\ (List.length (acceptedIds svc assets) <= List.length assets)%nat.
Proof.
  induction assets as [|item rest IH]; intros w.
  - simpl. rewrite app_nil_r. split; [now destruct w|lia].
  - destruct (IH (mkWorld (db w)
                    (calls w ++ [CallCatalog (Scene.sceneId (item_scene item))])
                    (idsDrawn w))) as (Hrun & Hlen).
    cbn [catalogBatch acceptedIds]. unfold bind at 1.
    unfold catalogItem, tryCatch, bind, catalogGeneratedAsset, logCall,
      liftResult, ret.
    cbn [fst snd].
    destruct (svc_catalogGeneratedAsset svc (item_scene item)
                (item_prompt item) (item_filepath item)
                (item_storyboardId item)) as [id|msg];
      unfold bind; rewrite Hrun; cbn [db calls idsDrawn map List.length];
      rewrite <- app_assoc; (split; [reflexivity|lia]).
Qed.

End CatalogBatch.

Section CreateRoute.

Local Open Scope R_scope.
Import Effects StoryboardRoutes RoutesSpec2.

Variable svc : Services.

Lemma newScenes_run inputs :
  forall w,
    exists scenes,
      newScenes svc inputs w
      = (Ok scenes,
         mkWorld (db w) (calls w) (idsDrawn w + List.length inputs))
      /\ Forall2 storedFor inputs scenes.
Proof.
  induction inputs as [|s rest IH]; intros w.
  - exists []. simpl. rewrite Nat.add_0_r. split; [now destruct w|constructor].
  - destruct (IH (mkWorld (db w) (calls w) (S (idsDrawn w))))
      as (scenes & Hrun & Hstored).
    eexists. cbn [newScenes]. unfold bind at 1.
    unfold newScene, bind, nanoid, ret. cbn [fst snd].
    unfold bind. rewrite Hrun. cbn [db calls idsDrawn List.length].
    rewrite Nat.add_succ_r. split; [reflexivity|].
    constructor; [|exact Hstored].
    unfold storedFor, unresolved. repeat split.
Qed.

Lemma find_appended {A} (p : A -> bool) l x :
  existsb p l = false -> p x = true -> find p (l ++ [x]) = Some x.
Proof.
  induction l as [|y l IH]; simpl; intros Hl Hx.
  - now rewrite Hx.
  - apply orb_false_iff in Hl as (Hy & Hl). rewrite Hy. auto.
Qed.

(** X28. POST / answers 400 for a request with an empty title or a scene
    whose sequence or duration is not positive or whose description is
    empty, and changes nothing then.  For a valid request it either rejects
    because the storyboard id it drew is taken, the database unchanged, or
    answers 201 after appending one row to the storyboards table: the
    stored scenes are those of the request in order, with cut for a missing
    transition and no keywords for missing keywords, none of them resolved;
    resolution and frame rate default to 1920x1080 and 30; one identifier
    is drawn for the storyboard and one per scene; and GET /:id for the new
    id then answers 200 with the storyboard of the 201 answer. *)
Theorem createRoute_roundtrip body w :
  let run := createRoute svc body w in
  let storyboardId := ("sb_" ++ svc_nanoid svc (idsDrawn w))%string in
  (validRequest body = false -> run = (Ok (400%nat, None), w))
  /\ (validRequest body = true ->
      (existsb (fun r => String.eqb (Db.sb_storyboardId r) storyboardId)
         (Db.storyboards (db w)) = true
       /\ (exists msg, fst run = Throw msg)
       /\ db (snd run) = db w)
      \/ (existsb (fun r => String.eqb (Db.sb_storyboardId r) storyboardId)
            (Db.storyboards (db w)) = false
          /\ exists sb,
               fst run = Ok (201%nat, Some sb)
               /\ Storyboard.storyboardId sb = storyboardId
               /\ Storyboard.title sb = req_title body
               /\ Forall2 storedFor (req_scenes body) (Storyboard.scenes sb)
               /\ Storyboard.outputResolution sb
                  = orElse (req_outputResolution body) (1920, 1080)
               /\ Storyboard.outputFps sb = JS.numOr (req_outputFps body) 30
               /\ Db.storyboards (db (snd run))
                  = Db.storyboards (db w)
                    ++ [Db.mkStoryboardRow storyboardId (req_title body)
                          (Storyboard.scenes sb)
                          (fst (Storyboard.outputResolution sb))
                          (snd (Storyboard.outputResolution sb))
                          (Storyboard.outputFps sb)]
               /\ Db.productionJobs (db (snd run))
                  = Db.productionJobs (db w)
               /\ Db.sceneMatches (db (snd run)) = Db.sceneMatches (db w)
               /\ Db.generatedAssets (db (snd run))
                  = Db.generatedAssets (db w)
               /\ calls (snd run) = calls w
               /\ idsDrawn (snd run)
                  = (idsDrawn w + 1 + List.length (req_scenes body))%nat
               /\ getRoute storyboardId (snd run)
                  = (Ok (200%nat, Some sb), snd run))).
Proof.
  intros run storyboardId.
  assert (Hr : run = createRoute svc body w) by reflexivity.
  clearbody run.
  split.
  - intros Hv. unfold createRoute in Hr. now rewrite Hv in Hr.
  - intros Hv. unfold createRoute in Hr. rewrite Hv in Hr. cbn [negb] in Hr.
    unfold bind at 1 in Hr. unfold nanoid at 1 in Hr.
    destruct (newScenes_run (req_scenes body)
                (mkWorld (db w) (calls w) (S (idsDrawn w))))
      as (scenes & Hrun & Hstored).
    unfold bind at 1 in Hr. rewrite Hrun in Hr. cbn [db calls idsDrawn] in Hr.
    fold storyboardId in Hr.
    unfold bind, insertStoryboard, ret in Hr.
    cbn [db calls idsDrawn Db.sb_storyboardId Db.storyboards] in Hr.
    destruct (existsb
                (fun r => String.eqb (Db.sb_storyboardId r) storyboardId)
                (Db.storyboards (db w))) eqn:Hex; subst run.
    + left. split; [reflexivity|]. split; [eexists; reflexivity|reflexivity].
    + right. split; [reflexivity|].
      eexists. split; [reflexivity|].
      cbn [fst snd db calls idsDrawn Storyboard.storyboardId Storyboard.title
             Storyboard.scenes Storyboard.outputResolution
             Storyboard.outputFps Db.storyboards Db.productionJobs
             Db.sceneMatches Db.generatedAssets].
      repeat (split; [reflexivity || exact Hstored|]).
      split; [lia|].
      unfold getRoute, Routes.selectStoryboard, bind, readDb, ret.
      cbn [db Db.storyboards].
      rewrite (find_appended _ _ _ Hex)
        by (cbn [Db.sb_storyboardId]; apply String.eqb_refl).
      cbn [Db.sb_storyboardId Db.sb_title Db.sb_scenesJson Db.sb_outputWidth
             Db.sb_outputHeight Db.sb_outputFps].
      now rewrite <- surjective_pairing.
Qed.

End CreateRoute.

Section CreateRouteSample.

Local Open Scope R_scope.
Import Effects StoryboardRoutes RoutesSpec2.

Lemma createRoute_roundtrip_witness :
  exists sb,
    fst (createRoute Samples.services0 sampleRequest Samples.world0)
    = Ok (201%nat, Some sb)
    /\ Forall2 storedFor (req_scenes sampleRequest) (Storyboard.scenes sb)
    /\ getRoute "sb_Ab12Cd34"
         (snd (createRoute Samples.services0 sampleRequest Samples.world0))
       = (Ok (200%nat, Some sb),
          snd (createRoute Samples.services0 sampleRequest Samples.world0)).
Proof.
  assert (Hvalid : validRequest sampleRequest = true).
  { unfold validRequest, sampleRequest, validScene. simpl.
    unfold JS.ltb. destruct (Rlt_dec 0 5) as [_|H]; [reflexivity|].
    exfalso. apply H. lra. }
  destruct (proj2 (createRoute_roundtrip Samples.services0 sampleRequest
                     Samples.world0) Hvalid)
    as [(Hex & _) | (_ & sb & H201 & _ & _ & Hstored & _ & _ & _ & _ & _ & _
                     & _ & _ & Hget)].
  - discriminate Hex.
  - exists sb. split; [exact H201|]. split; [exact Hstored|exact Hget].
Defined.

End CreateRouteSample.

Section ProduceRoute.

Local Open Scope R_scope.
Import Effects Routes StoryboardRoutes RoutesSpec.

Variable svc : Services.





End ProduceRoute.

Section ProduceRouteSample.

Local Open Scope R_scope.
Import Effects Routes StoryboardRoutes.


End ProduceRouteSample.

Section Rematch.

Local Open Scope R_scope.
Import Effects Routes Spec RoutesSpec.

Lemma find_app_first {A} (p : A -> bool) l l' x :
  find p l = Some x -> find p (l ++ l') = Some x.
Proof.
  induction l as [|y l IH]; simpl; [discriminate|].
  destruct (p y); auto.
Qed.

(** X30. The match route only appends to scene_matches, so the row a
    lookup by scene id finds, the oldest one with the tables read in
    insertion order, is the same after a match as before.  The production
    job takes the file of a scene stored as an existing match from that
    lookup: for a scene that already had a row, for instance from an
    override, it keeps using the path of that row after a re-match,
    whatever asset id the scene now carries. *)
Theorem rematch_keeps_oldest_path svc id w row :
  find (fun s => String.eqb (Db.sb_storyboardId s) id)
    (Db.storyboards (db w)) = Some row ->
  let w' := snd (matchRoute svc id w) in
  (forall sceneId old,
      find (fun r => String.eqb (Db.sm_sceneId r) sceneId)
        (Db.sceneMatches (db w)) = Some old ->
      find (fun r => String.eqb (Db.sm_sceneId r) sceneId)
        (Db.sceneMatches (db w')) = Some old)
  /\ (forall scene old assetId,
         find (fun r => String.eqb (Db.sm_sceneId r) (Scene.sceneId scene))
           (Db.sceneMatches (db w)) = Some old ->
         Scene.matchedAssetId scene = Some assetId ->
         assetId <> ""%string ->
         Scene.assetSource scene = Some existing ->
         exists asset,
           reuseMatched scene w' = (Ok (Some asset), w')
           /\ ResolvedAsset.assetId asset = assetId
           /\ ResolvedAsset.localPath asset = Db.sm_assetPath old).
Proof.
  intros Hrow w'.
  assert (Hkeep : forall sceneId old,
             find (fun r => String.eqb (Db.sm_sceneId r) sceneId)
               (Db.sceneMatches (db w)) = Some old ->
             find (fun r => String.eqb (Db.sm_sceneId r) sceneId)
               (Db.sceneMatches (db w')) = Some old).
  { intros sceneId old Hold.
    assert (Hw : w' = snd (matchRoute svc id w)) by reflexivity.
    clearbody w'.
    unfold matchRoute, bind, selectStoryboard, readDb, ret in Hw.
    simpl in Hw. rewrite Hrow in Hw.
    pose proof (matchScenes_frame svc id (Db.sb_scenesJson row) w)
      as (_ & _ & _ & _ & _ & results & added & Hrs & _ & Hsm & _).
    destruct (matchScenes svc id (Db.sb_scenesJson row) w) as [rs w1].
    cbn [fst snd] in Hrs, Hsm. subst rs.
    unfold updateStoryboardScenes, writeDb in Hw. simpl in Hw.
    subst w'. cbn [db Db.sceneMatches].
    rewrite Hsm. now apply find_app_first. }
  split; [exact Hkeep|].
  intros scene old assetId Hold Haid Hne Hsrc.
  apply Hkeep in Hold.
  apply String.eqb_neq in Hne.
  clearbody w'.
  exists (ResolvedAsset.mk (Scene.sceneId scene) assetId
            (Db.sm_assetPath old) existing
            (JS.numOr (Scene.matchScore scene) 1.0)
            (Scene.needsReview scene)).
  split; [|split; reflexivity].
  unfold reuseMatched. rewrite Haid, Hsrc, Hne.
  unfold selectSceneMatch, bind, readDb, ret.
  now rewrite Hold.
Qed.

Lemma rematch_keeps_oldest_path_witness :
  exists asset,
    reuseMatched Samples.sceneMatched
      (snd (matchRoute Samples.services0 "sb_1" Samples.worldManual))
    = (Ok (Some asset),
       snd (matchRoute Samples.services0 "sb_1" Samples.worldManual))
    /\ ResolvedAsset.assetId asset = "a95"%string
    /\ ResolvedAsset.localPath asset = "/media/a42.mp4"%string.
Proof.
  refine (proj2 (rematch_keeps_oldest_path Samples.services0 "sb_1"
                   Samples.worldManual
                   (Db.mkStoryboardRow "sb_1" "Morning" [Samples.sceneManual]
                      1920 1080 30) eq_refl)
            Samples.sceneMatched
            (Db.mkSceneMatchRow "sb_1" "sc_1" "asset_42" "/media/a42.mp4"
               manual 1.0 false)
            "a95"%string eq_refl eq_refl _ eq_refl).
  discriminate.
Defined.

End Rematch.
